(** * PyMLViz samplers: slice sampling, multi-direction sampling, Gibbs sampling

    A shallow embedding of the three sampler classes of
    [notebooks/Sampling_Slice.ipynb] and of the Gibbs notebook that follows it
    in the same file:

    - [SliceSampling]  (fields [log_p], [x], [w], [samples], [evals]),
    - [MultiSampling]  (fields [uni_sampler], [log_p], [x], [directions]),
    - [GibbsSampling]  (fields [transitions], [x]),

    together with the driving loops of the notebook cells, the diagnostic
    line [SliceSampling.__str__] and the cell that computes the path of the
    widgets notebook.

    Modelling decisions.

    - Finite Python floats are modelled by the rationals [Q], and their
      arithmetic is exact.  Exact arithmetic idealises binary64: how far an
      addition moves an endpoint (that enough steps of a positive width
      leave any bounded region, that a proposal made with a positive draw
      differs from the left endpoint) is a fact about rationals that fails
      for floats, and the theorems below do not state such facts.  They
      are about the points the code computes: the proposal, the points a
      loop steps to.  Rounding itself is looked at in the module [Binary64],
      which reads the left step-out loop over binary64 floats.
    - A log-density value is a rational or -inf ([logval]), which is the
      convention of the notebooks for points of probability zero.
    - [np.exp] and [np.log] are not rational functions.  They are taken as
      the two fields of the class [NumPy]; every theorem holds for all
      instances.  [np.exp] overflows to +inf for a large argument, so its
      value is an [expval]: a rational or +inf.
    - [np.random] is a global generator.  It is modelled by an explicit
      [RandomSource]: an infinite sequence of unit draws and a cursor.
      [np.random.uniform(low, high)] is [low + (high - low) * u] for the next
      unit draw [u], and raises [OverflowError] when [high - low] is not
      finite, as NumPy does.
    - A Python callable may raise; a [while] loop may run forever.  Calls
      return a [result]: [Ok], [Raise e], or [OutOfFuel] when the loop budget
      given to the model is exhausted.
    - Python lists are mutable objects.  The Gibbs sampler is modelled over a
      [heap] of list objects addressed by location, so that copying
      ([self.x[:]]) and in-place item assignment are distinguished. *)

From Stdlib Require Import QArith Qround Lqa Ascii DecimalString DecimalNat.
From Stdlib Require Import PrimFloat.
From stdpp Require Import base list strings.

Local Open Scope Q_scope.

(** ** Results and the state monad of a call *)

Inductive exn : Type :=
  | IndexError
  | ValueError
  | OverflowError
  | UserError (code : nat).

Inductive result (A : Type) : Type :=
  | Ok (a : A)
  | Raise (e : exn)
  | OutOfFuel.
Arguments Ok {A} a.
Arguments Raise {A} e.
Arguments OutOfFuel {A}.

Definition ST (W A : Type) : Type := W -> result (A * W).

Definition ret {W A} (a : A) : ST W A := fun w => Ok (a, w).

Definition bind {W A B} (m : ST W A) (k : A -> ST W B) : ST W B :=
  fun w =>
    match m w with
    | Ok (a, w') => k a w'
    | Raise e => Raise e
    | OutOfFuel => OutOfFuel
    end.

Definition raise {W A} (e : exn) : ST W A := fun _ => Raise e.
Definition timeout {W A} : ST W A := fun _ => OutOfFuel.
Definition gets {W A} (f : W -> A) : ST W A := fun w => Ok (f w, w).
Definition modify {W} (f : W -> W) : ST W unit := fun w => Ok (tt, f w).
Definition lift {W A} (r : result A) : ST W A :=
  fun w =>
    match r with
    | Ok a => Ok (a, w)
    | Raise e => Raise e
    | OutOfFuel => OutOfFuel
    end.

Notation "'let*' x ':=' c 'in' k" := (bind c (fun x => k))
  (at level 10, x pattern, c at level 100, k at level 200).
Notation "c ';;' k" := (bind c (fun _ => k))
  (at level 100, k at level 200, right associativity).

(** ** Numbers *)

(** [a > b] on positions. *)
Definition Qgtb (a b : Q) : bool := negb (Qle_bool a b).

(** A log-density value: a rational, or -inf where the density is zero. *)
Inductive logval : Type :=
  | NegInf
  | Fin (q : Q).

(** [a > b] on log-density values. *)
Definition lv_gtb (a b : logval) : bool :=
  match a, b with
  | NegInf, _ => false
  | Fin _, NegInf => true
  | Fin p, Fin q => Qgtb p q
  end.

Definition lv_gt (a b : logval) : Prop := lv_gtb a b = true.

(** [a <= b] on log-density values. *)
Definition lv_le (a b : logval) : Prop :=
  match a, b with
  | NegInf, _ => True
  | Fin _, NegInf => False
  | Fin p, Fin q => p <= q
  end.

(** A value of [np.exp]: a rational, or +inf when the exponential
    overflows. *)
Inductive expval : Type :=
  | Val (q : Q)
  | Inf.

(** The two NumPy functions the slice sampler calls. *)
Class NumPy : Type := {
  np_exp : logval -> expval;
  np_log : Q -> logval
}.

(** ** The random source *)

Record RandomSource : Type := {
  draws : nat -> Q;
  pos : nat
}.

(** The next unit draw. *)
Definition random_sample (rs : RandomSource) : Q * RandomSource :=
  (draws rs (pos rs), {| draws := draws rs; pos := S (pos rs) |}).

(** The point of [[low, high]] that the unit draw [u] selects. *)
Definition uniform_value (low high u : Q) : Q := low + (high - low) * u.

(** [np.random.uniform(low, high)]: NumPy raises [OverflowError] ("Range
    exceeds valid bounds") when [high - low] is not finite, before it draws
    anything. *)
Definition np_random_uniform (low : Q) (high : expval) (rs : RandomSource)
  : result (Q * RandomSource) :=
  match high with
  | Inf => Raise OverflowError
  | Val h =>
      let (u, rs') := random_sample rs in Ok (uniform_value low h u, rs')
  end.

(** The source after [k] further draws have been consumed. *)
Definition advance (k : nat) (rs : RandomSource) : RandomSource :=
  {| draws := draws rs; pos := (k + pos rs)%nat |}.

(** Every unit draw lies in the half-open interval [0, 1). *)
Definition unit_draws (rs : RandomSource) : Prop :=
  forall i, 0 <= draws rs i /\ draws rs i < 1.

(** Two sources that deliver the same draws from their cursors on. *)
Definition same_draws (r1 r2 : RandomSource) : Prop :=
  forall i : nat, draws r1 (pos r1 + i) = draws r2 (pos r2 + i).

(** Two calls that end the same way: same value and same object, sources
    still delivering the same draws; or the same exception; or both out of
    budget. *)
Definition same_outcome {A S : Type}
    (o1 o2 : result (A * (S * RandomSource))) : Prop :=
  match o1, o2 with
  | Ok (a1, (s1, r1)), Ok (a2, (s2, r2)) =>
      a1 = a2 /\ s1 = s2 /\ same_draws r1 r2
  | Raise e1, Raise e2 => e1 = e2
  | OutOfFuel, OutOfFuel => True
  | _, _ => False
  end.

(** A computation that depends on the source only through its draws. *)
Definition respects {A S : Type} (m : ST (S * RandomSource) A) : Prop :=
  forall (s : S) (r1 r2 : RandomSource),
    same_draws r1 r2 -> same_outcome (m (s, r1)) (m (s, r2)).

(** ** The sampler interface

    [smpl_intro.Sampling] is the base class of the three samplers; the only
    method the code of this file relies on is [sample()].  [S] is the type of
    the object, [V] the type of a sample. *)

Class Sampling (S V : Type) : Type := {
  sample : nat -> S -> RandomSource -> result (V * (S * RandomSource))
}.

(** ** SliceSampling *)

Module SliceSampling.

Record t : Type := {
  log_p : Q -> result logval;
  x : Q;
  w : Q;
  samples : nat;
  evals : nat
}.

(** [__init__]. *)
Definition init (log_p : Q -> result logval) (x w : Q) : t :=
  {| log_p := log_p; x := x; w := w; samples := 0; evals := 0 |}.

Definition set_x (v : Q) (s : t) : t :=
  {| log_p := log_p s; x := v; w := w s;
     samples := samples s; evals := evals s |}.
Definition incr_samples (s : t) : t :=
  {| log_p := log_p s; x := x s; w := w s;
     samples := S (samples s); evals := evals s |}.
Definition incr_evals (s : t) : t :=
  {| log_p := log_p s; x := x s; w := w s;
     samples := samples s; evals := S (evals s) |}.

(** The object after [n] more evaluations have been counted. *)
Definition add_evals (n : nat) (s : t) : t :=
  {| log_p := log_p s; x := x s; w := w s;
     samples := samples s; evals := (n + evals s)%nat |}.

(** The left endpoint after [n] steps out of width [w], and the right
    one. *)
Definition left_of (s : t) (a : Q) (n : nat) : Q :=
  Nat.iter n (fun z => z - w s) a.
Definition right_of (s : t) (a : Q) (n : nat) : Q :=
  Nat.iter n (fun z => z + w s) a.

(** The density returns a value at every point. *)
Definition total_density (s : t) : Prop :=
  forall z : Q, exists v : logval, log_p s z = Ok v.

(** The region above the slice level [lu] lies in [[-B, B]]. *)
Definition slice_bounded (s : t) (lu : logval) (B : Q) : Prop :=
  forall (z : Q) (v : logval),
    log_p s z = Ok v -> lv_gt v lu -> - B <= z /\ z <= B.

(** The world of a call: the object and the generator. *)
Definition M : Type -> Type := ST (t * RandomSource).

Definition self {A} (f : t -> A) : M A := gets (fun wd => f (fst wd)).
Definition update (f : t -> t) : M unit :=
  modify (fun wd => (f (fst wd), snd wd)).
Definition uniform (low : Q) (high : expval) : M Q :=
  fun wd =>
    match np_random_uniform low high (snd wd) with
    | Ok (v, rs') => Ok (v, (fst wd, rs'))
    | Raise e => Raise e
    | OutOfFuel => OutOfFuel
    end.

(** [_log_p]: count the evaluation, then evaluate. *)
Definition _log_p (a : Q) : M logval :=
  update incr_evals ;;
  let* f := self log_p in
  lift (f a).

(** The local variables of [sample] at the moment it returns. *)
Record frame : Type := {
  log_u_prime : logval;
  xl : Q;
  xr : Q;
  x_prime : Q
}.

(** [while (self._log_p(xl) > log_u_prime): xl -= self.w] *)
Fixpoint step_out_left (fuel : nat) (lu : logval) (xl : Q) : M Q :=
  match fuel with
  | O => timeout
  | S n =>
      let* v := _log_p xl in
      if lv_gtb v lu then
        let* wd := self w in
        step_out_left n lu (xl - wd)
      else ret xl
  end.

(** [while (self._log_p(xr) > log_u_prime): xr += self.w] *)
Fixpoint step_out_right (fuel : nat) (lu : logval) (xr : Q) : M Q :=
  match fuel with
  | O => timeout
  | S n =>
      let* v := _log_p xr in
      if lv_gtb v lu then
        let* wd := self w in
        step_out_right n lu (xr + wd)
      else ret xr
  end.

(** "Adjust interval": the rejected proposal [x'] becomes the endpoint on
    its side of the current sample [cur]. *)
Definition adjust_interval (x' cur xl xr : Q) : Q * Q :=
  if Qgtb x' cur then (xl, x') else (x', xr).

(** The main sampling loop, [while True: ...]. *)
Fixpoint main_loop (fuel : nat) (lu : logval) (xl xr : Q) : M frame :=
  match fuel with
  | O => timeout
  | S n =>
      let* x' := uniform xl (Val xr) in
      let* log_px_prime := _log_p x' in
      if lv_gtb log_px_prime lu then
        update (set_x x') ;;
        ret {| log_u_prime := lu; xl := xl; xr := xr; x_prime := x' |}
      else
        let* cur := self x in
        let (xl', xr') := adjust_interval x' cur xl xr in
        main_loop n lu xl' xr'
  end.

(** The main loop as a sequence of proposals.  [bracket_after n] is the
    bracket once the first [n] proposals drawn from [rs] have been
    rejected, each one having become the endpoint on its side of the
    current sample [cur]; [proposal n] is the proposal drawn from that
    bracket. *)
Fixpoint bracket_after (n : nat) (cur xl xr : Q) (rs : RandomSource)
  : Q * Q :=
  match n with
  | O => (xl, xr)
  | S n' =>
      let x' := uniform_value xl xr (draws rs (pos rs)) in
      bracket_after n' cur (fst (adjust_interval x' cur xl xr))
        (snd (adjust_interval x' cur xl xr)) (advance 1 rs)
  end.

Definition proposal (n : nat) (cur xl xr : Q) (rs : RandomSource) : Q :=
  uniform_value (fst (bracket_after n cur xl xr rs))
    (snd (bracket_after n cur xl xr rs)) (draws rs (n + pos rs)).

Section WithNumPy.
Context `{np : NumPy}.

(** The slice level and the initial bracket (the code before the two
    step-out loops). *)
Definition bracket : M (logval * Q * Q) :=
  let* cur := self x in
  let* log_px := _log_p cur in
  let* u := uniform 0 (np_exp log_px) in
  let lu := np_log u in
  let* r := uniform 0 (Val 1) in
  let* cur := self x in
  let* wd := self w in
  let xl := cur - r * wd in
  let* cur := self x in
  let* wd := self w in
  let xr := cur + (1 - r) * wd in
  ret (lu, xl, xr).

(** The two step-out loops. *)
Definition step_out (fuel : nat) (lu : logval) (xl xr : Q) : M (Q * Q) :=
  let* xl := step_out_left fuel lu xl in
  let* xr := step_out_right fuel lu xr in
  ret (xl, xr).

(** The body of [sample], returning its local variables. *)
Definition sample_frame (fuel : nat) : M frame :=
  update incr_samples ;;
  let* (lu, xl, xr) := bracket in
  let* (xl, xr) := step_out fuel lu xl xr in
  main_loop fuel lu xl xr.

(** [sample]: the returned value is [x_prime]. *)
Definition sample_m (fuel : nat) : M Q :=
  let* fr := sample_frame fuel in
  ret (x_prime fr).

Definition sample (fuel : nat) (s : t) (rs : RandomSource)
  : result (Q * (t * RandomSource)) :=
  sample_m fuel (s, rs).

End WithNumPy.

End SliceSampling.

#[export] Instance SliceSampling_Sampling `{np : NumPy}
  : Sampling SliceSampling.t Q :=
  {| sample := SliceSampling.sample |}.

(** ** NumPy arrays of one dimension *)

(** [a * d] for a scalar [a] and an array [d]. *)
Definition np_scale (a : Q) (d : list Q) : list Q := map (Qmult a) d.

(** [a + b] for two arrays, with NumPy's broadcasting rule: equal lengths
    add elementwise, an array of length one is stretched, anything else is a
    [ValueError] ("operands could not be broadcast together"). *)
Definition np_add (a b : list Q) : result (list Q) :=
  if Nat.eqb (length a) (length b) then Ok (zip_with Qplus a b)
  else
    match a, b with
    | _, [b0] => Ok (map (fun ai => ai + b0) a)
    | [a0], _ => Ok (map (fun bi => a0 + bi) b)
    | _, _ => Raise ValueError
    end.

(** The sum of [u_k * d_k] over the directions, as an array of length
    [n]. *)
Definition weighted_sum (us : list Q) (ds : list (list Q)) (n : nat)
  : list Q :=
  fold_right (fun ud acc => zip_with Qplus (np_scale (fst ud) (snd ud)) acc)
    (repeat 0 n) (zip us ds).

(** Two arrays with equal entries. *)
Definition array_eq (a b : list Q) : Prop := Forall2 Qeq a b.

(** ** The left step-out loop over binary64

    The loop of [SliceSampling.step_out_left] once more, this time over
    binary64 floats, where [xl -= self.w] rounds.  The object is cut down
    to what the loop touches: [log_p], [w] and the counter [evals]; the
    density is a total function on floats. *)

Module Binary64.
Import PrimFloat.
Local Open Scope float_scope.

Record t : Type := {
  log_p : float -> float;
  w : float;
  evals : nat
}.

Definition incr_evals (s : t) : t :=
  {| log_p := log_p s; w := w s; evals := S (evals s) |}.

(** [a > b] on floats. *)
Definition gtb (a b : float) : bool := ltb b a.

(** [while (self._log_p(xl) > log_u_prime): xl -= self.w] *)
Fixpoint step_out_left (fuel : nat) (lu xl : float) (s : t)
  : result (float * t) :=
  match fuel with
  | O => OutOfFuel
  | S n =>
      let s1 := incr_evals s in
      if gtb (log_p s1 xl) lu then step_out_left n lu (xl - w s1) s1
      else Ok (xl, s1)
  end.

(** A log-density: [0] on [[lo, hi]], -inf elsewhere. *)
Definition window (lo hi : float) : float -> float :=
  fun z => if leb lo z && leb z hi then 0 else neg_infinity.

(** A sampler far from the origin: the density is positive within 16 of
    [10^16], the width is [1]; the state [far_x], the random offset
    [far_r] of the bracket and a slice level [far_level] below the
    density. *)
Definition far_x : float := 1e16.
Definition far_r : float := 0.25.
Definition far_level : float := -1.
Definition far_lo : float := 9999999999999984.
Definition far_hi : float := 10000000000000016.
Definition far_sampler : t :=
  {| log_p := window far_lo far_hi; w := 1; evals := 1 |}.

(** [xl = self.x - r*self.w] *)
Definition far_xl : float := far_x - far_r * w far_sampler.

End Binary64.

(** ** MultiSampling *)

Module MultiSampling.

Section WithSampler.
(** [U] is the class of the one-dimensional sampler made by the factory. *)
Context {U : Type} `{SU : Sampling U Q}.

Record t : Type := {
  uni_sampler : (Q -> result logval) -> Q -> U;
  log_p : list Q -> result logval;
  x : list Q;
  directions : list (list Q)
}.

(** [__init__]. *)
Definition init (uni_sampler : (Q -> result logval) -> Q -> U)
    (log_p : list Q -> result logval) (x : list Q)
    (directions : list (list Q)) : t :=
  {| uni_sampler := uni_sampler; log_p := log_p; x := x;
     directions := directions |}.

Definition set_x (v : list Q) (s : t) : t :=
  {| uni_sampler := uni_sampler s; log_p := log_p s; x := v;
     directions := directions s |}.

Definition M : Type -> Type := ST (t * RandomSource).

Definition self {A} (f : t -> A) : M A := gets (fun wd => f (fst wd)).
Definition update (f : t -> t) : M unit :=
  modify (fun wd => (f (fst wd), snd wd)).

(** [sampler.sample()] on a temporary object: the generator is threaded
    through, the object is dropped after the call. *)
Definition call_sample (fuel : nat) (u : U) : M Q :=
  fun wd =>
    match sample fuel u (snd wd) with
    | Ok (v, (_, rs')) => Ok (v, (fst wd, rs'))
    | Raise e => Raise e
    | OutOfFuel => OutOfFuel
    end.

(** [lambda ux: self.log_p(self.x + ux*d)].  The lambda reads [self.x]
    when it is called; all its calls happen inside [.sample()], before
    the assignment to [self.x], so [cur] is the value at that time. *)
Definition uni_log_p (lp : list Q -> result logval) (cur d : list Q)
  : Q -> result logval :=
  fun ux =>
    match np_add cur (np_scale ux d) with
    | Ok y => lp y
    | Raise e => Raise e
    | OutOfFuel => OutOfFuel
    end.

(** The temporary sampler made by the factory for direction [d] when
    the state is [cur]: restricted density, offset [0]. *)
Definition sampler_for (s : t) (cur d : list Q) : U :=
  uni_sampler s (uni_log_p (log_p s) cur d) 0.

(** The body of [for d in self.directions]. *)
Definition direction_step (fuel : nat) (d : list Q) : M unit :=
  let* lp := self log_p in
  let* cur := self x in
  let* mk := self uni_sampler in
  let* ux_prime := call_sample fuel (mk (uni_log_p lp cur d) 0) in
  let* cur := self x in
  let* x' := lift (np_add cur (np_scale ux_prime d)) in
  update (set_x x').

Fixpoint loop (fuel : nat) (ds : list (list Q)) : M unit :=
  match ds with
  | [] => ret tt
  | d :: ds' => direction_step fuel d ;; loop fuel ds'
  end.

Definition sample_m (fuel : nat) : M (list Q) :=
  let* ds := self directions in
  loop fuel ds ;;
  self x.

Definition sample (fuel : nat) (s : t) (rs : RandomSource)
  : result (list Q * (t * RandomSource)) :=
  sample_m fuel (s, rs).

End WithSampler.

End MultiSampling.

#[export] Instance MultiSampling_Sampling {U : Type} `{SU : Sampling U Q}
  : Sampling MultiSampling.t (list Q) :=
  {| sample := MultiSampling.sample |}.

(** ** Python list objects *)

(** An element of a Gibbs state: a float or a NumPy array (a block of
    coordinates, such as the weight vector of the regression example). *)
Inductive value : Type :=
  | Num (q : Q)
  | Arr (a : list Q).

Definition shape (v : value) : list nat :=
  match v with
  | Num _ => []
  | Arr a => [length a]
  end.

(** Lists are objects: a location names one, the heap holds its items. *)
Abbreviation loc := nat (only parsing).
Abbreviation heap := (list (list value)) (only parsing).

(** The items of the list at [l].  A reference always names a list in
    Python; the default is never reached from a location that was
    allocated. *)
Definition heap_items (h : heap) (l : loc) : list value :=
  default [] (h !! l).

(** A new list object with items [xs]. *)
Definition heap_alloc (xs : list value) (h : heap) : loc * heap :=
  (length h, h ++ [xs]).

(** [lst[i] = v]: in place; [IndexError] when [i] is out of range. *)
Definition heap_setitem (l : loc) (i : nat) (v : value) (h : heap)
  : result heap :=
  if Nat.ltb i (length (heap_items h l))
  then Ok (<[l := <[i := v]> (heap_items h l)]> h)
  else Raise IndexError.

(** ** GibbsSampling *)

Module GibbsSampling.

(** A transition reads the items of the list it is given and may draw
    random numbers; it returns the new value of its coordinate. *)
Definition transition : Type := list value -> ST RandomSource value.

Record t : Type := {
  transitions : list transition;
  x : loc
}.

(** [__init__]. *)
Definition init (transitions : list transition) (x : loc) : t :=
  {| transitions := transitions; x := x |}.

Definition set_x (l : loc) (s : t) : t :=
  {| transitions := transitions s; x := l |}.

(** The world of a call: the object, the heap and the generator. *)
Definition world : Type := t * (heap * RandomSource).
Definition M : Type -> Type := ST world.

Definition self {A} (f : t -> A) : M A := gets (fun wd => f (fst wd)).
Definition update (f : t -> t) : M unit :=
  modify (fun wd => (f (fst wd), snd wd)).
Definition items (l : loc) : M (list value) :=
  gets (fun wd => heap_items (fst (snd wd)) l).
Definition alloc (xs : list value) : M loc :=
  fun wd =>
    let (l, h') := heap_alloc xs (fst (snd wd)) in
    Ok (l, (fst wd, (h', snd (snd wd)))).
Definition setitem (l : loc) (i : nat) (v : value) : M unit :=
  fun wd =>
    match heap_setitem l i v (fst (snd wd)) with
    | Ok h' => Ok (tt, (fst wd, (h', snd (snd wd))))
    | Raise e => Raise e
    | OutOfFuel => OutOfFuel
    end.
Definition call (T : transition) (xs : list value) : M value :=
  fun wd =>
    match T xs (snd (snd wd)) with
    | Ok (v, rs') => Ok (v, (fst wd, (fst (snd wd), rs')))
    | Raise e => Raise e
    | OutOfFuel => OutOfFuel
    end.

(** [for i in range(K): x[i] = self.transitions[i](x)], from index [i] on;
    [ts] is [self.transitions[i:]] and [l] the working list [x]. *)
Fixpoint loop (ts : list transition) (i : nat) (l : loc) : M unit :=
  match ts with
  | [] => ret tt
  | T :: ts' =>
      let* cur := items l in
      let* v := call T cur in
      setitem l i v ;;
      loop ts' (S i) l
  end.

Definition sample_m : M loc :=
  let* l0 := self x in
  let* xs := items l0 in
  let* l := alloc xs in
  let* ts := self transitions in
  loop ts 0%nat l ;;
  update (set_x l) ;;
  ret l.

Definition sample (s : t) (h : heap) (rs : RandomSource)
  : result (loc * world) :=
  sample_m (s, (h, rs)).

(** The working list of a sweep that has reached index [j], given the
    list [xs] before the sweep and the list [xs'] after it: new values
    before [j], previous values from [j] on. *)
Definition view (xs' xs : list value) (j : nat) : list value :=
  take j xs' ++ drop j xs.

(** Every transition of [ts] returns a value on every input. *)
Definition total_transitions (ts : list transition) : Prop :=
  forall T, In T ts ->
    forall ys r, exists v r', T ys r = Ok (v, r').

(** The driving loop of the notebook,
    [samples = [sampling.sample() for _ in range(n)]]. *)
Fixpoint run (n : nat) : M (list loc) :=
  match n with
  | O => ret []
  | S n' =>
      let* l := sample_m in
      let* ls := run n' in
      ret (l :: ls)
  end.

End GibbsSampling.

(** ** The driving loop

    [samples = [sampling.sample() for _ in range(n)]]. *)

Fixpoint run_samples {S V : Type} `{SV : Sampling S V} (fuel n : nat)
    (s : S) (rs : RandomSource) : result (list V * (S * RandomSource)) :=
  match n with
  | O => Ok ([], (s, rs))
  | Datatypes.S n' =>
      match sample fuel s rs with
      | Ok (v, (s', rs')) =>
          match run_samples fuel n' s' rs' with
          | Ok (vs, wd) => Ok (v :: vs, wd)
          | Raise e => Raise e
          | OutOfFuel => OutOfFuel
          end
      | Raise e => Raise e
      | OutOfFuel => OutOfFuel
      end
  end.

(** ** Concrete data for the examples *)

(** Rational stand-ins for [np.exp] and [np.log]: increasing, inverse of each
    other, [exp 0 = 1], [exp (-inf) = 0], [log 0 = -inf]; as in binary64,
    the exponential is +inf from 710 on. *)
Definition toy_exp (v : logval) : expval :=
  match v with
  | NegInf => Val 0
  | Fin q =>
      if Qle_bool 710 q then Inf
      else if Qle_bool 0 q then Val (1 + q) else Val (/ (1 - q))
  end.

Definition toy_log (q : Q) : logval :=
  if Qle_bool q 0 then NegInf
  else if Qle_bool 1 q then Fin (q - 1)
  else Fin (1 - / q).

Definition toy_numpy : NumPy := {| np_exp := toy_exp; np_log := toy_log |}.

(** A source that replays [l] and then repeats [d]. *)
Definition source_of (l : list Q) (d : Q) : RandomSource :=
  {| draws := fun i => nth i l d; pos := 0 |}.

(** The log-density [-(a^2)] of an unnormalised Gaussian. *)
Definition parabola : Q -> result logval := fun a => Ok (Fin (- (a * a))).

(** A density that is zero everywhere except at [x0], where its logarithm
    is [c]. *)
Definition point_mass (x0 c : Q) : Q -> result logval :=
  fun a => Ok (if Qeq_bool a x0 then Fin c else NegInf).

(** A density above every slice level on the whole line. *)
Definition flat : Q -> result logval := fun _ => Ok (Fin 0).


(** A density with two far islands: above level [0] next to the origin and
    again beyond distance ten, zero in between. *)
Definition islands : Q -> result logval :=
  fun a =>
    Ok (if Qgtb 1 (a * a) || Qgtb (a * a) 100 then Fin 0 else NegInf).

(** [lambda log_p, x: SliceSampling(log_p, x, w=...)], the factory the
    notebook passes to [MultiSampling]. *)
Definition slice_factory (w : Q)
  : (Q -> result logval) -> Q -> SliceSampling.t :=
  fun lp x0 => SliceSampling.init lp x0 w.

(** The log-density [-(y_1^2 + ... + y_n^2)] of an unnormalised Gaussian. *)
Definition gauss : list Q -> result logval :=
  fun y => Ok (Fin (- fold_right (fun a acc => a * a + acc) 0 y)).

(** A stand-in for [np.random.normal(loc, scale)]: the location plus the
    scale times a centred unit draw. *)
Definition normal (loc scale : Q) : ST RandomSource Q :=
  fun rs =>
    let (u, rs') := random_sample rs in
    Ok (loc + scale * (2 * u - 1), rs').

(** [cond_prob(i, x)] of the Gibbs notebook:
    [np.random.normal(loc=0.99*x[i], scale=np.sqrt(1-0.99**2))]. *)
Definition cond_prob (i : nat) : GibbsSampling.transition :=
  fun xs =>
    match xs !! i with
    | Some (Num q) =>
        let* z := normal ((99 # 100) * q) (141 # 1000) in
        ret (Num z)
    | Some (Arr _) => raise (UserError 0)
    | None => raise IndexError
    end.

(** A transition that returns an array of one element whatever the state
    holds, as [lm_Gibbs_tau] does with [size=1]. *)
Definition tau_like : GibbsSampling.transition :=
  fun _ => let* z := normal 1 (1 # 2) in ret (Arr [z]).

(** The sampler of the first demonstration of the notebook,
    [SliceSampling(log_p, x=-3.0, w=1.5)], on the Gaussian log-density. *)
Definition demo_slice : SliceSampling.t :=
  SliceSampling.init parabola (-3) (3 # 2).

Definition demo_source : RandomSource :=
  source_of [1 # 2; 1 # 4; 3 # 4; 1 # 2; 1 # 3] (1 # 2).

(** The same draws as [demo_source], read from position 5 of a longer
    sequence. *)
Definition demo_source_shifted : RandomSource :=
  {| draws := fun i => nth (i - 5) [1 # 2; 1 # 4; 3 # 4; 1 # 2; 1 # 3] (1 # 2);
     pos := 5 |}.

(** The two-dimensional demonstration,
    [MultiSampling(lambda log_p, x: SliceSampling(log_p, x, w=1.0), log_p,
    x=[1.5, 0], directions=[[1,0],[0,1]])]. *)
Definition demo_multi : MultiSampling.t :=
  MultiSampling.init (slice_factory 1) gauss [3 # 2; 0] [[1; 0]; [0; 1]].

(** The same sampler with one direction of three entries, and with one
    direction of a single entry. *)
Definition multi_long_direction : MultiSampling.t :=
  MultiSampling.init (slice_factory 1) gauss [3 # 2; 0] [[1; 0; 0]].
Definition multi_short_direction : MultiSampling.t :=
  MultiSampling.init (slice_factory 1) gauss [3 # 2; 0] [[1]].

(** The Gibbs demonstration,
    [GibbsSampling([lambda x: cond_prob(1,x), lambda x: cond_prob(0,x)],
    [1.5, 0])], with the list [[1.5, 0]] at location [0]. *)
Definition demo_gibbs : GibbsSampling.t :=
  GibbsSampling.init [cond_prob 1; cond_prob 0] 0%nat.
Definition demo_heap : list (list value) := [[Num (3 # 2); Num 0]].

(** A Gibbs sampler whose second transition returns an array where the
    state holds a float, as the regression example of the notebook does
    for the precision. *)
Definition gibbs_tau : GibbsSampling.t :=
  GibbsSampling.init [tau_like; tau_like] 0%nat.

(** Three transitions for a state of two items. *)
Definition gibbs_too_many : GibbsSampling.t :=
  GibbsSampling.init [tau_like; tau_like; tau_like] 0%nat.

(** A one-dimensional sampler that ignores the density: a random-walk step
    from its position. *)
Record RandomWalk : Type := { rw_x : Q }.

#[export] Instance RandomWalk_Sampling : Sampling RandomWalk Q :=
  {| sample := fun _ s rs =>
       let (u, rs') := random_sample rs in
       Ok (rw_x s + (2 * u - 1), ({| rw_x := rw_x s + (2 * u - 1) |}, rs')) |}.


(** The point mass at [0] sampled from [0] with width [1], and a source
    whose third draw makes the first proposal exactly [0]. *)
Definition point_sampler : SliceSampling.t :=
  SliceSampling.init (point_mass 0 0) 0 1.
Definition point_hit_source : RandomSource :=
  source_of [1 # 2; 1 # 4; 1 # 4] (1 # 2).

(** The point mass at [0] sampled from [1], off its support, with width
    [1/2]. *)
Definition off_point_sampler : SliceSampling.t :=
  SliceSampling.init (point_mass 0 0) 1 (1 # 2).

(** A point mass at [0] whose log-density there is [710], sampled from
    [0]. *)
Definition steep_point_sampler : SliceSampling.t :=
  SliceSampling.init (point_mass 0 710) 0 1.

(** A source whose draws after the first two are all [0]. *)
Definition zero_tail_source : RandomSource := source_of [1 # 2; 1 # 2] 0.

(** The Gaussian sampled from [0] with width [1]. *)
Definition unit_slice : SliceSampling.t := SliceSampling.init parabola 0 1.

(** The two islands sampled from [0] with width [1]. *)
Definition island_sampler : SliceSampling.t := SliceSampling.init islands 0 1.

(** The two islands sampled from [5], where the density is zero, with
    width [1]. *)
Definition gap_sampler : SliceSampling.t := SliceSampling.init islands 5 1.

(** The flat density sampled from [0] with width [1]. *)
Definition flat_sampler : SliceSampling.t := SliceSampling.init flat 0 1.

(** ** The diagnostic line of the slice sampler *)

(** ["%d" % n] for a counter. *)
Definition fmt_d (n : nat) : string :=
  NilEmpty.string_of_uint (Nat.to_uint n).

Module SliceSamplingStr.

(** [__str__]:
    ["Slice sampling: %d evaluations for %d samples" % (self.evals,
    self.samples)]. *)
Definition __str__ (s : SliceSampling.t) : string :=
  "Slice sampling: " +:+ fmt_d (SliceSampling.evals s)
    +:+ " evaluations for " +:+ fmt_d (SliceSampling.samples s)
    +:+ " samples".

End SliceSamplingStr.

(** ** The path of the widgets notebook

    The cell
    [path = os.getcwd(); s = '/'; pardir = s.join(path.split(s)[:-1])]
    and the path it builds for [load_notebook].  Strings are sequences of
    one-byte characters here. *)

Module Paths.

(** [s.split(sep)] for a separator of one character, as [s = '/'] is. *)
Fixpoint str_split (sep : ascii) (s : string) : list string :=
  match s with
  | EmptyString => [EmptyString]
  | String c r =>
      if Ascii.eqb c sep then EmptyString :: str_split sep r
      else
        match str_split sep r with
        | [] => [String c EmptyString]
        | p :: ps => String c p :: ps
        end
  end.

(** [sep.join(l)]. *)
Fixpoint str_join (sep : string) (l : list string) : string :=
  match l with
  | [] => EmptyString
  | [p] => p
  | p :: ps => p +:+ sep +:+ str_join sep ps
  end.

(** The character [c] occurs in [s]. *)
Fixpoint occurs (c : ascii) (s : string) : bool :=
  match s with
  | EmptyString => false
  | String c' r => Ascii.eqb c' c || occurs c r
  end.

(** [pardir = s.join(path.split(s)[:-1])] with [s = '/']. *)
Definition pardir (path : string) : string :=
  str_join "/" (removelast (str_split "/" path)).

(** [str(pardir + '/widgets/2D_sampling_widget.ipynb')]. *)
Definition widget_notebook (path : string) : string :=
  pardir path +:+ "/widgets/2D_sampling_widget.ipynb".

End Paths.

(** ** MultiSampling over SliceSampling *)

(** The factory builds a slice sampler on the density it is given, as
    [lambda log_p, x: SliceSampling(log_p, x, w=1.0)] does. *)
Definition slice_made (s : MultiSampling.t (U := SliceSampling.t)) : Prop :=
  forall lp x0,
    SliceSampling.log_p (MultiSampling.uni_sampler s lp x0) = lp.

(** ** More demonstration data *)

(** The Gaussian log-density, except that it raises at [q]. *)
Definition raising_at (q : Q) : Q -> result logval :=
  fun a => if Qeq_bool a q then Raise (UserError 1) else parabola a.

(** The Gaussian sampled from [0] with a width of zero. *)
Definition zero_width_slice : SliceSampling.t :=
  SliceSampling.init parabola 0 0.

(** A state of three coordinates sampled along the first two axes. *)
Definition multi_plane : MultiSampling.t :=
  MultiSampling.init (slice_factory 1) gauss [3 # 2; 0; 7]
    [[1; 0; 0]; [0; 1; 0]].

(** A Gibbs sampler with a transition for the first item only. *)
Definition gibbs_first_only : GibbsSampling.t :=
  GibbsSampling.init [cond_prob 1] 0%nat.

(** A two-dimensional log-density equal to [710] everywhere, sampled along
    the axes with the slice sampler. *)
Definition steep : list Q -> result logval := fun _ => Ok (Fin 710).
Definition multi_steep : MultiSampling.t :=
  MultiSampling.init (slice_factory 1) steep [0; 0] [[1; 0]; [0; 1]].
(** * Facts *)

(** ** Comparisons *)

Lemma Qgtb_true (a b : Q) : Qgtb a b = true <-> b < a.
Proof.
  unfold Qgtb. rewrite negb_true_iff, <- not_true_iff_false, Qle_bool_iff.
  split; [apply Qnot_le_lt | apply Qlt_not_le].
Qed.

Lemma Qgtb_false (a b : Q) : Qgtb a b = false <-> a <= b.
Proof. unfold Qgtb. rewrite negb_false_iff. apply Qle_bool_iff. Qed.

Lemma lv_gtb_false (a b : logval) : lv_gtb a b = false <-> lv_le a b.
Proof.
  destruct a as [|p], b as [|q]; simpl; try apply Qgtb_false;
    split; try discriminate; tauto.
Qed.

Lemma lv_gtb_NegInf_l (b : logval) : lv_gtb NegInf b = false.
Proof. reflexivity. Qed.

(** ** The monad *)

Lemma bind_Ok {W A B} (m : ST W A) (k : A -> ST W B) (w : W) (r : B * W) :
  bind m k w = Ok r -> exists a w', m w = Ok (a, w') /\ k a w' = Ok r.
Proof.
  unfold bind. destruct (m w) as [[a w']| |]; try discriminate. eauto.
Qed.

Lemma lift_Ok {W A} (r : result A) (w : W) (a : A) (w' : W) :
  lift r w = Ok (a, w') -> r = Ok a /\ w' = w.
Proof. destruct r; simpl; try discriminate. now intros [= -> ->]. Qed.

(** ** Computations that depend on the source only through its draws *)

Lemma respects_ret {A S} (a : A) : respects (S := S) (ret a).
Proof. intros s r1 r2 Hr. simpl. auto. Qed.

Lemma respects_timeout {A S} : respects (A := A) (S := S) timeout.
Proof. intros s r1 r2 Hr. exact I. Qed.

Lemma respects_bind {A B S} (m : ST (S * RandomSource) A)
    (k : A -> ST (S * RandomSource) B) :
  respects m -> (forall a, respects (k a)) -> respects (bind m k).
Proof.
  intros Hm Hk s r1 r2 Hr. specialize (Hm s r1 r2 Hr).
  unfold bind, same_outcome in *.
  destruct (m (s, r1)) as [[a1 [s1 r1']]| |],
           (m (s, r2)) as [[a2 [s2 r2']]| |]; try contradiction; auto.
  destruct Hm as (-> & -> & Hr'). exact (Hk a2 s2 r1' r2' Hr').
Qed.

Lemma respects_gets {A S} (f : S -> A) :
  respects (gets (fun wd : S * RandomSource => f (fst wd))).
Proof. intros s r1 r2 Hr. simpl. auto. Qed.

Lemma respects_modify {S} (f : S -> S) :
  respects (modify (fun wd : S * RandomSource => (f (fst wd), snd wd))).
Proof. intros s r1 r2 Hr. simpl. auto. Qed.

Lemma respects_lift {A S} (r : result A) : respects (S := S) (lift r).
Proof. intros s r1 r2 Hr. destruct r; simpl; auto. Qed.

Lemma same_draws_advance (k : nat) (r1 r2 : RandomSource) :
  same_draws r1 r2 -> same_draws (advance k r1) (advance k r2).
Proof.
  intros Hr i. simpl.
  replace (k + pos r1 + i)%nat with (pos r1 + (k + i))%nat by lia.
  replace (k + pos r2 + i)%nat with (pos r2 + (k + i))%nat by lia.
  apply Hr.
Qed.

Lemma same_draws_head (r1 r2 : RandomSource) :
  same_draws r1 r2 -> draws r1 (pos r1) = draws r2 (pos r2).
Proof. intros Hr. specialize (Hr 0%nat). now rewrite !Nat.add_0_r in Hr. Qed.

(** ** SliceSampling: the loops *)

Module SliceFacts.
Import SliceSampling.

Lemma add_evals_incr (n : nat) (s : t) :
  add_evals n (incr_evals s) = add_evals (S n) s.
Proof. unfold add_evals, incr_evals; simpl. f_equal. lia. Qed.

Lemma add_evals_add (n m : nat) (s : t) :
  add_evals n (add_evals m s) = add_evals (n + m) s.
Proof. unfold add_evals; simpl. f_equal. lia. Qed.

Lemma _log_p_Ok (a : Q) (s : t) (rs : RandomSource) (v : logval)
    (wd : t * RandomSource) :
  _log_p a (s, rs) = Ok (v, wd) <->
  log_p s a = Ok v /\ wd = (incr_evals s, rs).
Proof.
  unfold _log_p, bind, update, modify, self, gets, lift; simpl.
  destruct (log_p s a); split; intros Hx; try discriminate;
    try (destruct Hx; discriminate).
  - now inversion Hx.
  - destruct Hx as [[= ->] ->]. reflexivity.
Qed.

Lemma _log_p_evals (a : Q) (s : t) (rs : RandomSource) (v : logval)
    (s' : t) (rs' : RandomSource) :
  _log_p a (s, rs) = Ok (v, (s', rs')) ->
  evals s' = S (evals s) /\ log_p s a = Ok v /\ rs' = rs /\
  x s' = x s /\ w s' = w s /\ samples s' = samples s /\ log_p s' = log_p s.
Proof. intros Hx. apply _log_p_Ok in Hx as [Hv [= -> ->]]. tauto. Qed.

Lemma left_of_Qeq (s : t) (a : Q) (n : nat) :
  left_of s a n == a - inject_Z (Z.of_nat n) * w s.
Proof.
  induction n as [|n IH].
  - simpl. ring.
  - unfold left_of in *. simpl Nat.iter. rewrite IH.
    rewrite Nat2Z.inj_succ. unfold Z.succ. rewrite inject_Z_plus. ring.
Qed.

Lemma right_of_Qeq (s : t) (a : Q) (n : nat) :
  right_of s a n == a + inject_Z (Z.of_nat n) * w s.
Proof.
  induction n as [|n IH].
  - simpl. ring.
  - unfold right_of in *. simpl Nat.iter. rewrite IH.
    rewrite Nat2Z.inj_succ. unfold Z.succ. rewrite inject_Z_plus. ring.
Qed.

Lemma step_out_left_spec (fuel : nat) (lu : logval) :
  forall (a : Q) (s : t) (rs : RandomSource) (a' : Q)
         (wd : t * RandomSource),
    step_out_left fuel lu a (s, rs) = Ok (a', wd) ->
    exists n : nat,
      (n < fuel)%nat /\
      a' = left_of s a n /\
      wd = (add_evals (S n) s, rs) /\
      (forall k, (k < n)%nat ->
         exists v, log_p s (left_of s a k) = Ok v /\ lv_gt v lu) /\
      exists v, log_p s a' = Ok v /\ lv_le v lu.
Proof.
  induction fuel as [|fuel IH]; intros a s rs a' wd Hrun;
    [discriminate|].
  simpl in Hrun. apply bind_Ok in Hrun as (v & wd1 & Hev & Hrun).
  apply _log_p_Ok in Hev as [Hv ->].
  destruct (lv_gtb v lu) eqn:Hcmp.
  - apply IH in Hrun as (n & Hn & -> & -> & Hgt & Hle).
    exists (S n). unfold left_of in *. rewrite Nat.iter_succ_r.
    split; [lia|]. split; [reflexivity|].
    split; [now rewrite add_evals_incr|]. split; [|exact Hle].
    intros [|k] Hk; [now exists v|].
  rewrite Nat.iter_succ_r. apply Hgt. lia.
  - inversion Hrun; subst. exists 0%nat.
    split; [lia|]. split; [reflexivity|]. split; [reflexivity|].
    split; [intros k Hk; lia|].
    exists v. split; [assumption | now apply lv_gtb_false].
Qed.

Lemma step_out_right_spec (fuel : nat) (lu : logval) :
  forall (a : Q) (s : t) (rs : RandomSource) (a' : Q)
         (wd : t * RandomSource),
    step_out_right fuel lu a (s, rs) = Ok (a', wd) ->
    exists n : nat,
      (n < fuel)%nat /\
      a' = right_of s a n /\
      wd = (add_evals (S n) s, rs) /\
      (forall k, (k < n)%nat ->
         exists v, log_p s (right_of s a k) = Ok v /\ lv_gt v lu) /\
      exists v, log_p s a' = Ok v /\ lv_le v lu.
Proof.
  induction fuel as [|fuel IH]; intros a s rs a' wd Hrun;
    [discriminate|].
  simpl in Hrun. apply bind_Ok in Hrun as (v & wd1 & Hev & Hrun).
  apply _log_p_Ok in Hev as [Hv ->].
  destruct (lv_gtb v lu) eqn:Hcmp.
  - apply IH in Hrun as (n & Hn & -> & -> & Hgt & Hle).
    exists (S n). unfold right_of in *. rewrite Nat.iter_succ_r.
    split; [lia|]. split; [reflexivity|].
    split; [now rewrite add_evals_incr|]. split; [|exact Hle].
    intros [|k] Hk; [now exists v|].
  rewrite Nat.iter_succ_r. apply Hgt. lia.
  - inversion Hrun; subst. exists 0%nat.
    split; [lia|]. split; [reflexivity|]. split; [reflexivity|].
    split; [intros k Hk; lia|].
    exists v. split; [assumption | now apply lv_gtb_false].
Qed.

Lemma advance_advance (j k : nat) (rs : RandomSource) :
  advance j (advance k rs) = advance (j + k) rs.
Proof. unfold advance; simpl. f_equal. lia. Qed.

Lemma unit_draws_advance (k : nat) (rs : RandomSource) :
  unit_draws rs -> unit_draws (advance k rs).
Proof. intros Hu i. apply Hu. Qed.

Lemma uniform_Ok (lo hi : Q) (s : t) (rs : RandomSource) :
  uniform lo (Val hi) (s, rs) =
  Ok (lo + (hi - lo) * draws rs (pos rs), (s, advance 1 rs)).
Proof. reflexivity. Qed.

(** The only failure of a draw: a range that is not finite. *)
Lemma uniform_Inf (lo : Q) (wd : t * RandomSource) :
  uniform lo Inf wd = Raise OverflowError.
Proof. reflexivity. Qed.

(** A uniform proposal lies in the bracket it is drawn from. *)
Lemma proposal_in_bracket (a b u : Q) :
  a <= b -> 0 <= u -> u < 1 ->
  a <= a + (b - a) * u /\ a + (b - a) * u <= b.
Proof. intros Hab Hu0 Hu1. split; nra. Qed.

(** The shrink step keeps the current sample inside the bracket and never
    widens the bracket. *)
Lemma adjust_interval_preserves (p cur a b a' b' : Q) :
  a <= cur <= b -> a <= p <= b ->
  adjust_interval p cur a b = (a', b') ->
  a' <= cur <= b' /\ a <= a' /\ b' <= b.
Proof.
  unfold adjust_interval. intros [Ha Hb] [Hpa Hpb].
  destruct (Qgtb p cur) eqn:Hcmp; intros [= <- <-].
  - apply Qgtb_true in Hcmp. repeat split; lra.
  - apply Qgtb_false in Hcmp. repeat split; lra.
Qed.

Lemma main_loop_spec (fuel : nat) (lu : logval) :
  forall (a b : Q) (s : t) (rs : RandomSource) (fr : frame)
         (wd : t * RandomSource),
    a <= x s <= b ->
    unit_draws rs ->
    main_loop fuel lu a b (s, rs) = Ok (fr, wd) ->
    exists n : nat,
      (n < fuel)%nat /\
      wd = (set_x (x_prime fr) (add_evals (S n) s), advance (S n) rs) /\
      log_u_prime fr = lu /\
      xl fr <= x s <= xr fr /\
      xl fr <= x_prime fr <= xr fr /\
      a <= xl fr /\ xr fr <= b /\
      exists v, log_p s (x_prime fr) = Ok v /\ lv_gt v lu.
Proof.
  induction fuel as [|fuel IH]; intros a b s rs fr wd Hinv Hu Hrun;
    [discriminate|].
  simpl in Hrun. apply bind_Ok in Hrun as (p & wd1 & Hp & Hrun).
  rewrite uniform_Ok in Hp. injection Hp as <- <-.
  apply bind_Ok in Hrun as (v & wd2 & Hev & Hrun).
  apply _log_p_Ok in Hev as [Hv ->].
  destruct (Hu (pos rs)) as [Hu0 Hu1].
  assert (Hab : a <= b) by lra.
  pose proof (proposal_in_bracket a b _ Hab Hu0 Hu1) as Hin.
  set (p := a + (b - a) * draws rs (pos rs)) in *.
  destruct (lv_gtb v lu) eqn:Hcmp.
  - inversion Hrun; subst fr wd; simpl. exists 0%nat.
    split; [lia|]. split; [reflexivity|]. split; [reflexivity|].
    split; [exact Hinv|]. split; [exact Hin|].
    split; [lra|]. split; [lra|]. now exists v.
  - apply bind_Ok in Hrun as (cur & wd3 & Hcur & Hrun).
    injection Hcur as <- <-. simpl in Hrun.
    destruct (adjust_interval p (x s) a b) as [a' b'] eqn:Hadj.
    pose proof (adjust_interval_preserves _ _ _ _ _ _ Hinv Hin Hadj)
      as (Hinv' & Ha' & Hb').
    apply IH in Hrun as (n & Hn & -> & Hlu & Hx & Hp' & Hl & Hr & Hacc);
      [| exact Hinv' | now apply unit_draws_advance].
    exists (S n). split; [lia|].
    split; [now rewrite add_evals_incr, advance_advance,
              Nat.add_1_r|].
    split; [exact Hlu|]. split; [exact Hx|]. split; [exact Hp'|].
    split; [lra|]. split; [lra|]. exact Hacc.
Qed.

(** Each turn of the main loop draws one proposal and evaluates it. *)
Lemma main_loop_count (fuel : nat) (lu : logval) :
  forall (a b : Q) (s : t) (rs : RandomSource) (fr : frame)
         (wd : t * RandomSource),
    main_loop fuel lu a b (s, rs) = Ok (fr, wd) ->
    exists n : nat,
      (n < fuel)%nat /\
      wd = (set_x (x_prime fr) (add_evals (S n) s), advance (S n) rs).
Proof.
  induction fuel as [|fuel IH]; intros a b s rs fr wd Hrun;
    [discriminate|].
  simpl in Hrun. apply bind_Ok in Hrun as (p & wd1 & Hp & Hrun).
  rewrite uniform_Ok in Hp. injection Hp as <- <-.
  apply bind_Ok in Hrun as (v & wd2 & Hev & Hrun).
  apply _log_p_Ok in Hev as [Hv ->].
  destruct (lv_gtb v lu).
  - inversion Hrun; subst. exists 0%nat. split; [lia | reflexivity].
  - apply bind_Ok in Hrun as (cur & wd3 & Hcur & Hrun).
    injection Hcur as <- <-.
    destruct (adjust_interval _ _ a b) as [a' b'].
    apply IH in Hrun as (n & Hn & ->). exists (S n).
    rewrite add_evals_incr, advance_advance.
    split; [lia | repeat f_equal; lia].
Qed.

Section WithNumPy.
Context `{np : NumPy}.

Lemma bracket_Ok (s : t) (rs : RandomSource) (lu : logval) (a b : Q)
    (wd : t * RandomSource) :
  bracket (s, rs) = Ok ((lu, a, b), wd) ->
  exists (v : logval) (h r : Q),
    log_p s (x s) = Ok v /\
    np_exp v = Val h /\
    lu = np_log (0 + (h - 0) * draws rs (pos rs)) /\
    r = 0 + (1 - 0) * draws rs (S (pos rs)) /\
    a = x s - r * w s /\
    b = x s + (1 - r) * w s /\
    wd = (add_evals 1 s, advance 2 rs).
Proof.
  unfold bracket. intros Hrun.
  apply bind_Ok in Hrun as (cur & wd1 & Hcur & Hrun).
  injection Hcur as <- <-.
  apply bind_Ok in Hrun as (v & wd2 & Hev & Hrun).
  simpl in Hev. apply _log_p_Ok in Hev as [Hv ->].
  destruct (np_exp v) as [h|] eqn:Hexp; [|discriminate].
  cbn in Hrun. injection Hrun as <- <- <- <-.
  exists v, h, (0 + (1 - 0) * draws rs (S (pos rs))).
  repeat split; assumption.
Qed.

(** The randomised construction puts the current sample in the
    bracket. *)
Lemma bracket_establishes (s : t) (rs : RandomSource) (lu : logval)
    (a b : Q) (wd : t * RandomSource) :
  0 < w s -> unit_draws rs ->
  bracket (s, rs) = Ok ((lu, a, b), wd) ->
  a <= x s <= b.
Proof.
  intros Hw Hu Hrun.
  apply bracket_Ok in Hrun as (v & h & r & _ & _ & _ & -> & -> & -> & _).
  destruct (Hu (S (pos rs))) as [Hu0 Hu1]. split; nra.
Qed.

Lemma step_out_Ok (fuel : nat) (lu : logval) (a b : Q) (s : t)
    (rs : RandomSource) (a' b' : Q) (wd : t * RandomSource) :
  step_out fuel lu a b (s, rs) = Ok ((a', b'), wd) ->
  exists nl nr : nat,
    a' = left_of s a nl /\ b' = right_of s b nr /\
    wd = (add_evals (S nl + S nr) s, rs) /\
    (forall k, (k < nl)%nat ->
       exists v, log_p s (left_of s a k) = Ok v /\ lv_gt v lu) /\
    (forall k, (k < nr)%nat ->
       exists v, log_p s (right_of s b k) = Ok v /\ lv_gt v lu) /\
    (exists v, log_p s a' = Ok v /\ lv_le v lu) /\
    (exists v, log_p s b' = Ok v /\ lv_le v lu).
Proof.
  unfold step_out. intros Hrun.
  apply bind_Ok in Hrun as (a1 & wd1 & Hl & Hrun).
  apply step_out_left_spec in Hl as (nl & _ & -> & -> & Hgl & Hll).
  apply bind_Ok in Hrun as (b1 & wd2 & Hr & Hrun).
  apply step_out_right_spec in Hr as (nr & _ & -> & -> & Hgr & Hlr).
  injection Hrun as <- <- <-.
  exists nl, nr. rewrite add_evals_add.
  replace (S nr + S nl)%nat with (S nl + S nr)%nat by lia.
  repeat split; assumption.
Qed.

(** Stepping out only widens the bracket. *)
Lemma step_out_widens (s : t) (a b : Q) (nl nr : nat) :
  0 <= w s -> left_of s a nl <= a /\ b <= right_of s b nr.
Proof.
  intros Hw. rewrite left_of_Qeq, right_of_Qeq.
  assert (0 <= inject_Z (Z.of_nat nl)) as Hl
    by (change 0 with (inject_Z 0); rewrite <- Zle_Qle; lia).
  assert (0 <= inject_Z (Z.of_nat nr)) as Hr
    by (change 0 with (inject_Z 0); rewrite <- Zle_Qle; lia).
  split; nra.
Qed.

(** One successful call, phase by phase. *)
Lemma sample_frame_Ok (fuel : nat) (s : t) (rs : RandomSource)
    (fr : frame) (wd : t * RandomSource) :
  sample_frame fuel (s, rs) = Ok (fr, wd) ->
  exists (lu : logval) (a0 b0 : Q) (nl nr : nat),
    let s0 := incr_samples s in
    let s1 := add_evals 1 s0 in
    let s2 := add_evals (S nl + S nr) s1 in
    bracket (s0, rs) = Ok ((lu, a0, b0), (s1, advance 2 rs)) /\
    step_out fuel lu a0 b0 (s1, advance 2 rs) =
      Ok ((left_of s a0 nl, right_of s b0 nr), (s2, advance 2 rs)) /\
    main_loop fuel lu (left_of s a0 nl) (right_of s b0 nr)
      (s2, advance 2 rs) = Ok (fr, wd) /\
    (forall k, (k < nl)%nat ->
       exists v, log_p s (left_of s a0 k) = Ok v /\ lv_gt v lu) /\
    (forall k, (k < nr)%nat ->
       exists v, log_p s (right_of s b0 k) = Ok v /\ lv_gt v lu) /\
    (exists v, log_p s (left_of s a0 nl) = Ok v /\ lv_le v lu) /\
    (exists v, log_p s (right_of s b0 nr) = Ok v /\ lv_le v lu).
Proof.
  unfold sample_frame. intros Hrun.
  apply bind_Ok in Hrun as ([] & wd0 & Hs & Hrun).
  injection Hs as <-.
  apply bind_Ok in Hrun as ([[lu a0] b0] & wd1 & Hb & Hrun).
  pose proof Hb as Hb'.
  apply bracket_Ok in Hb' as (v & h & r & _ & _ & _ & _ & _ & _ & ->).
  apply bind_Ok in Hrun as ([a1 b1] & wd2 & Hso & Hrun).
  pose proof Hso as Hso'.
  apply step_out_Ok in Hso'
    as (nl & nr & -> & -> & -> & Hgl & Hgr & Hll & Hlr).
  exists lu, a0, b0, nl, nr. simpl. auto 10.
Qed.

(** ** C1 *)

(** C1. In [SliceSampling.sample], when a proposal is accepted the
    bracket contains both the current sample and the accepted one,
    [xl <= x <= xr], and the accepted one is above the slice level,
    [log_p(x') > log_u]; the accepted value becomes the state.  The
    invariant holds for the bracket built from the random offset, and
    every shrink step ([xr = x'] if [x' > x], else [xl = x']) keeps it.
    The step width is positive and the unit draws lie in [0, 1). *)
Theorem bracket_invariant_at_acceptance (fuel : nat) (s : t)
    (rs : RandomSource) (fr : frame) (s' : t) (rs' : RandomSource) :
  0 < w s ->
  unit_draws rs ->
  sample_frame fuel (s, rs) = Ok (fr, (s', rs')) ->
  (xl fr <= x s <= xr fr) /\
  (xl fr <= x_prime fr <= xr fr) /\
  (exists v, log_p s (x_prime fr) = Ok v /\ lv_gt v (log_u_prime fr)) /\
  x s' = x_prime fr /\
  (exists (lu : logval) (a0 b0 : Q) (wd0 : t * RandomSource),
     bracket (incr_samples s, rs) = Ok ((lu, a0, b0), wd0) /\
     a0 <= x s <= b0) /\
  (forall p a b : Q,
     a <= x s <= b -> a <= p <= b ->
     fst (adjust_interval p (x s) a b) <= x s
       <= snd (adjust_interval p (x s) a b)).
Proof.
  intros Hw Hu Hrun.
  apply sample_frame_Ok in Hrun
    as (lu & a0 & b0 & nl & nr & Hb & Hso & Hloop & _); simpl in *.
  pose proof (bracket_establishes (incr_samples s) _ _ _ _ _ Hw Hu Hb)
    as Hinv0.
  simpl in Hinv0.
  assert (Hinv1 : left_of s a0 nl <= x s <= right_of s b0 nr).
  { destruct (step_out_widens s a0 b0 nl nr) as [Hl Hr]; lra. }
  apply main_loop_spec in Hloop
    as (n & _ & [= -> ->] & Hlu & Hx & Hp & _ & _ & v & Hv & Hgt);
    [| exact Hinv1 | now apply unit_draws_advance].
  simpl in *. rewrite Hlu.
  split; [exact Hx|]. split; [exact Hp|]. split; [now exists v|].
  split; [reflexivity|]. split.
  - exists lu, a0, b0. eexists. split; [exact Hb | exact Hinv0].
  - intros p a b Hab Hpab.
    destruct (adjust_interval p (x s) a b) as [a' b'] eqn:Hadj.
    now destruct (adjust_interval_preserves _ _ _ _ _ _ Hab Hpab Hadj).
Qed.


(** ** C3 *)

(** C3. In a call of [SliceSampling.sample] that returns, the step-out
    phase ends with both endpoints at or below the slice level,
    [log_p(xl) <= log_u] and [log_p(xr) <= log_u]; [_log_p] adds exactly
    one to [evals]; and [evals] grows by the number of evaluations made:
    one for the current sample, one per point tested while stepping out
    to the left ([nl + 1]) and to the right ([nr + 1]), and one per
    proposal drawn in the main loop. *)
Theorem step_out_below_level_and_evals (fuel : nat) (s : t)
    (rs : RandomSource) (fr : frame) (s' : t) (rs' : RandomSource) :
  sample_frame fuel (s, rs) = Ok (fr, (s', rs')) ->
  exists (lu : logval) (a0 b0 : Q) (nl nr proposals : nat)
         (s1 s2 : t),
    let a1 := left_of s a0 nl in
    let b1 := right_of s b0 nr in
    bracket (incr_samples s, rs) = Ok ((lu, a0, b0), (s1, advance 2 rs))
    /\ step_out fuel lu a0 b0 (s1, advance 2 rs) =
         Ok ((a1, b1), (s2, advance 2 rs))
    /\ main_loop fuel lu a1 b1 (s2, advance 2 rs) = Ok (fr, (s', rs'))
    /\ (exists v, log_p s a1 = Ok v /\ lv_le v lu)
    /\ (exists v, log_p s b1 = Ok v /\ lv_le v lu)
    /\ (forall k, (k < nl)%nat ->
          exists v, log_p s (left_of s a0 k) = Ok v /\ lv_gt v lu)
    /\ (forall k, (k < nr)%nat ->
          exists v, log_p s (right_of s b0 k) = Ok v /\ lv_gt v lu)
    /\ evals s1 = (evals s + 1)%nat
    /\ evals s2 = (evals s1 + (nl + 1) + (nr + 1))%nat
    /\ evals s' = (evals s2 + proposals)%nat
    /\ pos rs' = (pos rs + 2 + proposals)%nat
    /\ (forall (a : Q) (s3 s4 : t) (r3 r4 : RandomSource) (v : logval),
          _log_p a (s3, r3) = Ok (v, (s4, r4)) ->
          evals s4 = S (evals s3) /\ log_p s3 a = Ok v).
Proof.
  intros Hrun.
  apply sample_frame_Ok in Hrun
    as (lu & a0 & b0 & nl & nr & Hb & Hso & Hloop & Hgl & Hgr & Hll & Hlr);
    cbv zeta in *.
  pose proof Hloop as Hcount.
  apply main_loop_count in Hcount as (n & _ & [= -> ->]).
  exists lu, a0, b0, nl, nr, (S n).
  exists (add_evals 1 (incr_samples s)).
  exists (add_evals (S nl + S nr) (add_evals 1 (incr_samples s))).
  cbv zeta.
  split; [exact Hb|]. split; [exact Hso|]. split; [exact Hloop|].
  split; [exact Hll|]. split; [exact Hlr|].
  split; [exact Hgl|]. split; [exact Hgr|].
  simpl. split; [lia|]. split; [lia|]. split; [lia|]. split; [lia|].
  intros a s3 s4 r3 r4 v Hev.
  apply _log_p_evals in Hev. tauto.
Qed.


End WithNumPy.

(** ** When the step-out loops return *)

Lemma step_out_left_bounded (m : nat) (lu : logval) (B : Q) :
  forall (a : Q) (s : t) (rs : RandomSource),
    total_density s -> slice_bounded s lu B ->
    left_of s a m < - B ->
    exists (a' : Q) (wd : t * RandomSource),
      step_out_left (S m) lu a (s, rs) = Ok (a', wd).
Proof.
  induction m as [|m IH]; intros a s rs Htot Hbd Hm.
  - destruct (Htot a) as [v Hv].
    assert (Hev : _log_p a (s, rs) = Ok (v, (incr_evals s, rs)))
      by now apply _log_p_Ok.
    simpl. unfold bind at 1. rewrite Hev.
    destruct (lv_gtb v lu) eqn:Hcmp; [|eauto].
    destruct (Hbd a v Hv Hcmp) as [Hlo _]. simpl in Hm. lra.
  - destruct (Htot a) as [v Hv].
    assert (Hev : _log_p a (s, rs) = Ok (v, (incr_evals s, rs)))
      by now apply _log_p_Ok.
    cbn [step_out_left]. unfold bind at 1. rewrite Hev.
    destruct (lv_gtb v lu) eqn:Hcmp; [|eauto].
    unfold bind at 1; simpl self.
    apply (IH (a - w s) (incr_evals s) rs Htot Hbd).
    unfold left_of in *. rewrite Nat.iter_succ_r in Hm. exact Hm.
Qed.

Lemma step_out_right_bounded (m : nat) (lu : logval) (B : Q) :
  forall (a : Q) (s : t) (rs : RandomSource),
    total_density s -> slice_bounded s lu B ->
    B < right_of s a m ->
    exists (a' : Q) (wd : t * RandomSource),
      step_out_right (S m) lu a (s, rs) = Ok (a', wd).
Proof.
  induction m as [|m IH]; intros a s rs Htot Hbd Hm.
  - destruct (Htot a) as [v Hv].
    assert (Hev : _log_p a (s, rs) = Ok (v, (incr_evals s, rs)))
      by now apply _log_p_Ok.
    simpl. unfold bind at 1. rewrite Hev.
    destruct (lv_gtb v lu) eqn:Hcmp; [|eauto].
    destruct (Hbd a v Hv Hcmp) as [_ Hhi]. simpl in Hm. lra.
  - destruct (Htot a) as [v Hv].
    assert (Hev : _log_p a (s, rs) = Ok (v, (incr_evals s, rs)))
      by now apply _log_p_Ok.
    cbn [step_out_right]. unfold bind at 1. rewrite Hev.
    destruct (lv_gtb v lu) eqn:Hcmp; [|eauto].
    unfold bind at 1; simpl self.
    apply (IH (a + w s) (incr_evals s) rs Htot Hbd).
    unfold right_of in *. rewrite Nat.iter_succ_r in Hm. exact Hm.
Qed.

(** More fuel does not change a result. *)
Lemma step_out_left_mono (fuel : nat) (lu : logval) :
  forall (fuel' : nat) (a : Q) (wd : t * RandomSource) r,
    (fuel <= fuel')%nat ->
    step_out_left fuel lu a wd = Ok r ->
    step_out_left fuel' lu a wd = Ok r.
Proof.
  induction fuel as [|fuel IH]; intros fuel' a wd r Hle Hrun;
    [discriminate|].
  destruct fuel' as [|fuel']; [lia|].
  simpl in *. unfold bind at 1 in Hrun. unfold bind at 1.
  destruct (_log_p a wd) as [[v wd1]| |]; try discriminate.
  destruct (lv_gtb v lu); [|exact Hrun].
  unfold bind at 1 in Hrun. unfold bind at 1.
  destruct (self w wd1) as [[wv wd2]| |]; try discriminate.
  apply IH; [lia | exact Hrun].
Qed.

Lemma step_out_right_mono (fuel : nat) (lu : logval) :
  forall (fuel' : nat) (a : Q) (wd : t * RandomSource) r,
    (fuel <= fuel')%nat ->
    step_out_right fuel lu a wd = Ok r ->
    step_out_right fuel' lu a wd = Ok r.
Proof.
  induction fuel as [|fuel IH]; intros fuel' a wd r Hle Hrun;
    [discriminate|].
  destruct fuel' as [|fuel']; [lia|].
  simpl in *. unfold bind at 1 in Hrun. unfold bind at 1.
  destruct (_log_p a wd) as [[v wd1]| |]; try discriminate.
  destruct (lv_gtb v lu); [|exact Hrun].
  unfold bind at 1 in Hrun. unfold bind at 1.
  destruct (self w wd1) as [[wv wd2]| |]; try discriminate.
  apply IH; [lia | exact Hrun].
Qed.

(** A loop whose every test succeeds exhausts any budget. *)
Lemma step_out_left_diverges (fuel : nat) (lu : logval) :
  forall (a : Q) (s : t) (rs : RandomSource),
    (forall k, exists v, log_p s (left_of s a k) = Ok v /\ lv_gt v lu) ->
    step_out_left fuel lu a (s, rs) = OutOfFuel.
Proof.
  induction fuel as [|fuel IH]; intros a s rs Habove; [reflexivity|].
  destruct (Habove 0%nat) as (v & Hv & Hgt). simpl in Hv.
  assert (Hev : _log_p a (s, rs) = Ok (v, (incr_evals s, rs)))
    by now apply _log_p_Ok.
  cbn [step_out_left]. unfold bind at 1. rewrite Hev, Hgt.
  unfold bind at 1; simpl self.
  apply (IH (a - w s) (incr_evals s) rs).
  intros k. specialize (Habove (S k)).
  unfold left_of in *. now rewrite Nat.iter_succ_r in Habove.
Qed.

Lemma step_out_right_diverges (fuel : nat) (lu : logval) :
  forall (a : Q) (s : t) (rs : RandomSource),
    (forall k, exists v, log_p s (right_of s a k) = Ok v /\ lv_gt v lu) ->
    step_out_right fuel lu a (s, rs) = OutOfFuel.
Proof.
  induction fuel as [|fuel IH]; intros a s rs Habove; [reflexivity|].
  destruct (Habove 0%nat) as (v & Hv & Hgt). simpl in Hv.
  assert (Hev : _log_p a (s, rs) = Ok (v, (incr_evals s, rs)))
    by now apply _log_p_Ok.
  cbn [step_out_right]. unfold bind at 1. rewrite Hev, Hgt.
  unfold bind at 1; simpl self.
  apply (IH (a + w s) (incr_evals s) rs).
  intros k. specialize (Habove (S k)).
  unfold right_of in *. now rewrite Nat.iter_succ_r in Habove.
Qed.

(** A rejected proposal: the loop goes on with the adjusted bracket. *)
Lemma main_loop_reject (n : nat) (lu : logval) (a b : Q) (s : t)
    (rs : RandomSource) (v : logval) :
  let p := a + (b - a) * draws rs (pos rs) in
  log_p s p = Ok v -> lv_le v lu ->
  main_loop (S n) lu a b (s, rs) =
  main_loop n lu (fst (adjust_interval p (x s) a b))
    (snd (adjust_interval p (x s) a b)) (incr_evals s, advance 1 rs).
Proof.
  intros p Hv Hle. apply lv_gtb_false in Hle.
  assert (Hev : _log_p p (s, advance 1 rs)
                = Ok (v, (incr_evals s, advance 1 rs)))
    by now apply _log_p_Ok.
  cbn [main_loop]. unfold bind at 1. rewrite uniform_Ok. fold p.
  unfold bind at 1. rewrite Hev, Hle.
  unfold bind at 1.
  change (self x (incr_evals s, advance 1 rs))
    with (Ok (x s, (incr_evals s, advance 1 rs))
          : result (Q * (t * RandomSource))).
  cbv beta iota.
  now destruct (adjust_interval p (x s) a b).
Qed.

(** The step-out phase returns once the points stepped to have left the
    region above the slice level. *)
Lemma step_out_leaves_region (lu : logval) (a b B : Q) (s : t)
    (rs : RandomSource) (ml mr : nat) :
  total_density s -> slice_bounded s lu B ->
  left_of s a ml < - B -> B < right_of s b mr ->
  exists r,
    forall fuel, (S ml + S mr <= fuel)%nat ->
      step_out fuel lu a b (s, rs) = Ok r.
Proof.
  intros Htot Hbd Hl Hr.
  destruct (step_out_left_bounded ml lu B a s rs Htot Hbd Hl)
    as (a' & wd1 & Hrl).
  pose proof Hrl as Hrl'.
  apply step_out_left_spec in Hrl' as (nl & _ & _ & -> & _).
  destruct (step_out_right_bounded mr lu B b (add_evals (S nl) s) rs
              Htot Hbd Hr) as (b' & wd2 & Hrr).
  exists ((a', b'), wd2). intros fuel Hfuel.
  unfold step_out, bind.
  assert (Hfl : (S ml <= fuel)%nat) by lia.
  assert (Hfr : (S mr <= fuel)%nat) by lia.
  rewrite (step_out_left_mono _ _ fuel _ _ _ Hfl Hrl).
  rewrite (step_out_right_mono _ _ fuel _ _ _ Hfr Hrr).
  reflexivity.
Qed.

(** A step-out loop returns at the first point it tests that is at or
    below the slice level. *)
Lemma step_out_left_returns_at (k : nat) (lu : logval) :
  forall (a : Q) (s : t) (rs : RandomSource) (v : logval),
    (forall j, (j < k)%nat ->
       exists vj, log_p s (left_of s a j) = Ok vj /\ lv_gt vj lu) ->
    log_p s (left_of s a k) = Ok v -> lv_le v lu ->
    forall fuel, (k < fuel)%nat ->
      step_out_left fuel lu a (s, rs)
      = Ok (left_of s a k, (add_evals (S k) s, rs)).
Proof.
  induction k as [|k IH]; intros a s rs v Habove Hv Hle [|fuel] Hfuel;
    try lia.
  - simpl in Hv. apply lv_gtb_false in Hle.
    assert (Hev : _log_p a (s, rs) = Ok (v, (incr_evals s, rs)))
      by now apply _log_p_Ok.
    cbn [step_out_left]. unfold bind at 1. rewrite Hev, Hle. reflexivity.
  - destruct (Habove 0%nat ltac:(lia)) as (v0 & Hv0 & Hgt). simpl in Hv0.
    assert (Hev : _log_p a (s, rs) = Ok (v0, (incr_evals s, rs)))
      by now apply _log_p_Ok.
    cbn [step_out_left]. unfold bind at 1. rewrite Hev, Hgt.
    unfold bind at 1; simpl self.
    assert (Hiter : left_of s a (S k) = left_of (incr_evals s) (a - w s) k)
      by (unfold left_of; now rewrite Nat.iter_succ_r).
    rewrite Hiter, <- add_evals_incr.
    apply (IH (a - w s) (incr_evals s) rs v); [| | exact Hle | lia].
    + intros j Hj. destruct (Habove (S j) ltac:(lia)) as (vj & Hvj & Hgj).
      exists vj. split; [|exact Hgj].
      unfold left_of in *. now rewrite Nat.iter_succ_r in Hvj.
    + now rewrite <- Hiter.
Qed.

Lemma step_out_right_returns_at (k : nat) (lu : logval) :
  forall (a : Q) (s : t) (rs : RandomSource) (v : logval),
    (forall j, (j < k)%nat ->
       exists vj, log_p s (right_of s a j) = Ok vj /\ lv_gt vj lu) ->
    log_p s (right_of s a k) = Ok v -> lv_le v lu ->
    forall fuel, (k < fuel)%nat ->
      step_out_right fuel lu a (s, rs)
      = Ok (right_of s a k, (add_evals (S k) s, rs)).
Proof.
  induction k as [|k IH]; intros a s rs v Habove Hv Hle [|fuel] Hfuel;
    try lia.
  - simpl in Hv. apply lv_gtb_false in Hle.
    assert (Hev : _log_p a (s, rs) = Ok (v, (incr_evals s, rs)))
      by now apply _log_p_Ok.
    cbn [step_out_right]. unfold bind at 1. rewrite Hev, Hle. reflexivity.
  - destruct (Habove 0%nat ltac:(lia)) as (v0 & Hv0 & Hgt). simpl in Hv0.
    assert (Hev : _log_p a (s, rs) = Ok (v0, (incr_evals s, rs)))
      by now apply _log_p_Ok.
    cbn [step_out_right]. unfold bind at 1. rewrite Hev, Hgt.
    unfold bind at 1; simpl self.
    assert (Hiter : right_of s a (S k)
                    = right_of (incr_evals s) (a + w s) k)
      by (unfold right_of; now rewrite Nat.iter_succ_r).
    rewrite Hiter, <- add_evals_incr.
    apply (IH (a + w s) (incr_evals s) rs v); [| | exact Hle | lia].
    + intros j Hj. destruct (Habove (S j) ltac:(lia)) as (vj & Hvj & Hgj).
      exists vj. split; [|exact Hgj].
      unfold right_of in *. now rewrite Nat.iter_succ_r in Hvj.
    + now rewrite <- Hiter.
Qed.

(** ** Errors, and the point mass *)

Lemma _log_p_total (a : Q) (s : t) (rs : RandomSource) :
  total_density s ->
  exists v, log_p s a = Ok v /\
            _log_p a (s, rs) = Ok (v, (incr_evals s, rs)).
Proof.
  intros Htot. destruct (Htot a) as [v Hv]. exists v.
  split; [exact Hv | now apply _log_p_Ok].
Qed.

Lemma step_out_left_no_raise (fuel : nat) (lu : logval) (e : exn) :
  forall (a : Q) (s : t) (rs : RandomSource),
    total_density s -> step_out_left fuel lu a (s, rs) <> Raise e.
Proof.
  induction fuel as [|fuel IH]; intros a s rs Htot; [discriminate|].
  destruct (_log_p_total a s rs Htot) as (v & _ & Hev).
  cbn [step_out_left]. unfold bind at 1. rewrite Hev.
  destruct (lv_gtb v lu); [|discriminate].
  unfold bind at 1; simpl self. now apply (IH _ (incr_evals s)).
Qed.

Lemma step_out_right_no_raise (fuel : nat) (lu : logval) (e : exn) :
  forall (a : Q) (s : t) (rs : RandomSource),
    total_density s -> step_out_right fuel lu a (s, rs) <> Raise e.
Proof.
  induction fuel as [|fuel IH]; intros a s rs Htot; [discriminate|].
  destruct (_log_p_total a s rs Htot) as (v & _ & Hev).
  cbn [step_out_right]. unfold bind at 1. rewrite Hev.
  destruct (lv_gtb v lu); [|discriminate].
  unfold bind at 1; simpl self. now apply (IH _ (incr_evals s)).
Qed.

(** One turn of the main loop, with the density value named. *)
Lemma main_loop_step (n : nat) (lu : logval) (a b : Q) (s : t)
    (rs : RandomSource) (v : logval) :
  let p := a + (b - a) * draws rs (pos rs) in
  log_p s p = Ok v ->
  main_loop (S n) lu a b (s, rs) =
  if lv_gtb v lu then
    Ok ({| log_u_prime := lu; xl := a; xr := b; x_prime := p |},
        (set_x p (incr_evals s), advance 1 rs))
  else
    main_loop n lu (fst (adjust_interval p (x s) a b))
      (snd (adjust_interval p (x s) a b)) (incr_evals s, advance 1 rs).
Proof.
  intros p Hv.
  destruct (lv_gtb v lu) eqn:Hcmp.
  - assert (Hev : _log_p p (s, advance 1 rs)
                  = Ok (v, (incr_evals s, advance 1 rs)))
      by now apply _log_p_Ok.
    cbn [main_loop]. unfold bind at 1. rewrite uniform_Ok. fold p.
    unfold bind at 1. rewrite Hev, Hcmp. reflexivity.
  - apply main_loop_reject with (v := v); [exact Hv|].
    now apply lv_gtb_false.
Qed.

Lemma main_loop_no_raise (fuel : nat) (lu : logval) (e : exn) :
  forall (a b : Q) (s : t) (rs : RandomSource),
    total_density s -> main_loop fuel lu a b (s, rs) <> Raise e.
Proof.
  induction fuel as [|fuel IH]; intros a b s rs Htot; [discriminate|].
  destruct (Htot (a + (b - a) * draws rs (pos rs))) as [v Hv].
  rewrite (main_loop_step fuel lu a b s rs v Hv).
  destruct (lv_gtb v lu); [discriminate|].
  now apply (IH _ _ (incr_evals s)).
Qed.

(** On a point mass at [x0] only [x0] itself can be accepted. *)
Lemma main_loop_point_mass (x0 c : Q) (fuel : nat) (lu : logval) :
  forall (a b : Q) (s : t) (rs : RandomSource) (fr : frame)
         (wd : t * RandomSource),
    log_p s = point_mass x0 c ->
    main_loop fuel lu a b (s, rs) = Ok (fr, wd) ->
    x_prime fr == x0.
Proof.
  induction fuel as [|fuel IH]; intros a b s rs fr wd Hden Hrun;
    [discriminate|].
  set (p := a + (b - a) * draws rs (pos rs)).
  assert (Hv : log_p s p
               = Ok (if Qeq_bool p x0 then Fin c else NegInf))
    by now rewrite Hden.
  rewrite (main_loop_step fuel lu a b s rs _ Hv) in Hrun. fold p in Hrun.
  destruct (Qeq_bool p x0) eqn:Heq.
  - destruct (lv_gtb (Fin c) lu).
    + injection Hrun as <- _. simpl. now apply Qeq_bool_iff.
    + now apply (IH _ _ (incr_evals s)) in Hrun.
  - rewrite lv_gtb_NegInf_l in Hrun.
    now apply (IH _ _ (incr_evals s)) in Hrun.
Qed.

(** On a point mass at [x0], a bracket that does not contain [x0] yields
    no proposal that can be accepted. *)
Lemma main_loop_point_mass_outside (x0 c : Q) (fuel : nat) (lu : logval) :
  forall (a b : Q) (s : t) (rs : RandomSource),
    log_p s = point_mass x0 c ->
    x0 < a \/ b < x0 ->
    a <= x s <= b ->
    unit_draws rs ->
    main_loop fuel lu a b (s, rs) = OutOfFuel.
Proof.
  induction fuel as [|fuel IH]; intros a b s rs Hden Hout Hinv Hu;
    [reflexivity|].
  set (p := a + (b - a) * draws rs (pos rs)).
  destruct (Hu (pos rs)) as [Hu0 Hu1].
  assert (Hab : a <= b) by lra.
  pose proof (proposal_in_bracket a b _ Hab Hu0 Hu1) as Hin. fold p in Hin.
  assert (Hne : Qeq_bool p x0 = false).
  { apply not_true_iff_false. rewrite Qeq_bool_iff.
    destruct Hout; lra. }
  assert (Hv : log_p s p = Ok NegInf).
  { rewrite Hden. unfold point_mass. now rewrite Hne. }
  rewrite (main_loop_step fuel lu a b s rs _ Hv). fold p.
  rewrite lv_gtb_NegInf_l.
  destruct (adjust_interval p (x s) a b) as [a' b'] eqn:Hadj.
  pose proof (adjust_interval_preserves _ _ _ _ _ _ Hinv Hin Hadj)
    as (Hinv' & Ha' & Hb').
  cbn [fst snd].
  apply (IH a' b' (incr_evals s) (advance 1 rs)); simpl;
    [exact Hden | destruct Hout; [left | right]; lra | exact Hinv'
    | now apply unit_draws_advance].
Qed.

Lemma point_mass_total (x0 c : Q) (s : t) :
  log_p s = point_mass x0 c -> total_density s.
Proof. intros Hden z. rewrite Hden. unfold point_mass. eauto. Qed.

(** ** The main loop as a sequence of proposals *)

Lemma proposal_S (n : nat) (cur a b : Q) (rs : RandomSource) :
  let p := a + (b - a) * draws rs (pos rs) in
  proposal (S n) cur a b rs
  = proposal n cur (fst (adjust_interval p cur a b))
      (snd (adjust_interval p cur a b)) (advance 1 rs).
Proof.
  intros p. unfold proposal. cbn [bracket_after]. fold p.
  cbn [advance pos draws uniform_value].
  replace (n + (1 + pos rs))%nat with (S n + pos rs)%nat by lia.
  reflexivity.
Qed.

(** The loop returns the first proposal that is above the slice level. *)
Lemma main_loop_returns_at (n : nat) (lu : logval) :
  forall (a b : Q) (s : t) (rs : RandomSource) (v : logval),
    (forall j, (j < n)%nat ->
       exists vj, log_p s (proposal j (x s) a b rs) = Ok vj /\
                  lv_le vj lu) ->
    log_p s (proposal n (x s) a b rs) = Ok v -> lv_gt v lu ->
    forall fuel, (n < fuel)%nat ->
      main_loop fuel lu a b (s, rs)
      = Ok ({| log_u_prime := lu;
               xl := fst (bracket_after n (x s) a b rs);
               xr := snd (bracket_after n (x s) a b rs);
               x_prime := proposal n (x s) a b rs |},
            (set_x (proposal n (x s) a b rs) (add_evals (S n) s),
             advance (S n) rs)).
Proof.
  induction n as [|n IH]; intros a b s rs v Hrej Hv Hgt [|fuel] Hfuel;
    try lia.
  - rewrite (main_loop_step fuel lu a b s rs v Hv), Hgt. reflexivity.
  - destruct (Hrej 0%nat ltac:(lia)) as (v0 & Hv0 & Hle0).
    rewrite (main_loop_reject fuel lu a b s rs v0 Hv0 Hle0).
    rewrite proposal_S in Hv |- *. cbv zeta in Hv |- *.
    cbn [bracket_after]. unfold uniform_value at 1 2.
    rewrite <- add_evals_incr.
    replace (advance (S (S n)) rs) with (advance (S n) (advance 1 rs))
      by (rewrite advance_advance; f_equal; lia).
    apply (IH _ _ (incr_evals s) (advance 1 rs) v);
      [| exact Hv | exact Hgt | lia].
    intros j Hj. destruct (Hrej (S j) ltac:(lia)) as (vj & Hvj & Hlej).
    rewrite proposal_S in Hvj. now exists vj.
Qed.

(** A call of the loop that returns has returned the first proposal
    above the slice level. *)
Lemma main_loop_Ok_at (fuel : nat) (lu : logval) :
  forall (a b : Q) (s : t) (rs : RandomSource) (fr : frame)
         (wd : t * RandomSource),
    main_loop fuel lu a b (s, rs) = Ok (fr, wd) ->
    exists n : nat,
      (n < fuel)%nat /\
      (forall j, (j < n)%nat ->
         exists vj, log_p s (proposal j (x s) a b rs) = Ok vj /\
                    lv_le vj lu) /\
      (exists v, log_p s (proposal n (x s) a b rs) = Ok v /\ lv_gt v lu) /\
      fr = {| log_u_prime := lu;
              xl := fst (bracket_after n (x s) a b rs);
              xr := snd (bracket_after n (x s) a b rs);
              x_prime := proposal n (x s) a b rs |} /\
      wd = (set_x (proposal n (x s) a b rs) (add_evals (S n) s),
            advance (S n) rs).
Proof.
  induction fuel as [|fuel IH]; intros a b s rs fr wd Hrun;
    [discriminate|].
  pose proof Hrun as Hrun0.
  simpl in Hrun. apply bind_Ok in Hrun as (p & wd1 & Hp & Hrun).
  rewrite uniform_Ok in Hp. injection Hp as <- <-.
  apply bind_Ok in Hrun as (v & wd2 & Hev & _).
  apply _log_p_Ok in Hev as [Hv _].
  rewrite (main_loop_step fuel lu a b s rs v Hv) in Hrun0.
  destruct (lv_gtb v lu) eqn:Hcmp.
  - injection Hrun0 as <- <-. exists 0%nat.
    split; [lia|]. split; [intros j Hj; lia|].
    split; [now exists v|]. split; reflexivity.
  - apply IH in Hrun0 as (n & Hn & Hrej & Hacc & -> & ->).
    exists (S n). split; [lia|]. split; [|split; [|split]].
    + intros [|j] Hj.
      * exists v. split; [exact Hv | now apply lv_gtb_false].
      * rewrite proposal_S. apply Hrej. lia.
    + rewrite proposal_S. exact Hacc.
    + rewrite proposal_S. reflexivity.
    + rewrite proposal_S, add_evals_incr, advance_advance.
      do 2 f_equal. f_equal. lia.
Qed.

(** As long as every proposal is at or below the slice level the loop
    goes on. *)
Lemma main_loop_all_rejected (fuel : nat) (lu : logval) :
  forall (a b : Q) (s : t) (rs : RandomSource),
    (forall j, exists vj, log_p s (proposal j (x s) a b rs) = Ok vj /\
                          lv_le vj lu) ->
    main_loop fuel lu a b (s, rs) = OutOfFuel.
Proof.
  induction fuel as [|fuel IH]; intros a b s rs Hrej; [reflexivity|].
  destruct (Hrej 0%nat) as (v0 & Hv0 & Hle0).
  rewrite (main_loop_reject fuel lu a b s rs v0 Hv0 Hle0).
  apply (IH _ _ (incr_evals s) (advance 1 rs)).
  intros j. destruct (Hrej (S j)) as (vj & Hvj & Hlej).
  rewrite proposal_S in Hvj. now exists vj.
Qed.

(** When no point of the bracket is above the slice level, every
    proposal is rejected, whatever the unit draws. *)
Lemma main_loop_nothing_above (fuel : nat) (lu : logval) :
  forall (a b : Q) (s : t) (rs : RandomSource),
    (forall z, a <= z <= b ->
       exists v, log_p s z = Ok v /\ lv_le v lu) ->
    a <= x s <= b ->
    unit_draws rs ->
    main_loop fuel lu a b (s, rs) = OutOfFuel.
Proof.
  induction fuel as [|fuel IH]; intros a b s rs Hbelow Hinv Hu;
    [reflexivity|].
  set (p := a + (b - a) * draws rs (pos rs)).
  destruct (Hu (pos rs)) as [Hu0 Hu1].
  assert (Hab : a <= b) by lra.
  pose proof (proposal_in_bracket a b _ Hab Hu0 Hu1) as Hin. fold p in Hin.
  destruct (Hbelow p Hin) as (v & Hv & Hle).
  rewrite (main_loop_reject fuel lu a b s rs v Hv Hle). fold p.
  destruct (adjust_interval p (x s) a b) as [a' b'] eqn:Hadj.
  pose proof (adjust_interval_preserves _ _ _ _ _ _ Hinv Hin Hadj)
    as (Hinv' & Ha' & Hb').
  cbn [fst snd].
  apply (IH a' b' (incr_evals s) (advance 1 rs)); simpl;
    [| exact Hinv' | now apply unit_draws_advance].
  intros z Hz. apply Hbelow. lra.
Qed.

Section WithNumPy2.
Context `{np : NumPy}.

Lemma bracket_total (s : t) (rs : RandomSource) (v : logval) (h : Q) :
  log_p s (x s) = Ok v -> np_exp v = Val h ->
  exists lu a b, bracket (s, rs)
                 = Ok ((lu, a, b), (add_evals 1 s, advance 2 rs)).
Proof.
  intros Hv Hexp.
  assert (Hev : _log_p (x s) (s, rs) = Ok (v, (incr_evals s, rs)))
    by now apply _log_p_Ok.
  unfold bracket. unfold bind at 1. unfold self at 1, gets.
  cbn [fst]. unfold bind at 1. rewrite Hev, Hexp. cbn. eauto.
Qed.

(** The slice level cannot be drawn when the exponential of the
    log-density at the current sample is not finite. *)
Lemma bracket_overflow (s : t) (rs : RandomSource) (v : logval) :
  log_p s (x s) = Ok v -> np_exp v = Inf ->
  bracket (s, rs) = Raise OverflowError.
Proof.
  intros Hv Hexp.
  assert (Hev : _log_p (x s) (s, rs) = Ok (v, (incr_evals s, rs)))
    by now apply _log_p_Ok.
  unfold bracket. unfold bind at 1. unfold self at 1, gets.
  cbn [fst]. unfold bind at 1. rewrite Hev, Hexp. reflexivity.
Qed.

Lemma sample_overflow (fuel : nat) (s : t) (rs : RandomSource)
    (v : logval) :
  log_p s (x s) = Ok v -> np_exp v = Inf ->
  sample fuel s rs = Raise OverflowError.
Proof.
  intros Hv Hexp.
  pose proof (bracket_overflow (incr_samples s) rs v Hv Hexp) as Hb.
  unfold sample, sample_m, sample_frame.
  unfold bind at 1. unfold bind at 1.
  unfold update at 1, modify. cbn [fst snd]. unfold bind at 1.
  now rewrite Hb.
Qed.

(** A call whose bracket and step-out phase are known. *)
Lemma sample_frame_phases (fuel : nat) (s : t) (rs : RandomSource)
    (lu : logval) (a0 b0 a1 b1 : Q) (wd0 wd1 : t * RandomSource) :
  bracket (incr_samples s, rs) = Ok ((lu, a0, b0), wd0) ->
  step_out fuel lu a0 b0 wd0 = Ok ((a1, b1), wd1) ->
  sample_frame fuel (s, rs) = main_loop fuel lu a1 b1 wd1.
Proof.
  intros Hb Hso. unfold sample_frame. unfold bind at 1.
  unfold update, modify. cbn [fst snd]. unfold bind at 1. rewrite Hb.
  unfold bind at 1. rewrite Hso. reflexivity.
Qed.

(** With a density defined everywhere, [sample] can raise only
    [OverflowError], and does so because the exponential overflowed. *)
Lemma sample_frame_Raise_total (fuel : nat) (s : t) (rs : RandomSource)
    (e : exn) :
  total_density s -> sample_frame fuel (s, rs) = Raise e ->
  e = OverflowError /\
  exists v, log_p s (x s) = Ok v /\ np_exp v = Inf.
Proof.
  intros Htot Hrun.
  destruct (Htot (x s)) as [v Hv].
  destruct (np_exp v) as [h|] eqn:Hexp.
  - exfalso.
    destruct (bracket_total (incr_samples s) rs v h Hv Hexp)
      as (lu & a0 & b0 & Hb).
    unfold sample_frame in Hrun. unfold bind at 1 in Hrun.
    unfold update, modify in Hrun. cbn [fst snd] in Hrun.
    unfold bind at 1 in Hrun. rewrite Hb in Hrun.
    unfold bind at 1 in Hrun. unfold step_out in Hrun.
    unfold bind at 1 in Hrun.
    destruct (step_out_left fuel lu a0 _) as [[a1 [s1 r1]]| |] eqn:Hl;
      try discriminate.
    { pose proof Hl as Hl'.
      apply step_out_left_spec in Hl' as (nl & _ & _ & [= -> ->] & _).
      unfold bind at 1 in Hrun.
      destruct (step_out_right fuel lu b0 _) as [[b1 [s2 r2]]| |] eqn:Hr;
        try discriminate.
      - pose proof Hr as Hr'.
        apply step_out_right_spec in Hr' as (nr & _ & _ & [= -> ->] & _).
        cbn [ret] in Hrun. revert Hrun.
        now apply main_loop_no_raise.
      - injection Hrun as ->. revert Hr.
        now apply step_out_right_no_raise. }
    injection Hrun as ->. revert Hl. now apply step_out_left_no_raise.
  - pose proof (bracket_overflow (incr_samples s) rs v Hv Hexp) as Hb.
    unfold sample_frame in Hrun. unfold bind at 1 in Hrun.
    unfold update, modify in Hrun. cbn [fst snd] in Hrun.
    unfold bind at 1 in Hrun. rewrite Hb in Hrun.
    injection Hrun as <-. split; [reflexivity|]. now exists v.
Qed.

(** A call that returns, phase by phase: the level and the offset come
    from the first two draws, the two loops step out to the first points
    at or below the level, and the value returned is the first proposal
    above the level, drawn from the bracket as the rejected proposals
    before it have left it. *)
Lemma sample_accepts (fuel : nat) (s : t) (rs : RandomSource) (v : Q)
    (s' : t) (rs' : RandomSource) :
  sample fuel s rs = Ok (v, (s', rs')) ->
  exists (v0 : logval) (h : Q) (nl nr n : nat),
    let lu := np_log (uniform_value 0 h (draws rs (pos rs))) in
    let r := uniform_value 0 1 (draws rs (S (pos rs))) in
    let a := left_of s (x s - r * w s) nl in
    let b := right_of s (x s + (1 - r) * w s) nr in
    log_p s (x s) = Ok v0 /\ np_exp v0 = Val h /\
    (forall k, (k < nl)%nat ->
       exists vk, log_p s (left_of s (x s - r * w s) k) = Ok vk /\
                  lv_gt vk lu) /\
    (exists va, log_p s a = Ok va /\ lv_le va lu) /\
    (forall k, (k < nr)%nat ->
       exists vk, log_p s (right_of s (x s + (1 - r) * w s) k) = Ok vk /\
                  lv_gt vk lu) /\
    (exists vb, log_p s b = Ok vb /\ lv_le vb lu) /\
    (forall j, (j < n)%nat ->
       exists vj, log_p s (proposal j (x s) a b (advance 2 rs)) = Ok vj /\
                  lv_le vj lu) /\
    v = proposal n (x s) a b (advance 2 rs) /\
    (exists lv, log_p s v = Ok lv /\ lv_gt lv lu) /\
    s' = set_x v (add_evals (n + nl + nr + 4) (incr_samples s)) /\
    rs' = advance (n + 3) rs.
Proof.
  unfold sample, sample_m. intros Hrun.
  apply bind_Ok in Hrun as (fr & wd & Hfr & Hrun).
  injection Hrun as <- ->.
  apply sample_frame_Ok in Hfr
    as (lu & a0 & b0 & nl & nr & Hb & _ & Hloop & Hgl & Hgr & Hll & Hlr);
    cbv zeta in *.
  apply bracket_Ok in Hb
    as (v0 & h & r & Hv0 & Hexp & -> & -> & -> & -> & _).
  apply main_loop_Ok_at in Hloop as (n & _ & Hrej & Hacc & -> & [= -> ->]).
  exists v0, h, nl, nr, n. cbv zeta. cbn [x_prime].
  split; [exact Hv0|]. split; [exact Hexp|].
  split; [exact Hgl|]. split; [exact Hll|].
  split; [exact Hgr|]. split; [exact Hlr|].
  split; [exact Hrej|]. split; [reflexivity|]. split; [exact Hacc|].
  rewrite !add_evals_add, advance_advance.
  split; [do 2 f_equal; lia | f_equal; lia].
Qed.

(** ** C9 *)

(** C9 (as amended). For a target density that is zero everywhere
    except at one point [x0], [SliceSampling.sample] signals no invalid
    density value: the only exception a call can raise is
    [OverflowError], and it is raised whenever [np.exp] of the
    log-density at the current sample is not finite.  A call returns only
    when a proposal is exactly [x0], and then returns [x0], which becomes
    the state.  As long as the proposals miss [x0] the main loop goes on:
    from a bracket that does not contain [x0] no budget is enough,
    whatever the unit draws. *)
Theorem point_mass_returns_or_runs_on (x0 c : Q) (fuel : nat) (s : t)
    (rs : RandomSource) :
  log_p s = point_mass x0 c ->
  (forall e, sample fuel s rs = Raise e -> e = OverflowError) /\
  (forall v, log_p s (x s) = Ok v -> np_exp v = Inf ->
             sample fuel s rs = Raise OverflowError) /\
  (forall v s' rs', sample fuel s rs = Ok (v, (s', rs')) ->
                    v == x0 /\ x s' = v) /\
  (forall (lu : logval) (a b : Q),
      x0 < a \/ b < x0 -> a <= x s <= b -> unit_draws rs ->
      forall n, main_loop n lu a b (s, rs) = OutOfFuel).
Proof.
  intros Hden.
  pose proof (point_mass_total x0 c s Hden) as Htot.
  split; [|split; [|split]].
  - intros e. unfold sample, sample_m, bind.
    destruct (sample_frame fuel (s, rs)) as [[fr wd]| |] eqn:Hrun;
      try discriminate.
    intros [= ->].
    now apply sample_frame_Raise_total in Hrun as [-> _].
  - intros v. apply sample_overflow.
  - intros v s' rs'. unfold sample, sample_m. intros Hrun.
    apply bind_Ok in Hrun as (fr & wd & Hfr & Hrun).
    injection Hrun as <- ->.
    apply sample_frame_Ok in Hfr
      as (lu & a0 & b0 & nl & nr & _ & _ & Hloop & _).
    split.
    + eapply main_loop_point_mass; [|exact Hloop]. exact Hden.
    + apply main_loop_count in Hloop as (n & _ & [= -> _]).
      reflexivity.
  - intros lu a b Hout Hinv Hu n.
    now apply (main_loop_point_mass_outside x0 c).
Qed.

End WithNumPy2.

(** ** C6 *)

(** C6 (as amended). In the main loop of [SliceSampling.sample] a rejected
    proposal [p] replaces the endpoint of the bracket on its side of the
    current sample, and the loop goes on with that bracket.  If [p] lies
    in the bracket, the new bracket still contains the current sample and
    is never wider; it is strictly narrower exactly when [p] is not the
    endpoint it replaces.  The loop returns the first proposal that is
    above the slice level, and only then: it runs on as long as every
    proposal is rejected, which is the case, whatever the unit draws,
    when no point of the bracket is above the level.  The step-out loops
    have no cap: each returns at the first point it tests that is at or
    below the slice level, in particular once the points it steps to have
    left a bounded region above the level, and runs on when every point
    it steps to is above the level. *)
Theorem shrink_loop_and_step_out_loops :
  (forall (n : nat) (lu : logval) (a b : Q) (s : t) (rs : RandomSource)
          (v : logval),
      let p := uniform_value a b (draws rs (pos rs)) in
      let a' := fst (adjust_interval p (x s) a b) in
      let b' := snd (adjust_interval p (x s) a b) in
      log_p s p = Ok v -> lv_le v lu ->
      main_loop (S n) lu a b (s, rs) =
        main_loop n lu a' b' (incr_evals s, advance 1 rs)
      /\ (x s < p -> a' = a /\ b' = p)
      /\ (p <= x s -> a' = p /\ b' = b)
      /\ (a <= x s <= b -> a <= p <= b ->
          a' <= x s <= b' /\ a <= a' /\ b' <= b /\ b' - a' <= b - a)
      /\ (x s < p -> (b' - a' < b - a <-> p < b))
      /\ (p <= x s -> (b' - a' < b - a <-> a < p)))
  /\ (forall (n : nat) (lu : logval) (a b : Q) (s : t) (rs : RandomSource)
             (v : logval),
        (forall j, (j < n)%nat ->
           exists vj, log_p s (proposal j (x s) a b rs) = Ok vj /\
                      lv_le vj lu) ->
        log_p s (proposal n (x s) a b rs) = Ok v -> lv_gt v lu ->
        forall fuel, (n < fuel)%nat ->
          main_loop fuel lu a b (s, rs)
          = Ok ({| log_u_prime := lu;
                   xl := fst (bracket_after n (x s) a b rs);
                   xr := snd (bracket_after n (x s) a b rs);
                   x_prime := proposal n (x s) a b rs |},
                (set_x (proposal n (x s) a b rs) (add_evals (S n) s),
                 advance (S n) rs)))
  /\ (forall (fuel : nat) (lu : logval) (a b : Q) (s : t)
             (rs : RandomSource) (fr : frame) (wd : t * RandomSource),
        main_loop fuel lu a b (s, rs) = Ok (fr, wd) ->
        exists n : nat,
          (n < fuel)%nat /\
          x_prime fr = proposal n (x s) a b rs /\
          (exists v, log_p s (x_prime fr) = Ok v /\ lv_gt v lu) /\
          (forall j, (j < n)%nat ->
             exists vj, log_p s (proposal j (x s) a b rs) = Ok vj /\
                        lv_le vj lu))
  /\ (forall (lu : logval) (a b : Q) (s : t) (rs : RandomSource),
        (forall j, exists vj,
            log_p s (proposal j (x s) a b rs) = Ok vj /\ lv_le vj lu) ->
        forall fuel, main_loop fuel lu a b (s, rs) = OutOfFuel)
  /\ (forall (lu : logval) (a b : Q) (s : t) (rs : RandomSource),
        (forall z, a <= z <= b ->
           exists v, log_p s z = Ok v /\ lv_le v lu) ->
        a <= x s <= b -> unit_draws rs ->
        forall fuel, main_loop fuel lu a b (s, rs) = OutOfFuel)
  /\ (forall (k : nat) (lu : logval) (a : Q) (s : t) (rs : RandomSource)
             (v : logval),
        (forall j, (j < k)%nat ->
           exists vj, log_p s (left_of s a j) = Ok vj /\ lv_gt vj lu) ->
        log_p s (left_of s a k) = Ok v -> lv_le v lu ->
        forall fuel, (k < fuel)%nat ->
          step_out_left fuel lu a (s, rs)
          = Ok (left_of s a k, (add_evals (S k) s, rs)))
  /\ (forall (k : nat) (lu : logval) (b : Q) (s : t) (rs : RandomSource)
             (v : logval),
        (forall j, (j < k)%nat ->
           exists vj, log_p s (right_of s b j) = Ok vj /\ lv_gt vj lu) ->
        log_p s (right_of s b k) = Ok v -> lv_le v lu ->
        forall fuel, (k < fuel)%nat ->
          step_out_right fuel lu b (s, rs)
          = Ok (right_of s b k, (add_evals (S k) s, rs)))
  /\ (forall (lu : logval) (a b B : Q) (s : t) (rs : RandomSource)
             (ml mr : nat),
        total_density s -> slice_bounded s lu B ->
        left_of s a ml < - B -> B < right_of s b mr ->
        exists r,
          forall fuel, (S ml + S mr <= fuel)%nat ->
            step_out fuel lu a b (s, rs) = Ok r)
  /\ (forall (lu : logval) (a b : Q) (s : t) (rs : RandomSource),
        (forall k, exists v,
            log_p s (left_of s a k) = Ok v /\ lv_gt v lu) ->
        forall fuel, step_out fuel lu a b (s, rs) = OutOfFuel)
  /\ (forall (lu : logval) (b : Q) (s : t) (rs : RandomSource),
        (forall k, exists v,
            log_p s (right_of s b k) = Ok v /\ lv_gt v lu) ->
        forall fuel, step_out_right fuel lu b (s, rs) = OutOfFuel).
Proof.
  split; [|split; [|split; [|split; [|split; [|split; [|split;
    [|split; [|split]]]]]]]].
  - intros n lu a b s rs v p a' b' Hv Hle.
    split; [exact (main_loop_reject n lu a b s rs v Hv Hle)|].
    subst a' b'. unfold adjust_interval.
    destruct (Qgtb p (x s)) eqn:Hcmp; cbn [fst snd];
      [apply Qgtb_true in Hcmp | apply Qgtb_false in Hcmp].
    + split; [now split|]. split; [lra|].
      split; [intros ? ?; repeat split; lra|].
      split; [intros _; split; lra | lra].
    + split; [lra|]. split; [now split|].
      split; [intros ? ?; repeat split; lra|].
      split; [lra | intros _; split; lra].
  - exact main_loop_returns_at.
  - intros fuel lu a b s rs fr wd Hrun.
    apply main_loop_Ok_at in Hrun as (n & Hn & Hrej & Hacc & -> & _).
    exists n. cbn [x_prime]. auto.
  - intros lu a b s rs Hrej fuel. now apply main_loop_all_rejected.
  - intros lu a b s rs Hbelow Hinv Hu fuel.
    now apply main_loop_nothing_above.
  - exact step_out_left_returns_at.
  - exact step_out_right_returns_at.
  - intros lu a b B s rs ml mr. apply step_out_leaves_region.
  - intros lu a b s rs Habove fuel. unfold step_out, bind.
    now rewrite step_out_left_diverges.
  - intros lu b s rs Habove fuel. now apply step_out_right_diverges.
Qed.

(** ** Determinism *)

Lemma respects_uniform (lo : Q) (hi : expval) : respects (uniform lo hi).
Proof.
  intros s r1 r2 Hr. destruct hi as [hi|]; [|reflexivity].
  rewrite !uniform_Ok. simpl.
  rewrite (same_draws_head r1 r2 Hr).
  split; [reflexivity|]. split; [reflexivity|].
  now apply same_draws_advance.
Qed.

Lemma respects_log_p (a : Q) : respects (_log_p a).
Proof.
  unfold _log_p. apply respects_bind; [apply respects_modify|].
  intros _. apply respects_bind; [apply respects_gets|].
  intros f. apply respects_lift.
Qed.

Lemma respects_step_out_left (fuel : nat) (lu : logval) :
  forall a, respects (step_out_left fuel lu a).
Proof.
  induction fuel as [|fuel IH]; intros a; [apply respects_timeout|].
  simpl. apply respects_bind; [apply respects_log_p|]. intros v.
  destruct (lv_gtb v lu); [|apply respects_ret].
  apply respects_bind; [apply respects_gets|]. intros wd. apply IH.
Qed.

Lemma respects_step_out_right (fuel : nat) (lu : logval) :
  forall a, respects (step_out_right fuel lu a).
Proof.
  induction fuel as [|fuel IH]; intros a; [apply respects_timeout|].
  simpl. apply respects_bind; [apply respects_log_p|]. intros v.
  destruct (lv_gtb v lu); [|apply respects_ret].
  apply respects_bind; [apply respects_gets|]. intros wd. apply IH.
Qed.

Lemma respects_main_loop (fuel : nat) (lu : logval) :
  forall a b, respects (main_loop fuel lu a b).
Proof.
  induction fuel as [|fuel IH]; intros a b; [apply respects_timeout|].
  simpl. apply respects_bind; [apply respects_uniform|]. intros p.
  apply respects_bind; [apply respects_log_p|]. intros v.
  destruct (lv_gtb v lu).
  - apply respects_bind; [apply respects_modify|]. intros _.
    apply respects_ret.
  - apply respects_bind; [apply respects_gets|]. intros cur.
    destruct (adjust_interval p cur a b). apply IH.
Qed.

Section WithNumPy3.
Context `{np : NumPy}.

Lemma respects_bracket : respects bracket.
Proof.
  unfold bracket.
  apply respects_bind; [apply respects_gets|]; intros cur.
  apply respects_bind; [apply respects_log_p|]; intros v.
  apply respects_bind; [apply respects_uniform|]; intros u.
  apply respects_bind; [apply respects_uniform|]; intros r.
  apply respects_bind; [apply respects_gets|]; intros cur1.
  apply respects_bind; [apply respects_gets|]; intros w1.
  apply respects_bind; [apply respects_gets|]; intros cur2.
  apply respects_bind; [apply respects_gets|]; intros w2.
  apply respects_ret.
Qed.

Lemma respects_sample_m (fuel : nat) : respects (sample_m fuel).
Proof.
  unfold sample_m, sample_frame, step_out.
  apply respects_bind; [|intros fr; apply respects_ret].
  apply respects_bind; [apply respects_modify|]; intros _.
  apply respects_bind; [apply respects_bracket|]; intros [[lu a] b].
  apply respects_bind; [|intros [a1 b1]; apply respects_main_loop].
  apply respects_bind; [apply respects_step_out_left|]; intros a1.
  apply respects_bind; [apply respects_step_out_right|]; intros b1.
  apply respects_ret.
Qed.

(** ** C7 *)

(** C7. Two [SliceSampling] objects constructed with the same
    [(log_p, x, w)] and driven by sources that deliver the same draws
    produce the same sequence of samples and end in the same state; a
    single call of [sample] from equal states with the same draws
    returns the same value, leaves the same state and leaves the
    sources delivering the same draws. *)
Theorem same_draws_same_samples (fuel n : nat)
    (lp : Q -> result logval) (x0 w0 : Q) (s : t)
    (r1 r2 : RandomSource) :
  same_draws r1 r2 ->
  same_outcome (sample fuel s r1) (sample fuel s r2) /\
  same_outcome (run_samples fuel n (init lp x0 w0) r1)
               (run_samples fuel n (init lp x0 w0) r2).
Proof.
  intros Hr. split; [now apply respects_sample_m|].
  generalize (init lp x0 w0). revert r1 r2 Hr.
  induction n as [|n IH]; intros r1 r2 Hr s0; simpl; [auto|].
  pose proof (respects_sample_m fuel s0 r1 r2 Hr) as Hs.
  unfold same_outcome in Hs. fold (sample fuel s0 r1) in Hs.
  fold (sample fuel s0 r2) in Hs.
  destruct (sample fuel s0 r1) as [[v1 [s1 r1']]| |],
           (sample fuel s0 r2) as [[v2 [s2 r2']]| |];
    try contradiction; auto.
  destruct Hs as (-> & -> & Hr').
  specialize (IH r1' r2' Hr' s2). unfold same_outcome in IH.
  destruct (run_samples fuel n s2 r1') as [[vs1 [t1 q1]]| |],
           (run_samples fuel n s2 r2') as [[vs2 [t2 q2]]| |];
    try contradiction; auto.
  destruct IH as (-> & -> & Hq). simpl. auto.
Qed.

End WithNumPy3.

End SliceFacts.

(** ** The left step-out loop over binary64 *)

Module Binary64Facts.
Import PrimFloat Binary64.
Local Open Scope float_scope.

(** The region above the level is the window. *)
Lemma far_region_bounded (z : float) :
  gtb (log_p far_sampler z) far_level = true ->
  leb far_lo z = true /\ leb z far_hi = true.
Proof.
  unfold far_sampler, window. cbn [log_p].
  destruct (leb far_lo z); destruct (leb z far_hi); cbn;
    try discriminate; auto.
Qed.

(** The left endpoint of the bracket is the state itself, and a step of
    [w] does not move it. *)
Lemma far_step_absorbed :
  far_xl = far_x /\ far_xl - w far_sampler = far_xl.
Proof. split; reflexivity. Qed.

Lemma far_step_out_left_diverges (fuel : nat) :
  forall n : nat,
    step_out_left fuel far_level far_xl
      {| log_p := log_p far_sampler; w := w far_sampler; evals := n |}
    = OutOfFuel.
Proof.
  induction fuel as [|fuel IH]; intros n; [reflexivity|].
  cbn [step_out_left].
  change (step_out_left fuel far_level far_xl
            {| log_p := log_p far_sampler; w := w far_sampler;
               evals := S n |} = OutOfFuel).
  apply IH.
Qed.

End Binary64Facts.

(** ** GibbsSampling *)

Module GibbsFacts.
Import GibbsSampling.
Local Open Scope nat_scope.

Lemma heap_items_lookup (h : heap) (l : loc) :
  l < length h -> h !! l = Some (heap_items h l).
Proof.
  intros Hl. unfold heap_items.
  destruct (lookup_lt_is_Some_2 h l Hl) as [xs ->]. reflexivity.
Qed.

Lemma heap_items_insert_eq (h : heap) (l : loc) (xs : list value) :
  l < length h -> heap_items (<[l := xs]> h) l = xs.
Proof.
  intros Hl. unfold heap_items. now rewrite list_lookup_insert_eq.
Qed.

Lemma heap_items_insert_ne (h : heap) (l l' : loc) (xs : list value) :
  l <> l' -> heap_items (<[l := xs]> h) l' = heap_items h l'.
Proof.
  intros Hl. unfold heap_items. now rewrite list_lookup_insert_ne.
Qed.

Lemma heap_items_alloc (h : heap) (xs : list value) :
  heap_items (h ++ [xs]) (length h) = xs.
Proof. unfold heap_items. now rewrite list_lookup_middle. Qed.

Lemma gibbs_loop_Ok (ts : list transition) :
  forall (i : nat) (l : loc) (s : t) (h : heap) (rs : RandomSource)
         (u : unit) (wd : world),
    l < length h ->
    i <= length (heap_items h l) ->
    loop ts i l (s, (h, rs)) = Ok (u, wd) ->
    let xs := heap_items h l in
    exists (xs' : list value) (r : nat -> RandomSource),
      wd = (s, (<[l := xs']> h, r (length ts))) /\
      r 0 = rs /\
      length xs' = length xs /\
      i + length ts <= length xs /\
      take i xs' = take i xs /\
      drop (i + length ts) xs' = drop (i + length ts) xs /\
      forall (k : nat) (T : transition),
        ts !! k = Some T ->
        exists v, xs' !! (i + k) = Some v /\
                  T (view xs' xs (i + k)) (r k) = Ok (v, r (S k)).
Proof.
  induction ts as [|T ts IH]; intros i l s h rs u wd Hl Hil Hrun xs.
  - injection Hrun as <- <-. exists xs, (fun _ => rs). simpl.
    rewrite list_insert_id by now apply heap_items_lookup.
    rewrite Nat.add_0_r. repeat split; try reflexivity.
    + exact Hil.
    + intros k T Hk. discriminate.
  - cbn [loop] in Hrun.
    apply bind_Ok in Hrun as (cur & wd1 & Hcur & Hrun).
    injection Hcur as <- <-. cbn [fst snd] in Hrun. fold xs in Hrun.
    apply bind_Ok in Hrun as (v & wd2 & Hcall & Hrun).
    unfold call in Hcall. cbn [fst snd] in Hcall.
    destruct (T xs rs) as [[v' rs1]| |] eqn:HT; try discriminate.
    injection Hcall as <- <-.
    apply bind_Ok in Hrun as ([] & wd3 & Hset & Hrun).
    unfold setitem, heap_setitem in Hset. cbn [fst snd] in Hset.
    fold xs in Hset.
    destruct (Nat.ltb i (length xs)) eqn:Hi; try discriminate.
    apply Nat.ltb_lt in Hi. injection Hset as <-.
    apply IH in Hrun;
      [| now rewrite length_insert
       | rewrite heap_items_insert_eq, length_insert by exact Hl; lia].
    cbv zeta in Hrun. rewrite heap_items_insert_eq in Hrun by exact Hl.
    destruct Hrun as (xs' & r & -> & Hr0 & Hlen & Hbound & Htake & Hdrop
                      & Hsteps).
    rewrite length_insert in Hlen, Hbound.
    exists xs', (fun k => match k with O => rs | S k' => r k' end).
    rewrite list_insert_insert_eq. simpl length.
    split; [reflexivity|]. split; [reflexivity|].
    split; [exact Hlen|]. split; [lia|].
    assert (Htake' : take i xs' = take i xs).
    { transitivity (take i (take (S i) xs')).
      - rewrite take_take. f_equal. lia.
      - rewrite Htake, take_take, take_insert_ge by lia. f_equal. lia. }
    split; [exact Htake'|].
    split.
    { replace (i + S (length ts)) with (S i + length ts) by lia.
      rewrite Hdrop. apply drop_insert_lt. lia. }
    intros [|k] T' Hk.
    + injection Hk as <-. exists v'. rewrite Nat.add_0_r. split.
      * assert (Hi' : xs' !! i = take (S i) xs' !! i)
          by (now rewrite lookup_take_lt by lia).
        rewrite Hi', Htake, lookup_take_lt by lia.
        now apply list_lookup_insert_eq.
      * unfold view. rewrite Htake', take_drop, Hr0. exact HT.
    + apply Hsteps in Hk as (w & Hw & HT').
      replace (i + S k) with (S i + k) by lia.
      exists w. split; [exact Hw|].
      unfold view in *. rewrite drop_insert_lt in HT' by lia. exact HT'.
Qed.

Lemma gibbs_loop_total (ts : list transition) :
  forall (i : nat) (l : loc) (s : t) (h : heap) (rs : RandomSource),
    l < length h ->
    i + length ts <= length (heap_items h l) ->
    total_transitions ts ->
    exists wd, loop ts i l (s, (h, rs)) = Ok (tt, wd).
Proof.
  induction ts as [|T ts IH]; intros i l s h rs Hl Hi Htot;
    [simpl; eauto|].
  destruct (Htot T (or_introl eq_refl) (heap_items h l) rs)
    as (v & rs1 & HT).
  simpl in Hi.
  cbn [loop]. unfold bind at 1. unfold items at 1, gets. cbn [fst snd].
  unfold bind at 1. unfold call at 1. cbn [fst snd]. rewrite HT.
  unfold bind at 1. unfold setitem at 1, heap_setitem. cbn [fst snd].
  destruct (Nat.ltb_spec i (length (heap_items h l))) as [Hlt|Hge];
    [|lia].
  apply IH.
  - now rewrite length_insert.
  - rewrite heap_items_insert_eq, length_insert by exact Hl. lia.
  - intros T' HT'. apply Htot. now right.
Qed.

(** More transitions than items: the item assignment fails. *)
Lemma gibbs_loop_IndexError (ts : list transition) :
  forall (i : nat) (l : loc) (s : t) (h : heap) (rs : RandomSource),
    l < length h ->
    i <= length (heap_items h l) ->
    length (heap_items h l) < i + length ts ->
    total_transitions ts ->
    loop ts i l (s, (h, rs)) = Raise IndexError.
Proof.
  induction ts as [|T ts IH]; intros i l s h rs Hl Hi Hlong Htot;
    [simpl in Hlong; lia|].
  destruct (Htot T (or_introl eq_refl) (heap_items h l) rs)
    as (v & rs1 & HT).
  simpl in Hlong.
  cbn [loop]. unfold bind at 1. unfold items at 1, gets. cbn [fst snd].
  unfold bind at 1. unfold call at 1. cbn [fst snd]. rewrite HT.
  unfold bind at 1. unfold setitem at 1, heap_setitem. cbn [fst snd].
  destruct (Nat.ltb_spec i (length (heap_items h l))) as [Hlt|Hge];
    [|reflexivity].
  apply IH.
  - now rewrite length_insert.
  - rewrite heap_items_insert_eq, length_insert by exact Hl. lia.
  - rewrite heap_items_insert_eq, length_insert by exact Hl. lia.
  - intros T' HT'. apply Htot. now right.
Qed.

Lemma gibbs_sample_unfold (s : t) (h : heap) (rs : RandomSource) :
  sample s h rs =
  match loop (transitions s) 0 (length h)
          (s, (h ++ [heap_items h (x s)], rs)) with
  | Ok (_, (s1, hr)) => Ok (length h, (set_x (length h) s1, hr))
  | Raise e => Raise e
  | OutOfFuel => OutOfFuel
  end.
Proof.
  unfold sample, sample_m, bind, self, items, alloc, heap_alloc, update,
    modify, gets, ret. cbn [fst snd].
  destruct (loop _ _ _ _) as [[[] [s1 hr]]| |]; reflexivity.
Qed.

(** One successful call. *)
Lemma gibbs_sample_Ok (s : t) (h : heap) (rs : RandomSource) (l : loc)
    (s' : t) (h' : heap) (rs' : RandomSource) :
  sample s h rs = Ok (l, (s', (h', rs'))) ->
  let xs := heap_items h (x s) in
  let K := length (transitions s) in
  l = length h /\ s' = set_x l s /\
  exists (xs' : list value) (r : nat -> RandomSource),
    h' = h ++ [xs'] /\ r 0 = rs /\ r K = rs' /\
    length xs' = length xs /\ K <= length xs /\
    drop K xs' = drop K xs /\
    forall (k : nat) (T : transition),
      transitions s !! k = Some T ->
      exists v, xs' !! k = Some v /\
                T (view xs' xs k) (r k) = Ok (v, r (S k)).
Proof.
  rewrite gibbs_sample_unfold. intros Hrun xs K.
  destruct (loop _ _ _ _) as [[[] [s1 [h1 r1]]]| |] eqn:Hloop;
    try discriminate.
  injection Hrun as <- <- <- <-.
  apply gibbs_loop_Ok in Hloop;
    [| rewrite length_app; simpl; lia | lia].
  cbv zeta in Hloop. rewrite heap_items_alloc in Hloop. fold xs in Hloop.
  destruct Hloop as (xs' & r & [= -> -> ->] & Hr0 & Hlen & Hb & _ & Hdrop
                     & Hsteps).
  split; [reflexivity|]. split; [reflexivity|].
  exists xs', r. fold K in Hb, Hdrop |- *.
  split.
  { rewrite insert_app_r_alt by lia. now rewrite Nat.sub_diag. }
  split; [exact Hr0|]. split; [reflexivity|].
  split; [exact Hlen|]. split; [exact Hb|]. split; [exact Hdrop|].
  exact Hsteps.
Qed.

(** ** C4 *)

(** C4. [GibbsSampling.sample] performs one systematic sweep.  With [K]
    transitions and a state list [x] of at least [K] items, the call
    returns whenever the transitions do; and in every call that returns,
    for [i = 0 .. K-1] in order the new item [i] is [T_i] applied to the
    list whose items before [i] are this sweep's new values and whose
    items from [i] on are the previous values; items from [K] on are
    unchanged; the new list is stored as the state of the sampler and
    returned. *)
Theorem gibbs_systematic_sweep (s : t) (h : heap) (rs : RandomSource) :
  let xs := heap_items h (x s) in
  let K := length (transitions s) in
  (K <= length xs -> total_transitions (transitions s) ->
   exists l wd, sample s h rs = Ok (l, wd)) /\
  (forall (l : loc) (s' : t) (h' : heap) (rs' : RandomSource),
      sample s h rs = Ok (l, (s', (h', rs'))) ->
      let xs' := heap_items h' l in
      x s' = l /\ transitions s' = transitions s /\
      length xs' = length xs /\ K <= length xs /\
      drop K xs' = drop K xs /\
      exists r : nat -> RandomSource,
        r 0 = rs /\ r K = rs' /\
        forall (k : nat) (T : transition),
          transitions s !! k = Some T ->
          exists v, xs' !! k = Some v /\
                    T (view xs' xs k) (r k) = Ok (v, r (S k))).
Proof.
  intros xs K. split.
  - intros HK Htot. rewrite gibbs_sample_unfold.
    destruct (gibbs_loop_total (transitions s) 0 (length h) s
                (h ++ [heap_items h (x s)]) rs) as [[s1 hr] Hloop].
    + rewrite length_app. simpl. lia.
    + rewrite heap_items_alloc. exact HK.
    + exact Htot.
    + rewrite Hloop. eauto.
  - intros l s' h' rs' Hrun xs'.
    apply gibbs_sample_Ok in Hrun as (-> & -> & ys & r & -> & Hr0 & HrK & Hlen
                                & HK & Hdrop & Hsteps).
    subst xs'. rewrite heap_items_alloc. fold xs K in Hlen, HK, Hdrop,
      Hsteps, HrK.
    repeat split; try assumption. exists r. repeat split; assumption.
Qed.

(** ** C10 *)

Lemma gibbs_sample_fresh (s : t) (h : heap) (rs : RandomSource) (l : loc)
    (s' : t) (h' : heap) (rs' : RandomSource) :
  sample s h rs = Ok (l, (s', (h', rs'))) ->
  l = length h /\ x s' = l /\ length h' = S (length h) /\
  forall l0, l0 < length h -> h' !! l0 = h !! l0.
Proof.
  intros Hrun.
  apply gibbs_sample_Ok in Hrun as (-> & -> & ys & r & -> & _).
  split; [reflexivity|]. split; [reflexivity|].
  split; [rewrite length_app; simpl; lia|].
  intros l0 Hl0. now apply lookup_app_l.
Qed.

Lemma run_frame (n : nat) :
  forall (s : t) (h : heap) (rs : RandomSource) (ls : list loc)
         (s' : t) (h' : heap) (rs' : RandomSource),
    x s < length h ->
    run n (s, (h, rs)) = Ok (ls, (s', (h', rs'))) ->
    length h <= length h' /\
    x s' < length h' /\
    (forall l0, l0 < length h -> h' !! l0 = h !! l0) /\
    (forall l, l ∈ ls -> length h <= l < length h') /\
    NoDup ls.
Proof.
  induction n as [|n IH]; intros s h rs ls s' h' rs' Hx Hrun.
  - injection Hrun as <- <- <- <-.
    split; [lia|]. split; [exact Hx|]. split; [auto|].
    split; [intros l Hl; inversion Hl | constructor].
  - cbn [run] in Hrun.
    apply bind_Ok in Hrun as (l & [s1 [h1 rs1]] & Hs & Hrun).
    apply bind_Ok in Hrun as (ls' & wd2 & Hr & Hrun).
    injection Hrun as <- ->.
    apply gibbs_sample_fresh in Hs as (-> & Hx1 & Hlen1 & Hold1).
    apply IH in Hr as (Hlen & Hx' & Hold & Hin & Hnd); [|lia].
    split; [lia|]. split; [exact Hx'|]. split.
    { intros l0 Hl0. rewrite Hold by lia. now apply Hold1. }
    split.
    { intros l [->|Hl]%elem_of_cons; [lia|].
      apply Hin in Hl. lia. }
    constructor; [|exact Hnd].
    intros Hl. apply Hin in Hl. lia.
Qed.

(** C10. [GibbsSampling.sample] works on a copy, [x = self.x[:]], and
    writes only into the copy.  So in every sequence of calls the list the
    sampler was built with and the lists returned by earlier calls are
    left as they were by all later calls; the lists returned are pairwise
    distinct objects; and each call returns an object that did not exist
    before the call, distinct from the pre-call [self.x]. *)
Theorem returned_lists_are_not_mutated (n m : nat) (s : t) (h : heap)
    (rs : RandomSource) (ls1 : list loc) (s1 : t) (h1 : heap)
    (rs1 : RandomSource) (ls2 : list loc) (s2 : t) (h2 : heap)
    (rs2 : RandomSource) :
  x s < length h ->
  run n (s, (h, rs)) = Ok (ls1, (s1, (h1, rs1))) ->
  run m (s1, (h1, rs1)) = Ok (ls2, (s2, (h2, rs2))) ->
  (forall l, l ∈ x s :: ls1 ->
     is_Some (h1 !! l) /\ h2 !! l = h1 !! l) /\
  (forall l, l ∈ ls2 -> l ∉ x s :: ls1) /\
  NoDup (ls1 ++ ls2) /\
  (forall (l : loc) (wd : world),
     sample s1 h1 rs1 = Ok (l, wd) ->
     l <> x s1 /\ h1 !! l = None /\
     heap_items (fst (snd wd)) (x s1) = heap_items h1 (x s1)).
Proof.
  intros Hx Hrun1 Hrun2.
  apply run_frame in Hrun1 as (Hlen1 & Hx1 & Hold1 & Hin1 & Hnd1);
    [|exact Hx].
  apply run_frame in Hrun2 as (Hlen2 & Hx2 & Hold2 & Hin2 & Hnd2);
    [|exact Hx1].
  assert (Hval : forall l, l ∈ x s :: ls1 -> l < length h1).
  { intros l [->|Hl]%elem_of_cons; [lia|]. apply Hin1 in Hl. lia. }
  split.
  { intros l Hl. apply Hval in Hl. split.
    - now apply lookup_lt_is_Some_2.
    - now apply Hold2. }
  split.
  { intros l Hl2 Hl1. apply Hval in Hl1. apply Hin2 in Hl2. lia. }
  split.
  { apply NoDup_app. split; [exact Hnd1|]. split; [|exact Hnd2].
    intros l Hl1 Hl2. apply Hin1 in Hl1. apply Hin2 in Hl2. lia. }
  intros l [s3 [h3 rs3]] Hs.
  apply gibbs_sample_fresh in Hs as (-> & _ & _ & Hold3).
  split; [lia|]. split; [now apply lookup_ge_None_2|].
  simpl. unfold heap_items. now rewrite Hold3.
Qed.

End GibbsFacts.

(** ** Arrays *)

Lemma np_add_same_length (a b : list Q) :
  length a = length b -> np_add a b = Ok (zip_with Qplus a b).
Proof. intros Hl. unfold np_add. now rewrite Hl, Nat.eqb_refl. Qed.

Lemma np_add_mismatch (a b : list Q) :
  length a <> length b -> length a <> 1%nat -> length b <> 1%nat ->
  np_add a b = Raise ValueError.
Proof.
  intros Hab Ha Hb. unfold np_add.
  destruct (Nat.eqb_spec (length a) (length b)) as [|_]; [contradiction|].
  destruct a as [|a0 [|a1 a]], b as [|b0 [|b1 b]]; simpl in *;
    try reflexivity; contradiction.
Qed.

Lemma np_add_broadcast (a : list Q) (b0 : Q) :
  length a <> 1%nat -> np_add a [b0] = Ok (map (fun ai => ai + b0) a).
Proof.
  intros Ha. unfold np_add.
  destruct (Nat.eqb_spec (length a) (length [b0])) as [Heq|_];
    [simpl in Heq; contradiction|].
  destruct a as [|a0 [|a1 a]]; reflexivity.
Qed.

Lemma length_np_scale (u : Q) (d : list Q) :
  length (np_scale u d) = length d.
Proof. apply length_map. Qed.

Lemma array_eq_refl (a : list Q) : array_eq a a.
Proof. induction a; constructor; [reflexivity | assumption]. Qed.


Lemma zip_plus_proper_l (a a' : list Q) :
  array_eq a a' ->
  forall b, array_eq (zip_with Qplus a b) (zip_with Qplus a' b).
Proof.
  induction 1 as [|p q a a' Hpq Ha IH]; intros [|b0 b]; simpl;
    constructor.
  - now rewrite Hpq.
  - apply IH.
Qed.



Lemma length_weighted_sum (ds : list (list Q)) (n : nat) :
  forall us,
    Forall (fun d => length d = n) ds ->
    length (weighted_sum us ds n) = n.
Proof.
  unfold weighted_sum.
  induction ds as [|d ds IH]; intros [|u us] Hds; simpl;
    try apply repeat_length.
  inversion Hds; subst.
  rewrite length_zip_with, length_np_scale, IH by assumption. lia.
Qed.

(** ** MultiSampling *)

Module MultiFacts.
Local Open Scope nat_scope.

Section WithSampler.
Context {U : Type} `{SU : Sampling U Q}.

Lemma set_x_id (s : MultiSampling.t (U := U)) :
  MultiSampling.set_x (MultiSampling.x s) s = s.
Proof. now destruct s. Qed.

Lemma set_x_set_x (a b : list Q) (s : MultiSampling.t (U := U)) :
  MultiSampling.set_x a (MultiSampling.set_x b s)
  = MultiSampling.set_x a s.
Proof. reflexivity. Qed.

(** One direction, when it succeeds. *)
Lemma direction_step_Ok (fuel : nat) (d : list Q) (s : MultiSampling.t (U := U))
    (rs : RandomSource) (u : unit)
    (wd : MultiSampling.t (U := U) * RandomSource) :
  MultiSampling.direction_step fuel d (s, rs) = Ok (u, wd) ->
  exists (ux : Q) (obj : U) (rs1 : RandomSource) (x1 : list Q),
    sample fuel (MultiSampling.sampler_for s (MultiSampling.x s) d) rs
      = Ok (ux, (obj, rs1)) /\
    np_add (MultiSampling.x s) (np_scale ux d) = Ok x1 /\
    wd = (MultiSampling.set_x x1 s, rs1).
Proof.
  unfold MultiSampling.direction_step. intros Hrun.
  apply bind_Ok in Hrun as (lp & wd1 & Hlp & Hrun).
  injection Hlp as <- <-.
  apply bind_Ok in Hrun as (cur & wd2 & Hcur & Hrun).
  injection Hcur as <- <-.
  apply bind_Ok in Hrun as (mk & wd3 & Hmk & Hrun).
  injection Hmk as <- <-.
  apply bind_Ok in Hrun as (ux & wd4 & Hcall & Hrun).
  unfold MultiSampling.call_sample in Hcall. cbn [fst snd] in Hcall.
  destruct (sample fuel _ rs) as [[ux' [obj rs1]]| |] eqn:Hs;
    try discriminate.
  injection Hcall as <- <-.
  apply bind_Ok in Hrun as (cur & wd5 & Hcur & Hrun).
  injection Hcur as <- <-.
  apply bind_Ok in Hrun as (x1 & wd6 & Hadd & Hrun).
  apply lift_Ok in Hadd as [Hadd ->]. cbn [fst] in Hadd.
  injection Hrun as _ <-.
  exists ux', obj, rs1, x1. split; [reflexivity|].
  split; [exact Hadd | reflexivity].
Qed.

Lemma multi_loop_Ok (fuel : nat) (ds : list (list Q)) :
  forall (s : MultiSampling.t (U := U)) (rs : RandomSource) (u : unit)
         (wd : MultiSampling.t (U := U) * RandomSource),
    MultiSampling.loop fuel ds (s, rs) = Ok (u, wd) ->
    exists (us : list Q) (xq : nat -> list Q)
           (r : nat -> RandomSource),
      wd = (MultiSampling.set_x (xq (length ds)) s, r (length ds)) /\
      length us = length ds /\
      xq 0 = MultiSampling.x s /\ r 0 = rs /\
      forall (k : nat) (d : list Q),
        ds !! k = Some d ->
        exists (ux : Q) (obj : U),
          us !! k = Some ux /\
          sample fuel (MultiSampling.sampler_for s (xq k) d) (r k)
            = Ok (ux, (obj, r (S k))) /\
          np_add (xq k) (np_scale ux d) = Ok (xq (S k)).
Proof.
  induction ds as [|d ds IH]; intros s rs u wd Hrun.
  - injection Hrun as <- <-.
    exists [], (fun _ => MultiSampling.x s), (fun _ => rs).
    rewrite set_x_id. repeat split. intros k d Hk. discriminate.
  - cbn [MultiSampling.loop] in Hrun.
    apply bind_Ok in Hrun as ([] & wd1 & Hstep & Hrun).
    apply direction_step_Ok in Hstep
      as (ux & obj & rs1 & x1 & Hs & Hadd & ->).
    apply IH in Hrun as (us & xq & r & -> & Hlen & Hx0 & Hr0 & Hsteps).
    exists (ux :: us),
      (fun k => match k with O => MultiSampling.x s | S k' => xq k' end),
      (fun k => match k with O => rs | S k' => r k' end).
    simpl length. rewrite set_x_set_x.
    split; [reflexivity|]. split; [now rewrite Hlen|].
    split; [reflexivity|]. split; [reflexivity|].
    intros [|k] d' Hk.
    + injection Hk as <-. exists ux, obj. simpl in Hx0.
      rewrite Hx0, Hr0. repeat split; assumption.
    + apply Hsteps in Hk as (ux' & obj' & Hu & Hs' & Hadd').
      exists ux', obj'. repeat split; assumption.
Qed.


(** One direction, given the sample drawn by the temporary sampler. *)
Lemma direction_step_run (fuel : nat) (d : list Q)
    (s : MultiSampling.t (U := U))
    (rs : RandomSource) (ux : Q) (obj : U) (rs1 : RandomSource) :
  sample fuel (MultiSampling.sampler_for s (MultiSampling.x s) d) rs
    = Ok (ux, (obj, rs1)) ->
  MultiSampling.direction_step fuel d (s, rs) =
  match np_add (MultiSampling.x s) (np_scale ux d) with
  | Ok x1 => Ok (tt, (MultiSampling.set_x x1 s, rs1))
  | Raise e => Raise e
  | OutOfFuel => OutOfFuel
  end.
Proof.
  intros Hs.
  unfold MultiSampling.direction_step, bind, MultiSampling.self, gets,
    MultiSampling.call_sample, MultiSampling.update, modify, lift.
  cbn [fst snd]. unfold MultiSampling.sampler_for in Hs. rewrite Hs.
  cbn [fst snd]. now destruct (np_add _ _).
Qed.


(** ** C5 *)


(** A direction whose length cannot be broadcast against the state
    never goes through. *)
Lemma direction_step_mismatch (fuel : nat) (d : list Q)
    (s : MultiSampling.t (U := U))
    (rs : RandomSource) :
  length d <> length (MultiSampling.x s) ->
  length d <> 1 -> length (MultiSampling.x s) <> 1 ->
  (forall r, MultiSampling.direction_step fuel d (s, rs) <> Ok r) /\
  (forall ux obj rs1,
      sample fuel (MultiSampling.sampler_for s (MultiSampling.x s) d) rs
        = Ok (ux, (obj, rs1)) ->
      MultiSampling.direction_step fuel d (s, rs) = Raise ValueError).
Proof.
  intros Hne Hd1 Hx1.
  assert (Hadd : forall ux,
             np_add (MultiSampling.x s) (np_scale ux d)
             = Raise ValueError).
  { intros ux. apply np_add_mismatch; rewrite ?length_np_scale;
      congruence. }
  split.
  - intros [[] wd] Hrun.
    apply direction_step_Ok in Hrun as (ux & _ & _ & x1 & _ & Hx & _).
    rewrite Hadd in Hx. discriminate.
  - intros ux obj rs1 Hs.
    rewrite (direction_step_run fuel d s rs ux obj rs1 Hs).
    now rewrite Hadd.
Qed.

(** A direction of length one is broadcast without any error. *)
Lemma direction_step_broadcast (fuel : nat) (d0 : Q)
    (s : MultiSampling.t (U := U))
    (rs : RandomSource) (ux : Q) (obj : U) (rs1 : RandomSource) :
  length (MultiSampling.x s) <> 1 ->
  sample fuel (MultiSampling.sampler_for s (MultiSampling.x s) [d0]) rs
    = Ok (ux, (obj, rs1)) ->
  MultiSampling.direction_step fuel [d0] (s, rs) =
  Ok (tt, (MultiSampling.set_x
             (map (fun xi => (xi + ux * d0)%Q) (MultiSampling.x s)) s,
           rs1)).
Proof.
  intros Hx1 Hs.
  rewrite (direction_step_run fuel [d0] s rs ux obj rs1 Hs).
  simpl np_scale. now rewrite np_add_broadcast.
Qed.

End WithSampler.

End MultiFacts.

(** ** The three samplers together *)

Section AllSamplers.
Context `{np : NumPy} {U : Type} `{SU : Sampling U Q}.

Lemma multi_sample_state (fuel : nat) (s : MultiSampling.t (U := U))
    (rs : RandomSource) (v : list Q) (s' : MultiSampling.t (U := U))
    (rs' : RandomSource) :
  MultiSampling.sample fuel s rs = Ok (v, (s', rs')) ->
  MultiSampling.x s' = v.
Proof.
  unfold MultiSampling.sample, MultiSampling.sample_m. intros Hrun.
  apply bind_Ok in Hrun as (ds & wd0 & Hds & Hrun).
  apply bind_Ok in Hrun as ([] & wd1 & Hloop & Hrun).
  injection Hrun as <- ->. reflexivity.
Qed.

(** ** C2 *)

(** C2. For each of the three samplers, a call of [sample()] that returns
    gives one new sample, produced by one step of the chain from the
    state before the call, and that sample is the state after the call.

    - [SliceSampling]: the value is the first proposal of this call that
      is above the slice level of this call, the level being drawn
      against the density at the previous sample and the proposals being
      drawn from the bracket stepped out around the previous sample as
      far as the first points at or below the level; the call has
      consumed [n + 3] draws for [n] rejected proposals and counted one
      more sample.
    - [MultiSampling]: the value is the end of the chain
      [x_(k+1) = x_k + u_k * d_k] that starts at the previous state, each
      [u_k] being one sample of a one-dimensional sampler made for the
      direction [d_k] at [x_k].
    - [GibbsSampling]: the value is a new list object whose item [k], for
      each transition [T_k], is what [T_k] returned on the list holding
      the new items before [k] and the previous items from [k] on; the
      previous list is not changed.

    In each case the field [x] holds the returned value after the
    call. *)
Theorem sample_returns_one_new_sample :
  (forall (fuel : nat) (s : SliceSampling.t) (rs : RandomSource) (v : Q)
          (s' : SliceSampling.t) (rs' : RandomSource),
      SliceSampling.sample fuel s rs = Ok (v, (s', rs')) ->
      SliceSampling.x s' = v /\
      SliceSampling.samples s' = S (SliceSampling.samples s) /\
      exists (v0 : logval) (h : Q) (nl nr n : nat),
        let x0 := SliceSampling.x s in
        let lu := np_log (uniform_value 0 h (draws rs (pos rs))) in
        let r := uniform_value 0 1 (draws rs (S (pos rs))) in
        let a := SliceSampling.left_of s (x0 - r * SliceSampling.w s) nl in
        let b :=
          SliceSampling.right_of s (x0 + (1 - r) * SliceSampling.w s) nr in
        SliceSampling.log_p s x0 = Ok v0 /\ np_exp v0 = Val h /\
        (forall k, (k < nl)%nat ->
           exists vk,
             SliceSampling.log_p s
               (SliceSampling.left_of s (x0 - r * SliceSampling.w s) k)
             = Ok vk /\ lv_gt vk lu) /\
        (exists va, SliceSampling.log_p s a = Ok va /\ lv_le va lu) /\
        (forall k, (k < nr)%nat ->
           exists vk,
             SliceSampling.log_p s
               (SliceSampling.right_of s
                  (x0 + (1 - r) * SliceSampling.w s) k)
             = Ok vk /\ lv_gt vk lu) /\
        (exists vb, SliceSampling.log_p s b = Ok vb /\ lv_le vb lu) /\
        (forall j, (j < n)%nat ->
           exists vj,
             SliceSampling.log_p s
               (SliceSampling.proposal j x0 a b (advance 2 rs)) = Ok vj /\
             lv_le vj lu) /\
        v = SliceSampling.proposal n x0 a b (advance 2 rs) /\
        (exists lv, SliceSampling.log_p s v = Ok lv /\ lv_gt lv lu) /\
        rs' = advance (n + 3) rs) /\
  (forall (fuel : nat) (s : MultiSampling.t (U := U)) (rs : RandomSource)
          (v : list Q) (s' : MultiSampling.t (U := U))
          (rs' : RandomSource),
      MultiSampling.sample fuel s rs = Ok (v, (s', rs')) ->
      let K := length (MultiSampling.directions s) in
      MultiSampling.x s' = v /\
      exists (xq : nat -> list Q) (r : nat -> RandomSource),
        xq 0%nat = MultiSampling.x s /\ r 0%nat = rs /\
        xq K = v /\ r K = rs' /\
        forall (k : nat) (d : list Q),
          MultiSampling.directions s !! k = Some d ->
          exists (ux : Q) (obj : U),
            sample fuel (MultiSampling.sampler_for s (xq k) d) (r k)
              = Ok (ux, (obj, r (S k))) /\
            np_add (xq k) (np_scale ux d) = Ok (xq (S k))) /\
  (forall (s : GibbsSampling.t) (h : heap) (rs : RandomSource) (l : loc)
          (s' : GibbsSampling.t) (h' : heap) (rs' : RandomSource),
      GibbsSampling.sample s h rs = Ok (l, (s', (h', rs'))) ->
      let xs := heap_items h (GibbsSampling.x s) in
      let xs' := heap_items h' l in
      let K := length (GibbsSampling.transitions s) in
      GibbsSampling.x s' = l /\ l = length h /\
      (GibbsSampling.x s < length h ->
       l <> GibbsSampling.x s /\
       heap_items h' (GibbsSampling.x s) = xs)%nat /\
      length xs' = length xs /\
      drop K xs' = drop K xs /\
      exists r : nat -> RandomSource,
        r 0%nat = rs /\ r K = rs' /\
        forall (k : nat) (T : GibbsSampling.transition),
          GibbsSampling.transitions s !! k = Some T ->
          exists v, xs' !! k = Some v /\
                    T (GibbsSampling.view xs' xs k) (r k)
                    = Ok (v, r (S k))).
Proof.
  split; [|split].
  - intros fuel s rs v s' rs' Hrun.
    apply SliceFacts.sample_accepts in Hrun
      as (v0 & h & nl & nr & n & Hv0 & Hexp & Hgl & Hll & Hgr & Hlr & Hrej
          & Hv & Hacc & -> & ->).
    split; [reflexivity|]. split; [reflexivity|].
    exists v0, h, nl, nr, n. cbv zeta. auto 12.
  - intros fuel s rs v s' rs' Hrun K.
    split; [exact (multi_sample_state fuel s rs v s' rs' Hrun)|].
    unfold MultiSampling.sample, MultiSampling.sample_m in Hrun.
    apply bind_Ok in Hrun as (ds & wd0 & Hds & Hrun).
    injection Hds as <- <-.
    apply bind_Ok in Hrun as ([] & wd1 & Hloop & Hrun).
    apply MultiFacts.multi_loop_Ok in Hloop
      as (us & xq & r & -> & Hlen & Hx0 & Hr0 & Hsteps).
    injection Hrun as <- <- <-. fold K.
    exists xq, r. simpl.
    split; [exact Hx0|]. split; [exact Hr0|].
    split; [reflexivity|]. split; [reflexivity|].
    intros k d Hk. apply Hsteps in Hk as (ux & obj & _ & Hs & Hadd).
    now exists ux, obj.
  - intros s h rs l s' h' rs' Hrun xs xs' K.
    pose proof Hrun as Hfresh.
    apply GibbsFacts.gibbs_sample_fresh in Hfresh as (Hl & Hx & _ & Hold).
    apply GibbsFacts.gibbs_sample_Ok in Hrun
      as (_ & _ & ys & r & Hh' & Hr0 & HrK & Hlen & _ & Hdrop & Hsteps).
    assert (Hxs' : xs' = ys).
    { subst xs' h' l. apply GibbsFacts.heap_items_alloc. }
    rewrite Hxs'.
    split; [exact Hx|]. split; [exact Hl|].
    split.
    { intros Hlt. split; [lia|].
      unfold xs, heap_items. now rewrite (Hold _ Hlt). }
    split; [exact Hlen|]. split; [exact Hdrop|].
    exists r. auto.
Qed.

(** ** C8 *)

(** C8 (as amended). Neither sampler checks shapes, and there is no
    [DimensionMismatch] error.  [GibbsSampling.sample] stores whatever
    each transition returns, of any shape, and returns normally whenever
    the transitions do and there are no more transitions than items; with
    more transitions than items the item assignment raises [IndexError].
    In [MultiSampling.sample] the only check is the one NumPy's addition
    makes: a direction whose length differs from the state's, neither
    being one, never goes through and raises [ValueError] once the
    one-dimensional sampler has returned; a direction of length one is
    broadcast over the state without any error. *)
Theorem no_dimension_check :
  (forall (s : GibbsSampling.t) (h : heap) (rs : RandomSource),
      length (GibbsSampling.transitions s)
        <= length (heap_items h (GibbsSampling.x s)) ->
      GibbsSampling.total_transitions (GibbsSampling.transitions s) ->
      exists l s' h' rs',
        GibbsSampling.sample s h rs = Ok (l, (s', (h', rs'))) /\
        forall (k : nat) (T : GibbsSampling.transition),
          GibbsSampling.transitions s !! k = Some T ->
          exists v ys r r',
            T ys r = Ok (v, r') /\ heap_items h' l !! k = Some v)%nat /\
  (forall (s : GibbsSampling.t) (h : heap) (rs : RandomSource),
      length (heap_items h (GibbsSampling.x s))
        < length (GibbsSampling.transitions s) ->
      GibbsSampling.total_transitions (GibbsSampling.transitions s) ->
      GibbsSampling.sample s h rs = Raise IndexError)%nat /\
  (forall (fuel : nat) (d : list Q) (s : MultiSampling.t (U := U))
          (rs : RandomSource),
      length d <> length (MultiSampling.x s) ->
      length d <> 1%nat -> length (MultiSampling.x s) <> 1%nat ->
      (forall r, MultiSampling.direction_step fuel d (s, rs) <> Ok r) /\
      (forall ux obj rs1,
          sample fuel
            (MultiSampling.sampler_for s (MultiSampling.x s) d) rs
            = Ok (ux, (obj, rs1)) ->
          MultiSampling.direction_step fuel d (s, rs)
          = Raise ValueError)) /\
  (forall (fuel : nat) (d0 : Q) (s : MultiSampling.t (U := U))
          (rs : RandomSource) (ux : Q) (obj : U) (rs1 : RandomSource),
      length (MultiSampling.x s) <> 1%nat ->
      sample fuel
        (MultiSampling.sampler_for s (MultiSampling.x s) [d0]) rs
        = Ok (ux, (obj, rs1)) ->
      MultiSampling.direction_step fuel [d0] (s, rs) =
      Ok (tt, (MultiSampling.set_x
                 (map (fun xi => xi + ux * d0) (MultiSampling.x s)) s,
               rs1))).
Proof.
  split; [|split; [|split]].
  - intros s h rs HK Htot.
    destruct (GibbsFacts.gibbs_loop_total (GibbsSampling.transitions s) 0
                (length h) s (h ++ [heap_items h (GibbsSampling.x s)]) rs)
      as [[s1 [h1 r1]] Hloop].
    + rewrite length_app. simpl. lia.
    + rewrite GibbsFacts.heap_items_alloc. exact HK.
    + exact Htot.
    + assert (Hrun : GibbsSampling.sample s h rs
                     = Ok (length h,
                           (GibbsSampling.set_x (length h) s1, (h1, r1))))
        by (rewrite GibbsFacts.gibbs_sample_unfold, Hloop; reflexivity).
      exists (length h), (GibbsSampling.set_x (length h) s1), h1, r1.
      split; [exact Hrun|].
      apply GibbsFacts.gibbs_sample_Ok in Hrun
        as (_ & _ & ys & r & -> & _ & _ & _ & _ & _ & Hsteps).
      intros k T Hk. apply Hsteps in Hk as (v & Hv & HT).
      exists v. do 3 eexists. split; [exact HT|].
      now rewrite GibbsFacts.heap_items_alloc.
  - intros s h rs HK Htot. rewrite GibbsFacts.gibbs_sample_unfold.
    rewrite GibbsFacts.gibbs_loop_IndexError; try assumption; try reflexivity.
    + rewrite length_app. simpl. lia.
    + lia.
    + now rewrite GibbsFacts.heap_items_alloc.
  - intros fuel d s rs. apply MultiFacts.direction_step_mismatch.
  - intros fuel d0 s rs ux obj rs1.
    apply MultiFacts.direction_step_broadcast.
Qed.

End AllSamplers.

(** ** SliceSampling: single steps *)

Module SliceSteps.
Import SliceSampling.

(** A step-out loop whose first test fails returns its endpoint. *)
Lemma step_out_left_stops (n : nat) (lu : logval) (a : Q) (s : t)
    (rs : RandomSource) (v : logval) :
  log_p s a = Ok v -> lv_le v lu ->
  step_out_left (S n) lu a (s, rs) = Ok (a, (incr_evals s, rs)).
Proof.
  intros Hv Hle. apply lv_gtb_false in Hle.
  assert (Hev : _log_p a (s, rs) = Ok (v, (incr_evals s, rs)))
    by now apply SliceFacts._log_p_Ok.
  cbn [step_out_left]. unfold bind at 1. now rewrite Hev, Hle.
Qed.

Lemma step_out_right_stops (n : nat) (lu : logval) (a : Q) (s : t)
    (rs : RandomSource) (v : logval) :
  log_p s a = Ok v -> lv_le v lu ->
  step_out_right (S n) lu a (s, rs) = Ok (a, (incr_evals s, rs)).
Proof.
  intros Hv Hle. apply lv_gtb_false in Hle.
  assert (Hev : _log_p a (s, rs) = Ok (v, (incr_evals s, rs)))
    by now apply SliceFacts._log_p_Ok.
  cbn [step_out_right]. unfold bind at 1. now rewrite Hev, Hle.
Qed.

Lemma step_out_stops (n : nat) (lu : logval) (a b : Q) (s : t)
    (rs : RandomSource) (va vb : logval) :
  log_p s a = Ok va -> lv_le va lu ->
  log_p s b = Ok vb -> lv_le vb lu ->
  step_out (S n) lu a b (s, rs)
  = Ok ((a, b), (incr_evals (incr_evals s), rs)).
Proof.
  intros Ha Hla Hb Hlb. unfold step_out. unfold bind at 1.
  rewrite (step_out_left_stops n lu a s rs va Ha Hla).
  unfold bind at 1.
  now rewrite (step_out_right_stops n lu b (incr_evals s) rs vb Hb Hlb).
Qed.

Section WithNumPy.
Context `{np : NumPy}.

(** The slice level and the bracket, written out. *)
Lemma bracket_eq (s : t) (rs : RandomSource) (v : logval) (h : Q) :
  log_p s (x s) = Ok v -> np_exp v = Val h ->
  let r := 0 + (1 - 0) * draws rs (S (pos rs)) in
  bracket (s, rs) =
  Ok ((np_log (0 + (h - 0) * draws rs (pos rs)),
       x s - r * w s, x s + (1 - r) * w s),
      (incr_evals s, advance 2 rs)).
Proof.
  intros Hv Hexp r.
  assert (Hev : _log_p (x s) (s, rs) = Ok (v, (incr_evals s, rs)))
    by now apply SliceFacts._log_p_Ok.
  unfold bracket. unfold bind at 1. unfold self at 1, gets.
  cbn [fst]. unfold bind at 1. rewrite Hev, Hexp. reflexivity.
Qed.

End WithNumPy.

End SliceSteps.

(** ** Sources *)

Lemma unit_draws_source_of (l : list Q) (d : Q) :
  Forall (fun u => 0 <= u /\ u < 1) l -> 0 <= d /\ d < 1 ->
  unit_draws (source_of l d).
Proof.
  intros Hl Hd i. simpl. revert i.
  induction Hl as [|u l Hu Hl IH]; intros [|i]; simpl; auto.
Qed.

Lemma source_of_tail (l : list Q) (d : Q) (i : nat) :
  (length l <= i)%nat -> draws (source_of l d) i = d.
Proof. intros Hi. simpl. now apply nth_overflow. Qed.

(** * Further properties of the code *)

(** ** SliceSampling: counters and errors *)

Module SliceMore.
Import SliceSampling.

Lemma _log_p_unfold (a : Q) (s : t) (rs : RandomSource) :
  _log_p a (s, rs) =
  match log_p s a with
  | Ok v => Ok (v, (incr_evals s, rs))
  | Raise e => Raise e
  | OutOfFuel => OutOfFuel
  end.
Proof.
  unfold _log_p, bind, update, modify, self, gets, lift. cbn [fst snd].
  reflexivity.
Qed.

Lemma step_out_left_Raise (fuel : nat) (lu : logval) (e : exn) :
  forall (a : Q) (s : t) (rs : RandomSource),
    step_out_left fuel lu a (s, rs) = Raise e ->
    exists z, log_p s z = Raise e.
Proof.
  induction fuel as [|fuel IH]; intros a s rs Hrun; [discriminate|].
  cbn [step_out_left] in Hrun. unfold bind at 1 in Hrun.
  rewrite _log_p_unfold in Hrun.
  destruct (log_p s a) as [v|e'|] eqn:Hv; try discriminate.
  - destruct (lv_gtb v lu); [|discriminate].
    unfold bind at 1 in Hrun. cbn [self gets fst] in Hrun.
    apply IH in Hrun. exact Hrun.
  - injection Hrun as ->. now exists a.
Qed.

Lemma step_out_right_Raise (fuel : nat) (lu : logval) (e : exn) :
  forall (a : Q) (s : t) (rs : RandomSource),
    step_out_right fuel lu a (s, rs) = Raise e ->
    exists z, log_p s z = Raise e.
Proof.
  induction fuel as [|fuel IH]; intros a s rs Hrun; [discriminate|].
  cbn [step_out_right] in Hrun. unfold bind at 1 in Hrun.
  rewrite _log_p_unfold in Hrun.
  destruct (log_p s a) as [v|e'|] eqn:Hv; try discriminate.
  - destruct (lv_gtb v lu); [|discriminate].
    unfold bind at 1 in Hrun. cbn [self gets fst] in Hrun.
    apply IH in Hrun. exact Hrun.
  - injection Hrun as ->. now exists a.
Qed.

Lemma main_loop_Raise (fuel : nat) (lu : logval) (e : exn) :
  forall (a b : Q) (s : t) (rs : RandomSource),
    main_loop fuel lu a b (s, rs) = Raise e ->
    exists z, log_p s z = Raise e.
Proof.
  induction fuel as [|fuel IH]; intros a b s rs Hrun; [discriminate|].
  cbn [main_loop] in Hrun. unfold bind at 1 in Hrun.
  rewrite SliceFacts.uniform_Ok in Hrun. unfold bind at 1 in Hrun.
  rewrite _log_p_unfold in Hrun.
  destruct (log_p s _) as [v|e'|] eqn:Hv; try discriminate.
  - destruct (lv_gtb v lu); [discriminate|].
    unfold bind at 1 in Hrun. cbn [self gets fst] in Hrun.
    destruct (adjust_interval _ _ a b) as [a' b'].
    apply IH in Hrun. exact Hrun.
  - injection Hrun as ->. eauto.
Qed.

Section WithNumPy.
Context `{np : NumPy}.

(** The counters and the generator after a call that returns: [n + 1]
    proposals, [nl] and [nr] steps out. *)
Lemma sample_shape (fuel : nat) (s : t) (rs : RandomSource) (v : Q)
    (s' : t) (rs' : RandomSource) :
  sample fuel s rs = Ok (v, (s', rs')) ->
  exists nl nr n : nat,
    s' = set_x v (add_evals (n + nl + nr + 4) (incr_samples s)) /\
    rs' = advance (n + 3) rs.
Proof.
  unfold sample, sample_m. intros Hrun.
  apply bind_Ok in Hrun as (fr & wd & Hfr & Hrun).
  injection Hrun as <- ->.
  apply SliceFacts.sample_frame_Ok in Hfr
    as (lu & a0 & b0 & nl & nr & _ & _ & Hloop & _).
  apply SliceFacts.main_loop_count in Hloop as (n & _ & [= -> ->]).
  exists nl, nr, n.
  rewrite !SliceFacts.add_evals_add, SliceFacts.advance_advance.
  split; [do 2 f_equal; lia | f_equal; lia].
Qed.

(** X1. A call of [SliceSampling.sample] that returns leaves [log_p] and
    [w] as they were, evaluates the density at least four times (the
    current sample, one test on each side, one proposal), consumes at
    least three random draws (level, offset, one proposal), and makes
    more evaluations than it consumes draws. *)
Theorem sample_counts (fuel : nat) (s : t) (rs : RandomSource) (v : Q)
    (s' : t) (rs' : RandomSource) :
  sample fuel s rs = Ok (v, (s', rs')) ->
  log_p s' = log_p s /\ w s' = w s /\
  (evals s + 4 <= evals s')%nat /\
  (pos rs + 3 <= pos rs')%nat /\
  draws rs' = draws rs /\
  (pos rs' - pos rs < evals s' - evals s)%nat.
Proof.
  intros Hrun. apply sample_shape in Hrun as (nl & nr & n & -> & ->).
  simpl. repeat split; lia.
Qed.

Lemma run_samples_shape (fuel n : nat) :
  forall (s : t) (rs : RandomSource) (vs : list Q) (s' : t)
         (rs' : RandomSource),
    run_samples fuel n s rs = Ok (vs, (s', rs')) ->
    length vs = n /\
    log_p s' = log_p s /\ w s' = w s /\
    samples s' = (samples s + n)%nat /\
    (evals s + 4 * n <= evals s')%nat /\
    (pos rs + 3 * n <= pos rs')%nat /\
    (forall v, last vs = Some v -> x s' = v).
Proof.
  induction n as [|n IH]; intros s rs vs s' rs' Hrun.
  - injection Hrun as <- <- <-. simpl.
    repeat split; try lia. intros v Hv. discriminate.
  - simpl in Hrun.
    destruct (sample fuel s rs) as [[v0 [s1 rs1]]| |] eqn:Hs;
      try discriminate.
    destruct (run_samples fuel n s1 rs1) as [[vs1 [s2 rs2]]| |] eqn:Hr;
      try discriminate.
    injection Hrun as <- <- <-.
    pose proof Hr as Hr0.
    apply IH in Hr as (Hlen & Hlp & Hw & Hsm & Hev & Hpos & Hlast).
    pose proof Hs as Hshape.
    apply sample_shape in Hshape as (nl & nr & k & -> & ->).
    simpl in *.
    split; [lia|]. split; [exact Hlp|]. split; [exact Hw|].
    split; [lia|]. split; [lia|]. split; [lia|].
    intros v Hv. destruct vs1 as [|v1 vs1].
    + simpl in Hv. injection Hv as <-.
      destruct n; [|discriminate].
      injection Hr0 as <- <-. reflexivity.
    + apply Hlast. exact Hv.
Qed.


(** X2. After [n] calls on a sampler just constructed,
    [[sampling.sample() for _ in range(n)]], the list has [n] samples, the
    counter [samples] is [n], the counter [evals] is at least [4 n], at
    least [3 n] draws were consumed, the last sample is the state [x], and
    [log_p] and [w] are those given to the constructor. *)
Theorem run_samples_counts (fuel n : nat) (lp : Q -> result logval)
    (x0 w0 : Q) (rs : RandomSource) (vs : list Q) (s' : t)
    (rs' : RandomSource) :
  run_samples fuel n (init lp x0 w0) rs = Ok (vs, (s', rs')) ->
  length vs = n /\ samples s' = n /\ (4 * n <= evals s')%nat /\
  (pos rs + 3 * n <= pos rs')%nat /\
  (forall v, last vs = Some v -> x s' = v) /\
  log_p s' = lp /\ w s' = w0.
Proof.
  intros Hrun.
  apply run_samples_shape in Hrun
    as (Hlen & Hlp & Hw & Hsm & Hev & Hpos & Hlast).
  simpl in *. repeat split; try assumption; lia.
Qed.

(** The code before the loops raises what [log_p] raises at the current
    sample, or [OverflowError] when the exponential of the log-density
    there is not finite. *)
Lemma bracket_Raise (s : t) (rs : RandomSource) (e : exn) :
  bracket (s, rs) = Raise e <->
  log_p s (x s) = Raise e \/
  (e = OverflowError /\ exists v, log_p s (x s) = Ok v /\ np_exp v = Inf).
Proof.
  unfold bracket. unfold bind at 1. unfold self at 1, gets. cbn [fst].
  unfold bind at 1. rewrite _log_p_unfold.
  destruct (log_p s (x s)) as [v0|e'|]; cbn.
  - destruct (np_exp v0) as [h|] eqn:Hexp; cbn.
    + split; [discriminate|].
      intros [|(_ & v & [= <-] & Hv)]; [discriminate | congruence].
    + split.
      * intros [= <-]. right. split; [reflexivity|]. now exists v0.
      * intros [|(-> & _)]; [discriminate | reflexivity].
  - split.
    + intros [= ->]. now left.
    + intros [[= ->]|(_ & v & Hv & _)]; [reflexivity | discriminate].
  - split; [discriminate|].
    intros [|(_ & v & Hv & _)]; discriminate.
Qed.

Lemma sample_Raise_inv (fuel : nat) (s : t) (rs : RandomSource) (e : exn) :
  (sample fuel s rs = Raise e ->
   (exists z, log_p s z = Raise e) \/
   (e = OverflowError /\
    exists v, log_p s (x s) = Ok v /\ np_exp v = Inf)) /\
  (log_p s (x s) = Raise e -> sample fuel s rs = Raise e).
Proof.
  unfold sample, sample_m, sample_frame, step_out.
  split.
  - intros Hrun. unfold bind at 1 in Hrun. unfold bind at 1 in Hrun.
    unfold update at 1, modify in Hrun. cbn [fst snd] in Hrun.
    unfold bind at 1 in Hrun.
    destruct (bracket (incr_samples s, rs)) as [[[[lu a0] b0] wd0]|e0|]
      eqn:Hb; try discriminate.
    + left. pose proof Hb as Hb'.
      apply SliceFacts.bracket_Ok in Hb'
        as (_ & _ & _ & _ & _ & _ & _ & _ & _ & ->).
      unfold bind at 1 in Hrun. unfold bind at 1 in Hrun.
      destruct (step_out_left fuel lu a0 _) as [[a1 [s1 r1]]|e1|] eqn:Hl;
        try discriminate.
      * pose proof Hl as Hl'.
        apply SliceFacts.step_out_left_spec in Hl'
          as (nl & _ & _ & [= -> ->] & _).
        unfold bind at 1 in Hrun.
        destruct (step_out_right fuel lu b0 _) as [[b1 [s2 r2]]|e2|] eqn:Hr;
          try discriminate.
        -- pose proof Hr as Hr'.
           apply SliceFacts.step_out_right_spec in Hr'
             as (nr & _ & _ & [= -> ->] & _).
           cbn [ret] in Hrun.
           destruct (main_loop fuel lu a1 b1 _) as [[fr wd]|e3|] eqn:Hm;
             try discriminate.
           injection Hrun as ->.
           apply main_loop_Raise in Hm. exact Hm.
        -- injection Hrun as ->.
           apply step_out_right_Raise in Hr. exact Hr.
      * injection Hrun as ->.
        apply step_out_left_Raise in Hl. exact Hl.
    + injection Hrun as ->.
      apply bracket_Raise in Hb as [Hb|Hb]; [left; eauto | now right].
  - intros Hv. unfold bind at 1. unfold bind at 1.
    unfold update at 1, modify. cbn [fst snd]. unfold bind at 1.
    assert (Hb : bracket (incr_samples s, rs) = Raise e)
      by (apply bracket_Raise; now left).
    now rewrite Hb.
Qed.

(** X4. [SliceSampling.sample] raises in two ways only: a call raises
    [e] only if [log_p] raised [e] at some point, or [e] is the
    [OverflowError] of [np.random.uniform].  If [log_p] raises at the
    current sample, the call raises the same exception, whatever the
    budget; if [np.exp] of the log-density at the current sample is not
    finite, the call raises [OverflowError]. *)
Theorem sample_raises_from_log_p_or_overflow (fuel : nat) (s : t)
    (rs : RandomSource) (e : exn) :
  (sample fuel s rs = Raise e ->
   (exists z, log_p s z = Raise e) \/ e = OverflowError) /\
  (log_p s (x s) = Raise e -> sample fuel s rs = Raise e) /\
  (forall v, log_p s (x s) = Ok v -> np_exp v = Inf ->
             sample fuel s rs = Raise OverflowError).
Proof.
  split; [|split].
  - intros Hrun.
    apply (proj1 (sample_Raise_inv fuel s rs e)) in Hrun
      as [Hz|[-> _]]; [now left | now right].
  - apply sample_Raise_inv.
  - intros v. apply SliceFacts.sample_overflow.
Qed.

(** X5. A width of zero makes the call hang: when [w] is [0] and the
    density at the current sample (at every rational equal to it) is above
    the slice level drawn, the left step-out loop tests the same point for
    ever and the call exhausts every budget.  The slice level is drawn
    below [np.exp] of the log-density at the current sample, which is
    finite. *)
Theorem zero_width_never_returns (s : t) (rs : RandomSource) (v : logval)
    (h : Q) :
  w s == 0 ->
  log_p s (x s) = Ok v ->
  np_exp v = Val h ->
  (forall a : Q, a == x s ->
     exists v', log_p s a = Ok v' /\
                lv_gt v' (np_log (0 + (h - 0) * draws rs (pos rs)))) ->
  forall fuel, sample fuel s rs = OutOfFuel.
Proof.
  intros Hw Hv Hexp Habove fuel.
  pose proof (SliceSteps.bracket_eq (incr_samples s) rs v h Hv Hexp) as Hb.
  cbv zeta in Hb.
  unfold sample, sample_m, sample_frame, step_out.
  unfold bind at 1. unfold bind at 1.
  unfold update at 1, modify. cbn [fst snd]. unfold bind at 1.
  rewrite Hb. unfold bind at 1. unfold bind at 1.
  rewrite SliceFacts.step_out_left_diverges; [reflexivity|].
  intros k. apply Habove.
  change (left_of (incr_evals (incr_samples s))
            (x s - (0 + (1 - 0) * draws rs (S (pos rs))) * w s) k == x s).
  rewrite SliceFacts.left_of_Qeq. simpl w. rewrite Hw. ring.
Qed.

End WithNumPy.

End SliceMore.

(** ** MultiSampling: coordinates and errors *)

Module MultiMore.
Local Open Scope nat_scope.

Lemma lookup_np_scale (u : Q) (d : list Q) (j : nat) (q : Q) :
  d !! j = Some q -> np_scale u d !! j = Some (u * q)%Q.
Proof.
  revert j. induction d as [|d0 d IH]; intros [|j] Hj; try discriminate.
  - now injection Hj as ->.
  - now apply IH.
Qed.

Lemma lookup_zip_plus (a : list Q) :
  forall (b : list Q) (j : nat) (p q : Q),
    a !! j = Some p -> b !! j = Some q ->
    zip_with Qplus a b !! j = Some (p + q)%Q.
Proof.
  induction a as [|a0 a IH]; intros [|b0 b] [|j] p q Ha Hb;
    try discriminate.
  - injection Ha as ->. now injection Hb as ->.
  - now apply IH.
Qed.

Lemma np_add_Raise (a b : list Q) (e : exn) :
  np_add a b = Raise e -> e = ValueError.
Proof.
  unfold np_add. destruct (Nat.eqb _ _); [discriminate|].
  destruct a as [|a0 [|a1 a]], b as [|b0 [|b1 b]]; try discriminate;
    now intros [= <-].
Qed.

Section WithSampler.
Context {U : Type} `{SU : Sampling U Q}.

(** Along the chain of additions a coordinate on which every direction
    is zero keeps its value, and the length of the state is kept. *)
Lemma chain_fixed (ds : list (list Q)) :
  forall (us : list Q) (xq : nat -> list Q) (j : nat) (a : Q),
    Forall (fun d => length d = length (xq 0)) ds ->
    Forall (fun d => exists q, d !! j = Some q /\ (q == 0)%Q) ds ->
    (forall (k : nat) (d : list Q),
        ds !! k = Some d ->
        exists ux, us !! k = Some ux /\
                   np_add (xq k) (np_scale ux d) = Ok (xq (S k))) ->
    xq 0 !! j = Some a ->
    length (xq (length ds)) = length (xq 0) /\
    exists b, xq (length ds) !! j = Some b /\ (b == a)%Q.
Proof.
  induction ds as [|d ds IH]; intros us xq j a Hlen Hzero Hsteps Ha.
  - split; [reflexivity|]. exists a. split; [exact Ha | reflexivity].
  - inversion Hlen as [|? ? Hd Hlen']; subst.
    inversion Hzero as [|? ? (q & Hq & Hq0) Hzero']; subst.
    destruct (Hsteps 0 d eq_refl) as (ux & _ & Hadd).
    rewrite np_add_same_length in Hadd by (now rewrite length_np_scale).
    injection Hadd as Hx1.
    assert (Hl1 : length (xq 1) = length (xq 0)).
    { rewrite <- Hx1, length_zip_with, length_np_scale. lia. }
    assert (Ha1 : xq 1 !! j = Some (a + ux * q)%Q).
    { rewrite <- Hx1. apply lookup_zip_plus; [exact Ha|].
      now apply lookup_np_scale. }
    destruct (IH (drop 1 us) (fun k => xq (S k)) j (a + ux * q)%Q)
      as (HlenK & b & Hb & Hba).
    + cbv beta. now rewrite Hl1.
    + exact Hzero'.
    + intros k d' Hk. destruct (Hsteps (S k) d' Hk) as (ux' & Hu & Hadd').
      exists ux'. split; [|exact Hadd'].
      rewrite lookup_drop. exact Hu.
    + exact Ha1.
    + simpl length. cbv beta in HlenK. split; [lia|].
      exists b. split; [exact Hb|]. rewrite Hba, Hq0. ring.
Qed.

(** X6. [MultiSampling.sample] moves the state along its directions only:
    when the directions have the length of the state, the returned state
    has that length too, and a coordinate on which every direction is zero
    is returned with its value unchanged. *)
Theorem multi_keeps_coordinate (fuel : nat) (s : MultiSampling.t (U := U))
    (rs : RandomSource) (v : list Q) (s' : MultiSampling.t (U := U))
    (rs' : RandomSource) (j : nat) (a : Q) :
  MultiSampling.sample fuel s rs = Ok (v, (s', rs')) ->
  Forall (fun d => length d = length (MultiSampling.x s))
    (MultiSampling.directions s) ->
  Forall (fun d => exists q, d !! j = Some q /\ (q == 0)%Q)
    (MultiSampling.directions s) ->
  MultiSampling.x s !! j = Some a ->
  length v = length (MultiSampling.x s) /\
  exists b, v !! j = Some b /\ (b == a)%Q.
Proof.
  intros Hrun Hlen Hzero Ha.
  unfold MultiSampling.sample, MultiSampling.sample_m in Hrun.
  apply bind_Ok in Hrun as (ds & wd0 & Hds & Hrun).
  injection Hds as <- <-.
  apply bind_Ok in Hrun as ([] & wd1 & Hloop & Hrun).
  apply MultiFacts.multi_loop_Ok in Hloop
    as (us & xq & r & -> & _ & Hx0 & _ & Hsteps).
  injection Hrun as <- <- <-. simpl.
  rewrite <- Hx0 in Hlen, Ha |- *.
  apply (chain_fixed _ us xq j a Hlen Hzero); [|exact Ha].
  intros k d Hk. apply Hsteps in Hk as (ux & obj & Hu & _ & Hadd).
  now exists ux.
Qed.

End WithSampler.

End MultiMore.

Lemma bind_Raise_inv {W A B} (m : ST W A) (k : A -> ST W B) (w : W)
    (e : exn) :
  bind m k w = Raise e ->
  m w = Raise e \/ exists a w', m w = Ok (a, w') /\ k a w' = Raise e.
Proof.
  unfold bind. destruct (m w) as [[a w']| |]; try discriminate; eauto.
  intros [= ->]. now left.
Qed.

Lemma bind_OutOfFuel_inv {W A B} (m : ST W A) (k : A -> ST W B) (w : W) :
  bind m k w = OutOfFuel ->
  m w = OutOfFuel \/ exists a w', m w = Ok (a, w') /\ k a w' = OutOfFuel.
Proof.
  unfold bind. destruct (m w) as [[a w']| |]; try discriminate; eauto.
Qed.

(** ** MultiSampling over SliceSampling *)

Module MultiSlice.

Section WithNumPy.
Context `{np : NumPy}.

Lemma direction_step_Raise (fuel : nat) (d : list Q)
    (s : MultiSampling.t (U := SliceSampling.t)) (rs : RandomSource)
    (e : exn) :
  slice_made s ->
  MultiSampling.direction_step fuel d (s, rs) = Raise e ->
  e = ValueError \/ e = OverflowError \/
  exists y, MultiSampling.log_p s y = Raise e.
Proof.
  intros Hfac Hrun. unfold MultiSampling.direction_step in Hrun.
  unfold bind at 1 in Hrun. cbn [MultiSampling.self gets fst] in Hrun.
  unfold bind at 1 in Hrun. cbn [MultiSampling.self gets fst] in Hrun.
  unfold bind at 1 in Hrun. cbn [MultiSampling.self gets fst] in Hrun.
  apply bind_Raise_inv in Hrun as [Hcall|(ux & wd & Hcall & Hrun)].
  - unfold MultiSampling.call_sample in Hcall. cbn [fst snd] in Hcall.
    destruct (sample fuel _ rs) as [[ux [obj rs1]]|e'|] eqn:Hs;
      try discriminate.
    injection Hcall as ->.
    apply (proj1 (SliceMore.sample_Raise_inv fuel _ rs e)) in Hs
      as [[z Hz]|[-> _]]; [|now right; left].
    rewrite Hfac in Hz. unfold MultiSampling.uni_log_p in Hz.
    destruct (np_add _ _) as [y|e'|] eqn:Hadd; try discriminate.
    + right; right. now exists y.
    + injection Hz as ->. left. now apply MultiMore.np_add_Raise in Hadd.
  - unfold MultiSampling.call_sample in Hcall. cbn [fst snd] in Hcall.
    destruct (sample fuel _ rs) as [[ux' [obj rs1]]|e'|] eqn:Hs;
      try discriminate.
    injection Hcall as <- <-.
    unfold bind at 1 in Hrun. cbn [MultiSampling.self gets fst] in Hrun.
    apply bind_Raise_inv in Hrun as [Hadd|(x1 & wd1 & _ & Hup)];
      [|discriminate].
    unfold lift in Hadd.
    destruct (np_add _ _) as [y|e'|] eqn:Hadd'; try discriminate.
    injection Hadd as ->. left. now apply MultiMore.np_add_Raise in Hadd'.
Qed.

Lemma multi_slice_loop_Raise (fuel : nat) (ds : list (list Q)) (e : exn) :
  forall (s : MultiSampling.t (U := SliceSampling.t)) (rs : RandomSource),
    slice_made s ->
    MultiSampling.loop fuel ds (s, rs) = Raise e ->
    e = ValueError \/ e = OverflowError \/
    exists y, MultiSampling.log_p s y = Raise e.
Proof.
  induction ds as [|d ds IH]; intros s rs Hfac Hrun; [discriminate|].
  cbn [MultiSampling.loop] in Hrun.
  apply bind_Raise_inv in Hrun as [Hstep|([] & wd & Hstep & Hrun)].
  - now apply direction_step_Raise in Hstep.
  - apply MultiFacts.direction_step_Ok in Hstep
      as (ux & obj & rs1 & x1 & _ & _ & ->).
    apply IH in Hrun; [exact Hrun|].
    intros lp x0. apply Hfac.
Qed.

(** X7. [MultiSampling] over the [SliceSampling] factory has three
    sources of error only: a call raises either [ValueError], from adding
    a direction that cannot be broadcast against the state, or the
    [OverflowError] of [np.random.uniform] in the one-dimensional
    sampler, or an exception that the multivariate [log_p] raised. *)
Theorem multi_slice_raises (fuel : nat)
    (s : MultiSampling.t (U := SliceSampling.t)) (rs : RandomSource)
    (e : exn) :
  slice_made s ->
  MultiSampling.sample fuel s rs = Raise e ->
  e = ValueError \/ e = OverflowError \/
  exists y, MultiSampling.log_p s y = Raise e.
Proof.
  intros Hfac Hrun.
  unfold MultiSampling.sample, MultiSampling.sample_m in Hrun.
  unfold bind at 1 in Hrun. cbn [MultiSampling.self gets fst] in Hrun.
  apply bind_Raise_inv in Hrun as [Hloop|([] & wd & _ & Hx)];
    [|discriminate].
  now apply multi_slice_loop_Raise in Hloop.
Qed.

End WithNumPy.

End MultiSlice.

(** ** GibbsSampling: errors, allocation, untouched items *)

Module GibbsMore.
Import GibbsSampling.
Local Open Scope nat_scope.

Lemma gibbs_loop_Raise (ts : list transition) (e : exn) :
  forall (i : nat) (l : loc) (s : t) (h : heap) (rs : RandomSource),
    l < length h ->
    loop ts i l (s, (h, rs)) = Raise e ->
    (e = IndexError /\ length (heap_items h l) < i + length ts) \/
    exists T ys r, In T ts /\ T ys r = Raise e.
Proof.
  induction ts as [|T ts IH]; intros i l s h rs Hl Hrun; [discriminate|].
  cbn [loop] in Hrun. unfold bind at 1 in Hrun.
  unfold items at 1, gets in Hrun. cbn [fst snd] in Hrun.
  unfold bind at 1 in Hrun. unfold call at 1 in Hrun.
  cbn [fst snd] in Hrun.
  destruct (T (heap_items h l) rs) as [[v rs1]|e'|] eqn:HT;
    try discriminate.
  - unfold bind at 1 in Hrun. unfold setitem at 1, heap_setitem in Hrun.
    cbn [fst snd] in Hrun.
    destruct (Nat.ltb_spec i (length (heap_items h l))) as [Hlt|Hge].
    + apply IH in Hrun; [|now rewrite length_insert].
      rewrite GibbsFacts.heap_items_insert_eq, length_insert in Hrun
        by exact Hl.
      destruct Hrun as [[-> Hlong]|(T' & ys & r & HT' & Hr)].
      * left. split; [reflexivity | simpl; lia].
      * right. exists T', ys, r. split; [now right | exact Hr].
    + injection Hrun as <-. left. split; [reflexivity | simpl; lia].
  - injection Hrun as ->. right.
    exists T, (heap_items h l), rs. split; [now left | exact HT].
Qed.

Lemma gibbs_loop_OutOfFuel (ts : list transition) :
  forall (i : nat) (l : loc) (s : t) (h : heap) (rs : RandomSource),
    loop ts i l (s, (h, rs)) = OutOfFuel ->
    exists T ys r, In T ts /\ T ys r = OutOfFuel.
Proof.
  induction ts as [|T ts IH]; intros i l s h rs Hrun; [discriminate|].
  cbn [loop] in Hrun. unfold bind at 1 in Hrun.
  unfold items at 1, gets in Hrun. cbn [fst snd] in Hrun.
  unfold bind at 1 in Hrun. unfold call at 1 in Hrun.
  cbn [fst snd] in Hrun.
  destruct (T (heap_items h l) rs) as [[v rs1]|e'|] eqn:HT;
    try discriminate.
  - unfold bind at 1 in Hrun. unfold setitem at 1, heap_setitem in Hrun.
    cbn [fst snd] in Hrun.
    destruct (Nat.ltb i (length (heap_items h l))); [|discriminate].
    apply IH in Hrun as (T' & ys & r & HT' & Hr).
    exists T', ys, r. split; [now right | exact Hr].
  - exists T, (heap_items h l), rs. split; [now left | exact HT].
Qed.

(** X8. [GibbsSampling.sample] fails in two ways only.  A call raises [e]
    either because a transition raised [e], or with [IndexError] because
    there are more transitions than items in the state; and it has no loop
    of its own that could run for ever: it fails to return only if a
    transition does. *)
Theorem gibbs_failures (s : t) (h : heap) (rs : RandomSource) :
  (forall e,
      sample s h rs = Raise e ->
      (e = IndexError /\
       length (heap_items h (x s)) < length (transitions s)) \/
      exists T ys r, In T (transitions s) /\ T ys r = Raise e) /\
  (sample s h rs = OutOfFuel ->
   exists T ys r, In T (transitions s) /\ T ys r = OutOfFuel).
Proof.
  rewrite GibbsFacts.gibbs_sample_unfold. split.
  - intros e Hrun.
    destruct (loop _ _ _ _) as [[[] [s1 hr]]|e'|] eqn:Hloop;
      try discriminate.
    injection Hrun as ->.
    apply gibbs_loop_Raise in Hloop; [|rewrite length_app; simpl; lia].
    rewrite GibbsFacts.heap_items_alloc in Hloop. exact Hloop.
  - intros Hrun.
    destruct (loop _ _ _ _) as [[[] [s1 hr]]|e'|] eqn:Hloop;
      try discriminate.
    now apply gibbs_loop_OutOfFuel in Hloop.
Qed.

Lemma run_shape (n : nat) :
  forall (s : t) (h : heap) (rs : RandomSource) (ls : list loc) (s' : t)
         (h' : heap) (rs' : RandomSource),
    run n (s, (h, rs)) = Ok (ls, (s', (h', rs'))) ->
    ls = seq (length h) n /\
    length h' = length h + n /\
    take (length h) h' = h /\
    transitions s' = transitions s /\
    (forall l, last ls = Some l -> x s' = l) /\
    length (heap_items h' (x s')) = length (heap_items h (x s)) /\
    drop (length (transitions s)) (heap_items h' (x s'))
    = drop (length (transitions s)) (heap_items h (x s)).
Proof.
  induction n as [|n IH]; intros s h rs ls s' h' rs' Hrun.
  - injection Hrun as <- <- <- <-. simpl.
    rewrite Nat.add_0_r, firstn_all.
    repeat split; try reflexivity. intros l Hl. discriminate.
  - cbn [run] in Hrun.
    apply bind_Ok in Hrun as (l & [s1 [h1 rs1]] & Hs & Hrun).
    apply bind_Ok in Hrun as (ls' & wd2 & Hr & Hrun).
    injection Hrun as <- ->.
    apply GibbsFacts.gibbs_sample_Ok in Hs
      as (-> & -> & xs' & r & -> & _ & _ & Hlen & _ & Hdrop & _).
    pose proof Hr as Hr0.
    apply IH in Hr as (-> & Hlen' & Htake & Hts & Hlast & Hl' & Hd').
    rewrite length_app in *. simpl in *.
    rewrite GibbsFacts.heap_items_alloc in Hl', Hd'.
    split; [f_equal; f_equal; lia|]. split; [lia|].
    split.
    { rewrite <- (take_app_length h [xs']) at 2.
      rewrite <- Htake, take_take. f_equal. lia. }
    split; [exact Hts|].
    split.
    { intros l Hl. destruct n as [|n].
      - simpl in Hl. injection Hl as <-. inversion Hr0; subst.
        reflexivity.
      - apply Hlast. simpl in Hl |- *. exact Hl. }
    split; [congruence|].
    now rewrite Hd'.
Qed.

(** X9. [n] calls of [GibbsSampling.sample] allocate exactly [n] lists:
    the lists returned are the [n] locations that follow the lists existing
    before, in order; the lists existing before are all still there,
    unchanged; the transitions are kept; and the last list returned is the
    state of the sampler. *)
Theorem run_allocates (n : nat) (s : t) (h : heap) (rs : RandomSource)
    (ls : list loc) (s' : t) (h' : heap) (rs' : RandomSource) :
  run n (s, (h, rs)) = Ok (ls, (s', (h', rs'))) ->
  ls = seq (length h) n /\
  length h' = length h + n /\
  take (length h) h' = h /\
  transitions s' = transitions s /\
  (forall l, last ls = Some l -> x s' = l).
Proof.
  intros Hrun.
  apply run_shape in Hrun as (H1 & H2 & H3 & H4 & H5 & _). auto.
Qed.

(** X10. The items of the state for which there is no transition are never
    changed: after any number of calls the state has as many items as at
    the start, and its items from index [K] on, [K] being the number of
    transitions, are the initial ones. *)
Theorem run_keeps_untransitioned_items (n : nat) (s : t) (h : heap)
    (rs : RandomSource) (ls : list loc) (s' : t) (h' : heap)
    (rs' : RandomSource) :
  run n (s, (h, rs)) = Ok (ls, (s', (h', rs'))) ->
  length (heap_items h' (x s')) = length (heap_items h (x s)) /\
  drop (length (transitions s)) (heap_items h' (x s'))
  = drop (length (transitions s)) (heap_items h (x s)).
Proof.
  intros Hrun.
  apply run_shape in Hrun as (_ & _ & _ & _ & _ & H6 & H7). auto.
Qed.

End GibbsMore.

(** ** The path of the widgets notebook *)

Module PathFacts.
Import Paths.

Lemma str_split_nonempty (sep : ascii) (s : string) : str_split sep s <> [].
Proof.
  destruct s as [|c r]; simpl; [discriminate|].
  destruct (Ascii.eqb c sep); [discriminate|].
  destruct (str_split sep r); discriminate.
Qed.

Lemma str_join_cons_char (sep : string) (c : ascii) (p : string)
    (ps : list string) :
  str_join sep (String c p :: ps) = String c (str_join sep (p :: ps)).
Proof. destruct ps; reflexivity. Qed.

Lemma str_join_split (sep : ascii) (s : string) :
  str_join (String sep EmptyString) (str_split sep s) = s.
Proof.
  induction s as [|c r IH]; [reflexivity|].
  simpl str_split. destruct (Ascii.eqb_spec c sep) as [->|Hne].
  - pose proof (str_split_nonempty sep r) as Hr.
    destruct (str_split sep r) as [|p ps] eqn:Hs; [contradiction|].
    change (str_join (String sep "") ("" :: p :: ps))
      with (String sep (str_join (String sep "") (p :: ps))).
    now rewrite IH.
  - pose proof (str_split_nonempty sep r) as Hr.
    destruct (str_split sep r) as [|p ps] eqn:Hs; [contradiction|].
    rewrite str_join_cons_char. now rewrite IH.
Qed.

Lemma str_split_no_sep (sep : ascii) (s : string) :
  occurs sep s = false -> str_split sep s = [s].
Proof.
  induction s as [|c r IH]; [reflexivity|].
  simpl. intros Hocc. apply orb_false_iff in Hocc as [Hc Hr].
  rewrite Hc, (IH Hr). reflexivity.
Qed.

Lemma str_split_app (sep : ascii) (d b : string) :
  str_split sep (d +:+ String sep b) = str_split sep d ++ str_split sep b.
Proof.
  induction d as [|c r IH].
  - simpl. now rewrite Ascii.eqb_refl.
  - simpl. destruct (Ascii.eqb c sep).
    + now rewrite IH.
    + rewrite IH. pose proof (str_split_nonempty sep r) as Hr.
      destruct (str_split sep r) as [|p ps]; [contradiction|].
      reflexivity.
Qed.

(** X11. Splitting a string at a character and joining the pieces with
    that character gives the string back; the split never returns an empty
    list, and a string without the separator is its own single piece. *)
Theorem split_join_round_trip (sep : ascii) (s : string) :
  str_join (String sep EmptyString) (str_split sep s) = s /\
  str_split sep s <> [] /\
  (occurs sep s = false -> str_split sep s = [s]).
Proof.
  split; [apply str_join_split|].
  split; [apply str_split_nonempty | apply str_split_no_sep].
Qed.

Lemma pardir_app (d b : string) :
  occurs "/" b = false -> pardir (d +:+ String "/" b) = d.
Proof.
  intros Hb. unfold pardir.
  rewrite str_split_app, (str_split_no_sep _ b Hb), removelast_last.
  apply str_join_split.
Qed.

(** X12. [pardir] is the parent directory: for a path [d/b] whose last
    component [b] has no slash it is [d], so the notebook loaded is
    [d/widgets/2D_sampling_widget.ipynb]; for a path without any slash it
    is the empty string. *)
Theorem pardir_is_parent (d b : string) :
  occurs "/" b = false ->
  pardir (d +:+ String "/" b) = d /\
  widget_notebook (d +:+ String "/" b)
  = d +:+ "/widgets/2D_sampling_widget.ipynb" /\
  pardir b = EmptyString.
Proof.
  intros Hb. split; [now apply pardir_app|].
  split; [unfold widget_notebook; now rewrite pardir_app|].
  unfold pardir. now rewrite (str_split_no_sep _ b Hb).
Qed.

End PathFacts.

(** ** The diagnostic line *)

Module StrFacts.
Import SliceSamplingStr.

Lemma fmt_d_no_space (n : nat) : Paths.occurs " " (fmt_d n) = false.
Proof.
  unfold fmt_d. generalize (Nat.to_uint n). intros d.
  induction d; simpl; auto.
Qed.

Lemma fmt_d_inj (n m : nat) : fmt_d n = fmt_d m -> n = m.
Proof.
  unfold fmt_d. intros Heq.
  assert (Hu : Some (Nat.to_uint n) = Some (Nat.to_uint m)).
  { rewrite <- !NilEmpty.usu. now rewrite Heq. }
  injection Hu as Hu.
  rewrite <- (DecimalNat.Unsigned.of_to n), <- (DecimalNat.Unsigned.of_to m).
  now rewrite Hu.
Qed.

(** Two strings without the character [c], each followed by [c], start two
    equal strings: they are equal, and so are the rests. *)
Lemma cut_at (c : ascii) (d1 : string) :
  forall (e1 r1 r2 : string),
    Paths.occurs c d1 = false -> Paths.occurs c e1 = false ->
    d1 +:+ String c r1 = e1 +:+ String c r2 ->
    d1 = e1 /\ r1 = r2.
Proof.
  induction d1 as [|a d1 IH]; intros [|b e1] r1 r2 Hd He Heq; simpl in *.
  - injection Heq as ->. now split.
  - injection Heq as <- _. apply orb_false_iff in He as [He _].
    now rewrite Ascii.eqb_refl in He.
  - injection Heq as -> _. apply orb_false_iff in Hd as [Hd _].
    now rewrite Ascii.eqb_refl in Hd.
  - injection Heq as -> Heq.
    apply orb_false_iff in Hd as [_ Hd]. apply orb_false_iff in He as [_ He].
    destruct (IH e1 r1 r2 Hd He Heq) as [-> ->]. now split.
Qed.

(** X13. The diagnostic line determines both counters: two samplers whose
    [__str__] are equal have made the same number of evaluations and drawn
    the same number of samples. *)
Theorem str_determines_counters (s1 s2 : SliceSampling.t) :
  __str__ s1 = __str__ s2 ->
  SliceSampling.evals s1 = SliceSampling.evals s2 /\
  SliceSampling.samples s1 = SliceSampling.samples s2.
Proof.
  unfold __str__. intros Heq.
  simpl in Heq. repeat (injection Heq as Heq).
  apply (cut_at " " _ _ _ _ (fmt_d_no_space _) (fmt_d_no_space _)) in Heq
    as [He Heq].
  repeat (injection Heq as Heq).
  apply (cut_at " " _ _ _ _ (fmt_d_no_space _) (fmt_d_no_space _)) in Heq
    as [Hs _].
  split; now apply fmt_d_inj.
Qed.

End StrFacts.

(** * Examples

    Each theorem above that has premises is applied here to the
    demonstration data. *)

(** The examples run with the rational stand-ins for [np.exp] and
    [np.log]. *)
#[local] Existing Instance toy_numpy.

(** Name the value of a closed computation. *)
Ltac run_as Hname tm :=
  let v := eval vm_compute in tm in
  assert (Hname : tm = v) by (vm_compute; reflexivity).

Lemma demo_source_unit : unit_draws demo_source.
Proof.
  apply unit_draws_source_of; [|split; lra].
  repeat constructor; simpl; lra.
Qed.

(** C1 on the first demonstration of the notebook. *)
Lemma bracket_invariant_witness :
  exists fr s' rs',
    0 < SliceSampling.w demo_slice /\
    unit_draws demo_source /\
    SliceSampling.sample_frame 10 (demo_slice, demo_source)
      = Ok (fr, (s', rs')) /\
    SliceSampling.xl fr <= SliceSampling.x demo_slice
      <= SliceSampling.xr fr /\
    SliceSampling.xl fr <= SliceSampling.x_prime fr
      <= SliceSampling.xr fr /\
    SliceSampling.x s' = SliceSampling.x_prime fr.
Proof.
  assert (Hw : 0 < SliceSampling.w demo_slice) by reflexivity.
  pose proof demo_source_unit as Hu.
  run_as Hrun (SliceSampling.sample_frame 10
                 (demo_slice, demo_source)).
  match type of Hrun with
  | _ = Ok (?fr, (?s', ?rs')) => exists fr, s', rs'
  end.
  destruct (SliceFacts.bracket_invariant_at_acceptance
              10 demo_slice demo_source _ _ _ Hw Hu Hrun)
    as (H1 & H2 & _ & H4 & _).
  split; [exact Hw|]. split; [exact Hu|]. split; [exact Hrun|].
  split; [exact H1|]. split; [exact H2 | exact H4].
Defined.

(** C3 on the first demonstration: ten evaluations in the call. *)
Lemma step_out_below_level_witness :
  exists fr s' rs',
    SliceSampling.sample_frame 10 (demo_slice, demo_source)
      = Ok (fr, (s', rs')) /\
    SliceSampling.evals s' = 10%nat /\
    exists (lu : logval) (a1 b1 : Q),
      (exists v, SliceSampling.log_p demo_slice a1 = Ok v /\ lv_le v lu) /\
      (exists v, SliceSampling.log_p demo_slice b1 = Ok v /\ lv_le v lu).
Proof.
  run_as Hrun (SliceSampling.sample_frame 10
                 (demo_slice, demo_source)).
  match type of Hrun with
  | _ = Ok (?fr, (?s', ?rs')) => exists fr, s', rs'
  end.
  destruct (SliceFacts.step_out_below_level_and_evals
              10 demo_slice demo_source _ _ _ Hrun)
    as (lu & a0 & b0 & nl & nr & np & s1 & s2 & _ & _ & _ & Hl & Hr & _).
  split; [exact Hrun|]. split; [reflexivity|].
  exists lu, (SliceSampling.left_of demo_slice a0 nl),
    (SliceSampling.right_of demo_slice b0 nr).
  split; [exact Hl | exact Hr].
Defined.

(** C2 on the three demonstrations. *)
Lemma sample_returns_one_new_sample_witness :
  (exists v s' rs' n,
      SliceSampling.sample 10 demo_slice demo_source
        = Ok (v, (s', rs')) /\
      SliceSampling.x s' = v /\
      SliceSampling.samples s' = 1%nat /\
      rs' = advance (n + 3) demo_source /\
      exists lv, SliceSampling.log_p demo_slice v = Ok lv) /\
  (exists v s' rs' xq,
      MultiSampling.sample 10 demo_multi demo_source = Ok (v, (s', rs')) /\
      MultiSampling.x s' = v /\
      xq 0%nat = MultiSampling.x demo_multi /\
      xq (length (MultiSampling.directions demo_multi)) = v) /\
  (exists l s' h' rs',
      GibbsSampling.sample demo_gibbs demo_heap demo_source
        = Ok (l, (s', (h', rs'))) /\
      GibbsSampling.x s' = l /\
      l <> GibbsSampling.x demo_gibbs /\
      length (heap_items h' l)
      = length (heap_items demo_heap (GibbsSampling.x demo_gibbs))).
Proof.
  destruct (sample_returns_one_new_sample (U := SliceSampling.t)
              (SU := SliceSampling_Sampling))
    as (Hslice & Hmulti & Hgibbs).
  split; [|split].
  - run_as Hrun (SliceSampling.sample 10 demo_slice demo_source).
    match type of Hrun with
    | _ = Ok (?v, (?s', ?rs')) =>
        destruct (Hslice _ _ _ v s' rs' Hrun)
          as (Hx & Hs & v0 & h & nl & nr & n & _ & _ & _ & _ & _ & _ & _
              & _ & (lv & Hlv & _) & Hrs);
        exists v, s', rs', n
    end.
    split; [exact Hrun|]. split; [exact Hx|]. split; [exact Hs|].
    split; [exact Hrs|]. now exists lv.
  - run_as Hrun (MultiSampling.sample 10 demo_multi demo_source).
    match type of Hrun with
    | _ = Ok (?v, (?s', ?rs')) =>
        destruct (Hmulti _ _ _ v s' rs' Hrun)
          as (Hx & xq & r & Hx0 & _ & HxK & _);
        exists v, s', rs', xq
    end.
    split; [exact Hrun|]. split; [exact Hx|].
    split; [exact Hx0 | exact HxK].
  - run_as Hrun (GibbsSampling.sample demo_gibbs demo_heap demo_source).
    match type of Hrun with
    | _ = Ok (?l, (?s', (?h', ?rs'))) =>
        destruct (Hgibbs _ _ _ l s' h' rs' Hrun)
          as (Hx & _ & Hold & Hlen & _);
        exists l, s', h', rs'
    end.
    split; [exact Hrun|]. split; [exact Hx|].
    split; [|exact Hlen].
    apply Hold. simpl. lia.
Defined.

Lemma tau_like_total (ts : list GibbsSampling.transition) :
  Forall (fun T => T = tau_like) ts -> GibbsSampling.total_transitions ts.
Proof.
  intros Hts T HT ys r. rewrite Forall_forall in Hts.
  rewrite (Hts T) by now apply list_elem_of_In.
  do 2 eexists. reflexivity.
Qed.

(** C4 on the Gibbs demonstration, and on transitions that always return. *)
Lemma gibbs_systematic_sweep_witness :
  (exists l wd,
      (length (GibbsSampling.transitions gibbs_tau)
       <= length (heap_items demo_heap (GibbsSampling.x gibbs_tau)))%nat /\
      GibbsSampling.total_transitions (GibbsSampling.transitions gibbs_tau)
      /\ GibbsSampling.sample gibbs_tau demo_heap demo_source = Ok (l, wd))
  /\
  (exists l s' h' rs',
      GibbsSampling.sample demo_gibbs demo_heap demo_source
        = Ok (l, (s', (h', rs'))) /\
      GibbsSampling.x s' = l /\
      length (heap_items h' l) = 2%nat /\
      exists r0 r1 v,
        heap_items h' l !! 1%nat = Some v /\
        cond_prob 0 (GibbsSampling.view (heap_items h' l)
                       (heap_items demo_heap 0%nat) 1) r0 = Ok (v, r1)).
Proof.
  split.
  - assert (HK : (length (GibbsSampling.transitions gibbs_tau)
                  <= length (heap_items demo_heap
                               (GibbsSampling.x gibbs_tau)))%nat)
      by (simpl; lia).
    assert (Htot : GibbsSampling.total_transitions
                     (GibbsSampling.transitions gibbs_tau))
      by (apply tau_like_total; repeat constructor).
    destruct (proj1 (GibbsFacts.gibbs_systematic_sweep
                       gibbs_tau demo_heap demo_source) HK Htot)
      as (l & wd & Hrun).
    exists l, wd. split; [exact HK|]. split; [exact Htot | exact Hrun].
  - run_as Hrun (GibbsSampling.sample demo_gibbs demo_heap demo_source).
    match type of Hrun with
    | _ = Ok (?l, (?s', (?h', ?rs'))) => exists l, s', h', rs'
    end.
    destruct (proj2 (GibbsFacts.gibbs_systematic_sweep
                       demo_gibbs demo_heap demo_source) _ _ _ _ Hrun)
      as (Hx & _ & Hlen & _ & _ & r & _ & _ & Hsteps).
    split; [exact Hrun|]. split; [exact Hx|]. split; [exact Hlen|].
    destruct (Hsteps 1%nat (cond_prob 0) eq_refl) as (v & Hv & HT).
    exists (r 1%nat), (r 2%nat), v. split; [exact Hv | exact HT].
Defined.

(** C10 on the Gibbs demonstration: two calls, then one more. *)
Lemma returned_lists_witness :
  exists ls1 s1 h1 rs1 ls2 s2 h2 rs2,
    (GibbsSampling.x demo_gibbs < length demo_heap)%nat /\
    GibbsSampling.run 2 (demo_gibbs, (demo_heap, demo_source))
      = Ok (ls1, (s1, (h1, rs1))) /\
    GibbsSampling.run 1 (s1, (h1, rs1)) = Ok (ls2, (s2, (h2, rs2))) /\
    (forall l, l ∈ GibbsSampling.x demo_gibbs :: ls1 ->
       is_Some (h1 !! l) /\ h2 !! l = h1 !! l) /\
    NoDup (ls1 ++ ls2).
Proof.
  assert (Hx : (GibbsSampling.x demo_gibbs < length demo_heap)%nat)
    by (simpl; lia).
  run_as Hrun1 (GibbsSampling.run 2 (demo_gibbs, (demo_heap, demo_source))).
  match type of Hrun1 with
  | _ = Ok (?ls1, (?s1, (?h1, ?rs1))) =>
      run_as Hrun2 (GibbsSampling.run 1 (s1, (h1, rs1)));
      exists ls1, s1, h1, rs1
  end.
  match type of Hrun2 with
  | _ = Ok (?ls2, (?s2, (?h2, ?rs2))) => exists ls2, s2, h2, rs2
  end.
  destruct (GibbsFacts.returned_lists_are_not_mutated
              2 1 _ _ _ _ _ _ _ _ _ _ _ Hx Hrun1 Hrun2)
    as (Hsame & _ & Hnd & _).
  split; [exact Hx|]. split; [exact Hrun1|]. split; [exact Hrun2|].
  split; [exact Hsame | exact Hnd].
Defined.


Lemma demo_sources_same : same_draws demo_source demo_source_shifted.
Proof.
  intros i. unfold demo_source, demo_source_shifted, source_of.
  cbn [draws pos]. f_equal. lia.
Qed.

(** C7 on two sources that deliver the same draws from different
    positions. *)
Lemma same_draws_same_samples_witness :
  same_draws demo_source demo_source_shifted /\
  same_outcome
    (SliceSampling.sample 10 demo_slice demo_source)
    (SliceSampling.sample 10 demo_slice
       demo_source_shifted) /\
  same_outcome
    (run_samples 10 2
       (SliceSampling.init parabola (-3) (3 # 2)) demo_source)
    (run_samples 10 2
       (SliceSampling.init parabola (-3) (3 # 2)) demo_source_shifted).
Proof.
  pose proof demo_sources_same as Hsame.
  split; [exact Hsame|].
  exact (SliceFacts.same_draws_same_samples 10 2
           parabola (-3) (3 # 2) demo_slice _ _ Hsame).
Defined.

(** C9 on the point mass at [0]: a call whose first proposal is [0]
    returns it; the call on the point mass of log-density [710] raises
    [OverflowError]. *)
Lemma point_mass_witness :
  SliceSampling.log_p point_sampler = point_mass 0 0 /\
  (exists v s' rs',
      SliceSampling.sample 5 point_sampler point_hit_source
        = Ok (v, (s', rs')) /\
      v == 0 /\ SliceSampling.x s' = v) /\
  SliceSampling.log_p steep_point_sampler = point_mass 0 710 /\
  SliceSampling.sample 5 steep_point_sampler demo_source
    = Raise OverflowError.
Proof.
  assert (Hden : SliceSampling.log_p point_sampler = point_mass 0 0)
    by reflexivity.
  assert (Hsteep : SliceSampling.log_p steep_point_sampler
                   = point_mass 0 710) by reflexivity.
  split; [exact Hden|]. split; [|split; [exact Hsteep|]].
  - run_as Hrun (SliceSampling.sample 5 point_sampler point_hit_source).
    match type of Hrun with
    | _ = Ok (?v, (?s', ?rs')) => exists v, s', rs'
    end.
    split; [exact Hrun|].
    destruct (SliceFacts.point_mass_returns_or_runs_on
                0 0 5 point_sampler point_hit_source Hden)
      as (_ & _ & Hret & _).
    exact (Hret _ _ _ Hrun).
  - destruct (SliceFacts.point_mass_returns_or_runs_on
                0 710 5 steep_point_sampler demo_source Hsteep)
      as (_ & Hover & _).
    apply (Hover (Fin 710)); reflexivity.
Defined.

(** C9, counterexample: the point mass at [0] sampled from [1] with width
    [1/2].  The bracket lies within [1/2] of [1], so no proposal is [0]:
    whatever the unit draws and whatever the budget, the call neither
    returns nor raises. *)
Lemma point_mass_off_support_never_returns :
  SliceSampling.log_p off_point_sampler = point_mass 0 0 /\
  (forall rs : RandomSource,
      unit_draws rs ->
      forall fuel : nat,
        SliceSampling.sample fuel off_point_sampler rs = OutOfFuel) /\
  SliceSampling.sample 20 off_point_sampler demo_source = OutOfFuel.
Proof.
  split; [reflexivity|]. split; [|vm_compute; reflexivity].
  intros rs Hu fuel.
  assert (Hv : SliceSampling.log_p
                 (SliceSampling.incr_samples off_point_sampler)
                 (SliceSampling.x
                    (SliceSampling.incr_samples off_point_sampler))
               = Ok NegInf) by reflexivity.
  pose proof (SliceSteps.bracket_eq
                (SliceSampling.incr_samples off_point_sampler)
                rs NegInf 0 Hv eq_refl) as Hb.
  cbv zeta in Hb. cbn [SliceSampling.x SliceSampling.w
                       SliceSampling.incr_samples off_point_sampler
                       SliceSampling.init] in Hb.
  destruct (Hu (S (pos rs))) as [Hu0 Hu1].
  set (r := 0 + (1 - 0) * draws rs (S (pos rs))) in *.
  assert (Hr : 0 <= r < 1) by (unfold r; split; lra).
  assert (Hoff : forall z, 0 < z ->
            SliceSampling.log_p off_point_sampler z = Ok NegInf).
  { intros z Hz. cbn. unfold point_mass.
    assert (Hne : Qeq_bool z 0 = false)
      by (apply not_true_iff_false; rewrite Qeq_bool_iff; lra).
    now rewrite Hne. }
  unfold SliceSampling.sample, SliceSampling.sample_m. unfold bind at 1.
  destruct fuel as [|n].
  { unfold SliceSampling.sample_frame. unfold bind at 1.
    unfold SliceSampling.update, modify. cbn [fst snd].
    unfold bind at 1. rewrite Hb. reflexivity. }
  match type of Hb with
  | _ = Ok ((?lu, ?a0, ?b0), (?s1, ?r1)) =>
      assert (Hso : SliceSampling.step_out (S n) lu a0 b0 (s1, r1)
                    = Ok ((a0, b0),
                          (SliceSampling.incr_evals
                             (SliceSampling.incr_evals s1), r1)))
        by (apply SliceSteps.step_out_stops with (va := NegInf)
                                                   (vb := NegInf);
            [apply Hoff; lra | exact I | apply Hoff; lra | exact I])
  end.
  rewrite (SliceFacts.sample_frame_phases (S n) _ _ _ _ _ _ _ _ _ Hb Hso).
  rewrite (SliceFacts.main_loop_point_mass_outside 0 0);
    [reflexivity | reflexivity | left; lra | cbn; split; lra
    | now apply SliceFacts.unit_draws_advance].
Qed.

Lemma parabola_slice_bounded (s : SliceSampling.t) :
  SliceSampling.log_p s = parabola ->
  SliceSampling.total_density s /\
  SliceSampling.slice_bounded s (Fin (-1)) 1.
Proof.
  intros Hden. split.
  - intros z. rewrite Hden. unfold parabola. eauto.
  - intros z v Hv Hgt. rewrite Hden in Hv. injection Hv as <-.
    unfold lv_gt in Hgt. simpl in Hgt. apply Qgtb_true in Hgt.
    split; nra.
Qed.

Lemma flat_above (s : SliceSampling.t) (a : Q) (k : nat) :
  SliceSampling.log_p s = flat ->
  (exists v, SliceSampling.log_p s (SliceSampling.left_of s a k) = Ok v
             /\ lv_gt v (Fin (-1))) /\
  (exists v, SliceSampling.log_p s (SliceSampling.right_of s a k) = Ok v
             /\ lv_gt v (Fin (-1))).
Proof.
  intros Hden. rewrite Hden. split; exists (Fin 0); split; reflexivity.
Qed.

(** C6 (as amended) on the Gaussian sampled from [0] with width [1]:
    a rejected proposal inside the bracket narrows it; the second
    proposal is above the level and is returned; the left loop returns at
    the second point it tests; the step-out phase returns; on the flat
    density it never does. *)
Lemma shrink_loop_witness :
  (let rs := source_of [1 # 4] 0 in
   let p := uniform_value (- (3 # 2)) (3 # 2) (draws rs (pos rs)) in
   let a' := fst (SliceSampling.adjust_interval p 0 (- (3 # 2)) (3 # 2)) in
   let b' := snd (SliceSampling.adjust_interval p 0 (- (3 # 2)) (3 # 2)) in
   SliceSampling.log_p unit_slice p = Ok (Fin (- (p * p))) /\
   lv_le (Fin (- (p * p))) (Fin (- (1 # 2))) /\
   p <= 0 /\ - (3 # 2) < p /\
   b' - a' < (3 # 2) - - (3 # 2)) /\
  (exists fr wd,
      SliceSampling.main_loop 2 (Fin (- (1 # 2))) (- (3 # 2)) (3 # 2)
        (unit_slice, source_of [1 # 4; 1 # 2] 0) = Ok (fr, wd) /\
      SliceSampling.x_prime fr == 3 # 8) /\
  SliceSampling.step_out_left 2 (Fin (-1)) (- (1 # 2))
    (unit_slice, demo_source)
  = Ok (- (1 # 2) - 1, (SliceSampling.add_evals 2 unit_slice, demo_source))
  /\
  (exists r,
      SliceSampling.step_out 4 (Fin (-1)) (- (1 # 2)) (1 # 2)
        (unit_slice, demo_source) = Ok r) /\
  (forall fuel,
      SliceSampling.step_out fuel (Fin (-1)) (- (1 # 2)) (1 # 2)
        (flat_sampler, demo_source) = OutOfFuel).
Proof.
  destruct SliceFacts.shrink_loop_and_step_out_loops
    as (Hrej & Hret & _ & _ & _ & Hleft & _ & Hreg & Hdiv & _).
  split; [|split; [|split; [|split]]].
  - cbv zeta.
    set (rs := source_of [1 # 4] 0).
    set (p := uniform_value (- (3 # 2)) (3 # 2) (draws rs (pos rs))).
    assert (Hv : SliceSampling.log_p unit_slice p = Ok (Fin (- (p * p))))
      by reflexivity.
    assert (Hle : lv_le (Fin (- (p * p))) (Fin (- (1 # 2))))
      by (vm_compute; discriminate).
    assert (Hpx : p <= SliceSampling.x unit_slice)
      by (vm_compute; discriminate).
    assert (Hap : - (3 # 2) < p) by reflexivity.
    destruct (Hrej 0%nat (Fin (- (1 # 2))) (- (3 # 2)) (3 # 2) unit_slice
                rs _ Hv Hle) as (_ & _ & _ & _ & _ & Hstrict).
    split; [exact Hv|]. split; [exact Hle|]. split; [exact Hpx|].
    split; [exact Hap|].
    exact (proj2 (Hstrict Hpx) Hap).
  - set (rs := source_of [1 # 4; 1 # 2] 0).
    assert (Hrejected :
              forall j, (j < 1)%nat ->
                exists vj,
                  SliceSampling.log_p unit_slice
                    (SliceSampling.proposal j (SliceSampling.x unit_slice)
                       (- (3 # 2)) (3 # 2) rs) = Ok vj /\
                  lv_le vj (Fin (- (1 # 2)))).
    { intros j Hj. assert (j = 0%nat) as -> by lia.
      eexists. split; [reflexivity|]. vm_compute. discriminate. }
    assert (Hacc : lv_gt
                     (Fin (- (SliceSampling.proposal 1
                                (SliceSampling.x unit_slice)
                                (- (3 # 2)) (3 # 2) rs
                              * SliceSampling.proposal 1
                                  (SliceSampling.x unit_slice)
                                  (- (3 # 2)) (3 # 2) rs)))
                     (Fin (- (1 # 2))))
      by (vm_compute; reflexivity).
    pose proof (Hret 1%nat (Fin (- (1 # 2))) (- (3 # 2)) (3 # 2) unit_slice
                  rs _ Hrejected eq_refl Hacc 2%nat ltac:(lia)) as Hrun.
    do 2 eexists. split; [exact Hrun|]. vm_compute. reflexivity.
  - assert (Habove :
              forall j, (j < 1)%nat ->
                exists vj,
                  SliceSampling.log_p unit_slice
                    (SliceSampling.left_of unit_slice (- (1 # 2)) j)
                  = Ok vj /\ lv_gt vj (Fin (-1))).
    { intros j Hj. assert (j = 0%nat) as -> by lia.
      eexists. split; [reflexivity|]. vm_compute. reflexivity. }
    assert (Hbelow : lv_le
                       (Fin (- (SliceSampling.left_of unit_slice
                                  (- (1 # 2)) 1
                                * SliceSampling.left_of unit_slice
                                    (- (1 # 2)) 1)))
                       (Fin (-1)))
      by (vm_compute; discriminate).
    exact (Hleft 1%nat (Fin (-1)) (- (1 # 2)) unit_slice demo_source _
             Habove eq_refl Hbelow 2%nat ltac:(lia)).
  - destruct (parabola_slice_bounded unit_slice eq_refl) as [Htot Hbd].
    destruct (Hreg (Fin (-1)) (- (1 # 2)) (1 # 2) 1 unit_slice demo_source
                1%nat 1%nat Htot Hbd eq_refl eq_refl) as (r & Hrun).
    exists r. apply Hrun. lia.
  - apply Hdiv. intros k.
    exact (proj1 (flat_above flat_sampler (- (1 # 2)) k eq_refl)).
Defined.

(** C6, counterexample.  First: in a call on the Gaussian with a unit draw
    equal to [0], the proposal is the left endpoint; it is rejected and the
    adjusted bracket is as wide as before.  Second: the density with two
    islands is above the slice level of the call arbitrarily far out, and
    the call returns all the same.  Third: the same density sampled from
    [5], where it is zero, has no point above the slice level within the
    bracket, and the main loop rejects every proposal, whatever the unit
    draws: the call never returns.  Fourth, over binary64: the region
    above the level is bounded, within 16 of [10^16]; with a width of
    [1] the left endpoint does not move when [w] is subtracted, and the
    left step-out loop never returns. *)
Lemma rejection_without_shrink_and_islands :
  (exists lu a0 b0 a b s1 s2,
      let rs := advance 2 zero_tail_source in
      SliceSampling.bracket
        (SliceSampling.incr_samples unit_slice, zero_tail_source)
        = Ok ((lu, a0, b0), (s1, rs)) /\
      SliceSampling.step_out 5 lu a0 b0 (s1, rs) = Ok ((a, b), (s2, rs)) /\
      let p := uniform_value a b (draws rs (pos rs)) in
      (exists v, SliceSampling.log_p s2 p = Ok v /\ lv_le v lu) /\
      let a' := fst (SliceSampling.adjust_interval p (SliceSampling.x s2)
                       a b) in
      let b' := snd (SliceSampling.adjust_interval p (SliceSampling.x s2)
                       a b) in
      ~ (b' - a' < b - a)) /\
  (exists lu a0 b0 wd v wd',
      SliceSampling.bracket
        (SliceSampling.incr_samples island_sampler, demo_source)
        = Ok ((lu, a0, b0), wd) /\
      (forall B : Q, exists z v,
          B < z /\ SliceSampling.log_p island_sampler z = Ok v /\
          lv_gt v lu) /\
      SliceSampling.sample 5 island_sampler demo_source
        = Ok (v, wd')) /\
  (SliceSampling.log_p gap_sampler = islands /\
   islands 0 = Ok (Fin 0) /\
   forall rs : RandomSource,
     unit_draws rs ->
     forall fuel : nat,
       SliceSampling.sample fuel gap_sampler rs = OutOfFuel) /\
  ((forall z,
       Binary64.gtb (Binary64.log_p Binary64.far_sampler z)
         Binary64.far_level = true ->
       PrimFloat.leb Binary64.far_lo z = true /\
       PrimFloat.leb z Binary64.far_hi = true) /\
   PrimFloat.sub Binary64.far_xl (Binary64.w Binary64.far_sampler)
   = Binary64.far_xl /\
   forall fuel,
     Binary64.step_out_left fuel Binary64.far_level Binary64.far_xl
       Binary64.far_sampler = OutOfFuel).
Proof.
  split; [|split; [|split]].
  - run_as Hb (SliceSampling.bracket
                 (SliceSampling.incr_samples unit_slice, zero_tail_source)).
    match type of Hb with
    | _ = Ok ((?lu, ?a0, ?b0), (?s1, ?rs)) =>
        run_as Hso (SliceSampling.step_out 5 lu a0 b0 (s1, rs));
        exists lu, a0, b0
    end.
    match type of Hso with
    | _ = Ok ((?a, ?b), (?s2, ?rs)) => exists a, b
    end.
    do 2 eexists. cbv zeta. split; [exact Hb|]. split; [exact Hso|].
    split.
    + eexists. split; [vm_compute; reflexivity|]. vm_compute. discriminate.
    + vm_compute. discriminate.
  - run_as Hb (SliceSampling.bracket
                 (SliceSampling.incr_samples island_sampler, demo_source)).
    run_as Hrun (SliceSampling.sample 5 island_sampler
                   demo_source).
    match type of Hb with
    | _ = Ok ((?lu, ?a0, ?b0), ?wd) => exists lu, a0, b0, wd
    end.
    match type of Hrun with
    | _ = Ok (?v, ?wd') => exists v, wd'
    end.
    split; [exact Hb|]. split; [|exact Hrun].
    intros B. exists (B * B + 11), (Fin 0).
    assert (Ht : 0 <= B * B) by nra.
    split; [nra|]. split; [|reflexivity].
    cbn [island_sampler SliceSampling.init SliceSampling.log_p].
    unfold islands.
    assert (Hbig : Qgtb ((B * B + 11) * (B * B + 11)) 100 = true)
      by (apply Qgtb_true; nra).
    now rewrite Hbig, orb_true_r.
  - split; [reflexivity|]. split; [reflexivity|].
    intros rs Hu fuel.
    assert (Hv : SliceSampling.log_p
                   (SliceSampling.incr_samples gap_sampler)
                   (SliceSampling.x (SliceSampling.incr_samples gap_sampler))
                 = Ok NegInf) by reflexivity.
    pose proof (SliceSteps.bracket_eq
                  (SliceSampling.incr_samples gap_sampler)
                  rs NegInf 0 Hv eq_refl) as Hb.
    cbv zeta in Hb. cbn [SliceSampling.x SliceSampling.w
                         SliceSampling.incr_samples gap_sampler
                         SliceSampling.init] in Hb.
    destruct (Hu (S (pos rs))) as [Hu0 Hu1].
    set (r := 0 + (1 - 0) * draws rs (S (pos rs))) in *.
    assert (Hr : 0 <= r < 1) by (unfold r; split; lra).
    assert (Hgap : forall z, 4 <= z <= 6 ->
              SliceSampling.log_p gap_sampler z = Ok NegInf).
    { intros z Hz. cbn. unfold islands.
      assert (H1 : Qgtb 1 (z * z) = false) by (apply Qgtb_false; nra).
      assert (H2 : Qgtb (z * z) 100 = false) by (apply Qgtb_false; nra).
      now rewrite H1, H2. }
    unfold SliceSampling.sample, SliceSampling.sample_m. unfold bind at 1.
    destruct fuel as [|n].
    { unfold SliceSampling.sample_frame. unfold bind at 1.
      unfold SliceSampling.update, modify. cbn [fst snd].
      unfold bind at 1. rewrite Hb. reflexivity. }
    match type of Hb with
    | _ = Ok ((?lu, ?a0, ?b0), (?s1, ?r1)) =>
        assert (Hso : SliceSampling.step_out (S n) lu a0 b0 (s1, r1)
                      = Ok ((a0, b0),
                            (SliceSampling.incr_evals
                               (SliceSampling.incr_evals s1), r1)))
          by (apply SliceSteps.step_out_stops with (va := NegInf)
                                                     (vb := NegInf);
              [apply Hgap; lra | exact I | apply Hgap; lra | exact I])
    end.
    rewrite (SliceFacts.sample_frame_phases (S n) _ _ _ _ _ _ _ _ _ Hb Hso).
    rewrite SliceFacts.main_loop_nothing_above;
      [reflexivity | | cbn; split; lra
      | now apply SliceFacts.unit_draws_advance].
    intros z Hz. exists NegInf. split; [apply Hgap; lra | exact I].
  - split; [exact Binary64Facts.far_region_bounded|].
    split; [exact (proj2 Binary64Facts.far_step_absorbed)|].
    intros fuel.
    exact (Binary64Facts.far_step_out_left_diverges fuel 1).
Qed.

(** C8 (as amended) on the demonstrations: a transition that returns an
    array is stored without a check; a third transition for two items
    raises [IndexError]; a direction of three entries for a state of two
    raises [ValueError]; a direction of one entry is broadcast. *)
Lemma no_dimension_check_witness :
  (exists l s' h' rs',
      GibbsSampling.sample gibbs_tau demo_heap demo_source
        = Ok (l, (s', (h', rs')))) /\
  GibbsSampling.sample gibbs_too_many demo_heap demo_source
    = Raise IndexError /\
  MultiSampling.direction_step 10 [1; 0; 0]
    (multi_long_direction, demo_source) <> Ok (tt, (demo_multi, demo_source))
  /\
  (exists ux rs1,
      MultiSampling.direction_step 10 [1]
        (multi_short_direction, demo_source)
      = Ok (tt, (MultiSampling.set_x
                   (map (fun xi => xi + ux * 1)
                      (MultiSampling.x multi_short_direction))
                   multi_short_direction, rs1))).
Proof.
  destruct (no_dimension_check
              (U := SliceSampling.t)
              (SU := SliceSampling_Sampling))
    as (Hstore & Hindex & Hmis & Hbroad).
  split; [|split; [|split]].
  - assert (HK : (length (GibbsSampling.transitions gibbs_tau)
                  <= length (heap_items demo_heap
                               (GibbsSampling.x gibbs_tau)))%nat)
      by (simpl; lia).
    assert (Htot : GibbsSampling.total_transitions
                     (GibbsSampling.transitions gibbs_tau))
      by (apply tau_like_total; repeat constructor).
    destruct (Hstore gibbs_tau demo_heap demo_source HK Htot)
      as (l & s' & h' & rs' & Hrun & _).
    exists l, s', h', rs'. exact Hrun.
  - apply Hindex; [simpl; lia|].
    apply tau_like_total. repeat constructor.
  - apply (proj1 (Hmis 10%nat [1; 0; 0] multi_long_direction demo_source
                    ltac:(simpl; lia) ltac:(simpl; lia)
                    ltac:(simpl; lia))).
  - run_as Hs (sample
                 10
                 (MultiSampling.sampler_for multi_short_direction
                    (MultiSampling.x multi_short_direction) [1])
                 demo_source).
    match type of Hs with
    | _ = Ok (?ux, (?obj, ?rs1)) =>
        exists ux, rs1;
        apply (Hbroad 10%nat 1 multi_short_direction demo_source ux obj rs1
                 ltac:(simpl; lia) Hs)
    end.
Defined.

(** C8, counterexample.  The Gibbs sampler is given a transition whose
    output is an array of one element for a coordinate that holds a float;
    the call returns normally and the state holds the array.  The
    multi-direction sampler is given a direction of one entry for a state
    of two; the call returns normally. *)
Lemma shape_mismatch_goes_unnoticed :
  (exists l s' h' rs' v_old v_new,
      GibbsSampling.sample gibbs_tau demo_heap demo_source
        = Ok (l, (s', (h', rs'))) /\
      heap_items demo_heap (GibbsSampling.x gibbs_tau) !! 1%nat
        = Some v_old /\
      heap_items h' (GibbsSampling.x s') !! 1%nat = Some v_new /\
      shape v_new <> shape v_old) /\
  (exists v wd,
      Forall (fun d => length d <> length (MultiSampling.x
                                             multi_short_direction))
        (MultiSampling.directions multi_short_direction) /\
      MultiSampling.sample 10 multi_short_direction demo_source = Ok (v, wd)).
Proof.
  split.
  - run_as Hrun (GibbsSampling.sample gibbs_tau demo_heap demo_source).
    match type of Hrun with
    | _ = Ok (?l, (?s', (?h', ?rs'))) => exists l, s', h', rs'
    end.
    do 2 eexists. split; [exact Hrun|].
    split; [reflexivity|]. split; [reflexivity|]. discriminate.
  - run_as Hrun (MultiSampling.sample 10 multi_short_direction demo_source).
    match type of Hrun with
    | _ = Ok (?v, ?wd) => exists v, wd
    end.
    split; [|exact Hrun]. repeat constructor. simpl. lia.
Qed.

(** X1 on the first demonstration. *)
Lemma sample_counts_witness :
  exists v s' rs',
    SliceSampling.sample 10 demo_slice demo_source = Ok (v, (s', rs')) /\
    (SliceSampling.evals demo_slice + 4 <= SliceSampling.evals s')%nat /\
    (pos demo_source + 3 <= pos rs')%nat.
Proof.
  run_as Hrun (SliceSampling.sample 10 demo_slice demo_source).
  match type of Hrun with
  | _ = Ok (?v, (?s', ?rs')) => exists v, s', rs'
  end.
  destruct (SliceMore.sample_counts 10 demo_slice demo_source _ _ _ Hrun)
    as (_ & _ & He & Hp & _).
  split; [exact Hrun|]. split; [exact He | exact Hp].
Defined.

(** X2 on two calls of the first demonstration. *)
Lemma run_samples_counts_witness :
  exists vs s' rs',
    run_samples 10 2 (SliceSampling.init parabola (-3) (3 # 2)) demo_source
      = Ok (vs, (s', rs')) /\
    length vs = 2%nat /\ SliceSampling.samples s' = 2%nat /\
    (4 * 2 <= SliceSampling.evals s')%nat.
Proof.
  run_as Hrun (run_samples 10 2 (SliceSampling.init parabola (-3) (3 # 2))
                 demo_source).
  match type of Hrun with
  | _ = Ok (?vs, (?s', ?rs')) => exists vs, s', rs'
  end.
  destruct (SliceMore.run_samples_counts 10 2 parabola (-3) (3 # 2)
              demo_source _ _ _ Hrun) as (Hl & Hs & He & _).
  split; [exact Hrun|]. split; [exact Hl|]. split; [exact Hs | exact He].
Defined.

(** X4 on a density that raises at the starting point, on one that
    raises at the first point tested on the left, and on a density whose
    exponential overflows at the starting point. *)
Lemma sample_raises_witness :
  (SliceSampling.log_p (SliceSampling.init (raising_at (-3)) (-3) (3 # 2))
     (-3) = Raise (UserError 1) /\
   SliceSampling.sample 10
     (SliceSampling.init (raising_at (-3)) (-3) (3 # 2)) demo_source
   = Raise (UserError 1)) /\
  (SliceSampling.sample 10
     (SliceSampling.init (raising_at (- (27 # 8))) (-3) (3 # 2)) demo_source
   = Raise (UserError 1) /\
   ((exists z,
        SliceSampling.log_p
          (SliceSampling.init (raising_at (- (27 # 8))) (-3) (3 # 2)) z
        = Raise (UserError 1)) \/
    UserError 1 = OverflowError)) /\
  (np_exp (Fin 710) = Inf /\
   SliceSampling.sample 10 steep_point_sampler demo_source
   = Raise OverflowError).
Proof.
  split; [|split].
  - assert (Hv : SliceSampling.log_p
                   (SliceSampling.init (raising_at (-3)) (-3) (3 # 2))
                   (SliceSampling.x
                      (SliceSampling.init (raising_at (-3)) (-3) (3 # 2)))
                 = Raise (UserError 1)) by reflexivity.
    split; [exact Hv|].
    exact (proj1 (proj2 (SliceMore.sample_raises_from_log_p_or_overflow
                           10 _ demo_source (UserError 1))) Hv).
  - assert (Hrun : SliceSampling.sample 10
                     (SliceSampling.init (raising_at (- (27 # 8))) (-3)
                        (3 # 2)) demo_source
                   = Raise (UserError 1)) by (vm_compute; reflexivity).
    split; [exact Hrun|].
    exact (proj1 (SliceMore.sample_raises_from_log_p_or_overflow
                    10 _ demo_source (UserError 1)) Hrun).
  - assert (Hexp : np_exp (Fin 710) = Inf) by reflexivity.
    split; [exact Hexp|].
    exact (proj2 (proj2 (SliceMore.sample_raises_from_log_p_or_overflow
                           10 steep_point_sampler demo_source
                           OverflowError)) (Fin 710) eq_refl Hexp).
Defined.

(** X5 on the Gaussian with a width of zero. *)
Lemma zero_width_witness :
  SliceSampling.w zero_width_slice == 0 /\
  SliceSampling.sample 7 zero_width_slice demo_source = OutOfFuel.
Proof.
  assert (Hw : SliceSampling.w zero_width_slice == 0) by reflexivity.
  split; [exact Hw|].
  assert (Hexp : np_exp (Fin (- (0 * 0))) = Val 1) by reflexivity.
  apply (SliceMore.zero_width_never_returns zero_width_slice demo_source
           (Fin (- (0 * 0))) 1 Hw eq_refl Hexp).
  intros a Ha. exists (Fin (- (a * a))). split; [reflexivity|].
  change (Qgtb (- (a * a)) (-1) = true). apply Qgtb_true.
  simpl in Ha. rewrite Ha. reflexivity.
Defined.

(** X6 on a state of three coordinates sampled along the first two axes. *)
Lemma multi_keeps_coordinate_witness :
  exists v s' rs' b,
    MultiSampling.sample 10 multi_plane demo_source = Ok (v, (s', rs')) /\
    MultiSampling.x multi_plane !! 2%nat = Some 7 /\
    v !! 2%nat = Some b /\ b == 7.
Proof.
  run_as Hrun (MultiSampling.sample 10 multi_plane demo_source).
  assert (Hlen : Forall
                   (fun d => length d = length (MultiSampling.x multi_plane))
                   (MultiSampling.directions multi_plane))
    by (repeat constructor).
  assert (Hzero : Forall (fun d => exists q, d !! 2%nat = Some q /\ q == 0)
                    (MultiSampling.directions multi_plane))
    by (repeat constructor; exists 0; split; reflexivity).
  assert (Ha : MultiSampling.x multi_plane !! 2%nat = Some 7)
    by reflexivity.
  match type of Hrun with
  | _ = Ok (?v, (?s', ?rs')) =>
      destruct (MultiMore.multi_keeps_coordinate 10 multi_plane demo_source
                  v s' rs' 2 7 Hrun Hlen Hzero Ha) as (_ & b & Hb & Hb7);
      exists v, s', rs', b
  end.
  split; [exact Hrun|]. split; [exact Ha|]. split; [exact Hb | exact Hb7].
Defined.

(** X7 on a direction of three entries for a state of two, and on a
    density whose exponential overflows. *)
Lemma multi_slice_raises_witness :
  slice_made multi_long_direction /\
  MultiSampling.sample 10 multi_long_direction demo_source
    = Raise ValueError /\
  (ValueError = ValueError \/ ValueError = OverflowError \/
   exists y, MultiSampling.log_p multi_long_direction y = Raise ValueError)
  /\
  slice_made multi_steep /\
  MultiSampling.sample 10 multi_steep demo_source = Raise OverflowError /\
  (OverflowError = ValueError \/ OverflowError = OverflowError \/
   exists y, MultiSampling.log_p multi_steep y = Raise OverflowError).
Proof.
  assert (Hfac : slice_made multi_long_direction)
    by (intros lp x0; reflexivity).
  assert (Hrun : MultiSampling.sample 10 multi_long_direction demo_source
                 = Raise ValueError) by (vm_compute; reflexivity).
  assert (Hfac' : slice_made multi_steep)
    by (intros lp x0; reflexivity).
  assert (Hrun' : MultiSampling.sample 10 multi_steep demo_source
                  = Raise OverflowError) by (vm_compute; reflexivity).
  split; [exact Hfac|]. split; [exact Hrun|].
  split; [exact (MultiSlice.multi_slice_raises 10 multi_long_direction
                   demo_source ValueError Hfac Hrun)|].
  split; [exact Hfac'|]. split; [exact Hrun'|].
  exact (MultiSlice.multi_slice_raises 10 multi_steep demo_source
           OverflowError Hfac' Hrun').
Defined.

(** X8 on three transitions for a state of two items. *)
Lemma gibbs_failures_witness :
  GibbsSampling.sample gibbs_too_many demo_heap demo_source
    = Raise IndexError /\
  ((IndexError = IndexError /\
    (length (heap_items demo_heap (GibbsSampling.x gibbs_too_many))
     < length (GibbsSampling.transitions gibbs_too_many))%nat) \/
   exists T ys r,
     In T (GibbsSampling.transitions gibbs_too_many) /\
     T ys r = Raise IndexError).
Proof.
  assert (Hrun : GibbsSampling.sample gibbs_too_many demo_heap demo_source
                 = Raise IndexError) by (vm_compute; reflexivity).
  split; [exact Hrun|].
  exact (proj1 (GibbsMore.gibbs_failures gibbs_too_many demo_heap
                  demo_source) IndexError Hrun).
Defined.

(** X9 on three calls of the Gibbs demonstration. *)
Lemma run_allocates_witness :
  exists ls s' h' rs',
    GibbsSampling.run 3 (demo_gibbs, (demo_heap, demo_source))
      = Ok (ls, (s', (h', rs'))) /\
    ls = [1; 2; 3]%nat /\ length h' = 4%nat /\
    take 1 h' = demo_heap.
Proof.
  run_as Hrun (GibbsSampling.run 3 (demo_gibbs, (demo_heap, demo_source))).
  match type of Hrun with
  | _ = Ok (?ls, (?s', (?h', ?rs'))) => exists ls, s', h', rs'
  end.
  destruct (GibbsMore.run_allocates 3 _ _ _ _ _ _ _ Hrun)
    as (Hls & Hlen & Htake & _).
  split; [exact Hrun|]. split; [exact Hls|].
  split; [exact Hlen | exact Htake].
Defined.

(** X10 on a sampler with a transition for the first item only. *)
Lemma run_keeps_items_witness :
  exists ls s' h' rs',
    GibbsSampling.run 3 (gibbs_first_only, (demo_heap, demo_source))
      = Ok (ls, (s', (h', rs'))) /\
    drop 1 (heap_items h' (GibbsSampling.x s')) = [Num 0].
Proof.
  run_as Hrun (GibbsSampling.run 3
                 (gibbs_first_only, (demo_heap, demo_source))).
  match type of Hrun with
  | _ = Ok (?ls, (?s', (?h', ?rs'))) => exists ls, s', h', rs'
  end.
  destruct (GibbsMore.run_keeps_untransitioned_items 3 _ _ _ _ _ _ _ Hrun)
    as (_ & Hdrop).
  split; [exact Hrun | exact Hdrop].
Defined.

(** X11 and X12 on a working directory. *)
Lemma split_join_witness :
  Paths.occurs "/" "notebooks" = false /\
  Paths.str_split "/" "notebooks" = ["notebooks"] /\
  Paths.str_join "/" (Paths.str_split "/" "/home/u/notebooks")
  = "/home/u/notebooks".
Proof.
  assert (Hb : Paths.occurs "/" "notebooks" = false) by reflexivity.
  destruct (PathFacts.split_join_round_trip "/" "notebooks")
    as (_ & _ & Hone).
  destruct (PathFacts.split_join_round_trip "/" "/home/u/notebooks")
    as (Hjoin & _).
  split; [exact Hb|]. split; [exact (Hone Hb) | exact Hjoin].
Defined.

Lemma pardir_witness :
  Paths.occurs "/" "notebooks" = false /\
  Paths.pardir "/home/u/notebooks" = "/home/u" /\
  Paths.widget_notebook "/home/u/notebooks"
  = "/home/u/widgets/2D_sampling_widget.ipynb".
Proof.
  assert (Hb : Paths.occurs "/" "notebooks" = false) by reflexivity.
  destruct (PathFacts.pardir_is_parent "/home/u" "notebooks" Hb)
    as (Hp & Hw & _).
  split; [exact Hb|]. split; [exact Hp | exact Hw].
Defined.

(** X13 on two samplers that differ in their position only. *)
Lemma str_determines_counters_witness :
  SliceSamplingStr.__str__ demo_slice
  = SliceSamplingStr.__str__ (SliceSampling.set_x 5 demo_slice) /\
  SliceSampling.evals demo_slice
  = SliceSampling.evals (SliceSampling.set_x 5 demo_slice).
Proof.
  assert (Heq : SliceSamplingStr.__str__ demo_slice
                = SliceSamplingStr.__str__ (SliceSampling.set_x 5 demo_slice))
    by reflexivity.
  split; [exact Heq|].
  exact (proj1 (StrFacts.str_determines_counters _ _ Heq)).
Defined.
